(** * Digest updater and instance finder of packages/tee-login

    Shallow embedding of
    - tee/update_stagex_hashes.py  (module [Arm], registry manifest variant)
    - tee/x86/update.py            (module [X86], package index variant)
    - dev/aws/aws_instance_finder.py (module [Finder]).

    Python [str] values are modelled as [list ascii]: one [ascii] per code
    point, code points 0..255 read as Latin-1.  File contents are the
    strings returned by [open(.., 'r').read()] (after newline translation). *)

From Stdlib Require Import List String Ascii Bool Arith Lia ZArith.
Import ListNotations.
Open Scope list_scope.
Set Warnings "-register-all".

Definition pystr := list ascii.
Definition S_ (s : string) : pystr := list_ascii_of_string s.

Definition ch (n : nat) : ascii := ascii_of_nat n.
Definition nl : ascii := ch 10.

(** Python's [str.isspace] / the [\s] class of a str pattern, on code
    points 0..255: 9..13, 28..31, 32, 0x85 and 0xA0. *)
Definition is_space (c : ascii) : bool :=
  let n := nat_of_ascii c in
  ((9 <=? n) && (n <=? 13)) || ((28 <=? n) && (n <=? 32))
  || (n =? 133) || (n =? 160).

Definition is_hex_lower (c : ascii) : bool :=
  let n := nat_of_ascii c in
  ((48 <=? n) && (n <=? 57)) || ((97 <=? n) && (n <=? 102)).

Definition not_in (cs : list ascii) (c : ascii) : bool :=
  negb (existsb (fun d => Ascii.eqb c d) cs).

(** ** A backtracking matcher for the regular expressions of the scripts

    Quantifiers in the sources only apply to single-character classes or
    to an optional group, so the syntax below covers every pattern used:
    greedy [p+] and [p{n}] on classes, greedy [(?:..)?], alternation,
    sequence, capturing groups and [$].  Alternatives and optional parts
    are tried in Python's order (first alternative first, optional part
    taken first, longest run first), with a continuation for the rest of
    the pattern. *)
Inductive regex : Type :=
| RLit (c : ascii)
| RSet (p : ascii -> bool)
| RPlus (p : ascii -> bool)
| RRep (n : nat) (p : ascii -> bool)
| ROpt (r : regex)
| RAlt (r1 r2 : regex)
| RSeq (r1 r2 : regex)
| RGroup (g : nat) (r : regex)
| REmp
| REol.

Definition caps := list (nat * pystr).
Definition mres := (caps * pystr)%type.

(** length of the longest prefix of [s] whose characters satisfy [p] *)
Fixpoint run_len (p : ascii -> bool) (s : pystr) : nat :=
  match s with
  | [] => 0
  | c :: s' => if p c then S (run_len p s') else 0
  end.

(** try [k n], [k (n-1)], ..., [k 1] *)
Fixpoint try_down (n : nat) (k : nat -> option mres) : option mres :=
  match n with
  | 0 => None
  | S n' => match k (S n') with Some x => Some x | None => try_down n' k end
  end.

Fixpoint mt (r : regex) (s : pystr) (cs : caps)
  (k : caps -> pystr -> option mres) : option mres :=
  match r with
  | RLit c =>
      match s with
      | x :: s' => if Ascii.eqb x c then k cs s' else None
      | [] => None
      end
  | RSet p =>
      match s with
      | x :: s' => if p x then k cs s' else None
      | [] => None
      end
  | RPlus p => try_down (run_len p s) (fun j => k cs (skipn j s))
  | RRep n p => if n <=? run_len p s then k cs (skipn n s) else None
  | ROpt r1 =>
      match mt r1 s cs k with Some x => Some x | None => k cs s end
  | RAlt r1 r2 =>
      match mt r1 s cs k with Some x => Some x | None => mt r2 s cs k end
  | RSeq r1 r2 => mt r1 s cs (fun cs' s' => mt r2 s' cs' k)
  | RGroup g r1 =>
      mt r1 s cs (fun cs' s' => k ((g, firstn (List.length s - List.length s') s) :: cs') s')
  | REmp => k cs s
  | REol =>
      match s with
      | [] => k cs s
      | [c] => if Ascii.eqb c nl then k cs s else None
      | _ => None
      end
  end.

(** [re.match(r, s)]: captured groups and the unconsumed rest *)
Definition re_match (r : regex) (s : pystr) : option mres :=
  mt r s [] (fun cs s' => Some (cs, s')).

Fixpoint group (g : nat) (cs : caps) : pystr :=
  match cs with
  | [] => []
  | (g', v) :: cs' => if g' =? g then v else group g cs'
  end.

(** a literal string, as produced by [re.escape] or written in the pattern *)
Fixpoint lits (w : pystr) : regex -> regex :=
  match w with
  | [] => fun r => r
  | c :: w' => fun r => RSeq (RLit c) (lits w' r)
  end.

Definition ws_plus : regex := RPlus is_space.                       (* \s+ *)
Definition dot_plus : regex := RPlus (fun c => negb (Ascii.eqb c nl)). (* .+ *)

(** [[^c1c2..]] *)
Definition not_class (cs : list ascii) : ascii -> bool := not_in cs.

(** ** [re.sub(pattern, repl, string)]

    Scans left to right; at each position the pattern is tried with
    [re.match] semantics; a match is replaced by [repl] applied to its
    groups and the scan resumes after it.  After an empty match (never
    produced by the patterns below) the next character is copied. *)
Fixpoint sub_fuel (fuel : nat) (r : regex) (repl : caps -> pystr) (s : pystr)
  : pystr :=
  match fuel with
  | 0 => s
  | S f =>
      match re_match r s with
      | Some (cs, rest) =>
          if List.length rest <? List.length s
          then repl cs ++ sub_fuel f r repl rest
          else repl cs ++ match s with
                          | [] => []
                          | c :: s' => c :: sub_fuel f r repl s'
                          end
      | None =>
          match s with
          | [] => []
          | c :: s' => c :: sub_fuel f r repl s'
          end
      end
  end.

Definition re_sub (r : regex) (repl : caps -> pystr) (s : pystr) : pystr :=
  sub_fuel (S (List.length s)) r repl s.

(** [rf'\g<1>{new_hash}\g<2>']: the digest is pasted between the two
    groups (a digest is hexadecimal, so the template holds no escape). *)
Definition repl_of (new_hash : pystr) (cs : caps) : pystr :=
  group 1 cs ++ new_hash ++ group 2 cs.

(** ** Lines: [f.readlines()] and [str.strip()] *)
Fixpoint readlines_acc (cur : pystr) (s : pystr) : list pystr :=
  match s with
  | [] => match cur with [] => [] | _ => [rev cur] end
  | c :: s' =>
      if Ascii.eqb c nl then rev (c :: cur) :: readlines_acc [] s'
      else readlines_acc (c :: cur) s'
  end.

Definition readlines (s : pystr) : list pystr := readlines_acc [] s.

Fixpoint lstrip (s : pystr) : pystr :=
  match s with
  | c :: s' => if is_space c then lstrip s' else s
  | [] => []
  end.

Definition strip (s : pystr) : pystr := rev (lstrip (rev (lstrip s))).

Fixpoint startswith (s pre : pystr) : bool :=
  match pre, s with
  | [], _ => true
  | p :: pre', c :: s' => Ascii.eqb p c && startswith s' pre'
  | _ :: _, [] => false
  end.

Fixpoint str_eqb (a b : pystr) : bool :=
  match a, b with
  | [], [] => true
  | x :: a', y :: b' => Ascii.eqb x y && str_eqb a' b'
  | _, _ => false
  end.

(** an extracted entry: (image_name, current_hash, full_line) *)
Definition entry := (pystr * pystr * pystr)%type.

(** the shared tail of both extraction patterns:
    [([^@:]+)[@:]([^@\s]+)\s+AS\s+(.+)$] *)
Definition extract_tail : regex :=
  RSeq (RGroup 1 (RPlus (not_class (S_ "@:"))))
  (RSeq (RSet (fun c => negb (not_class (S_ "@:") c)))
  (RSeq (RGroup 2 (RPlus (fun c => not_class (S_ "@") c && negb (is_space c))))
  (RSeq ws_plus (lits (S_ "AS") (RSeq ws_plus (RSeq (RGroup 3 dot_plus) REol)))))).

(** the shared tail of both update patterns:
    [@sha256:)[a-f0-9]{64}(\s+AS\s+.+)] (group 1 closes after [sha256:]) *)
Definition update_tail : regex :=
  RSeq (RRep 64 is_hex_lower)
       (RGroup 2 (RSeq ws_plus (lits (S_ "AS") (RSeq ws_plus dot_plus)))).

(** body of the loop of [extract_stagex_images] for one line *)
Definition extract_line (extract_re : regex) (raw : pystr) : option entry :=
  let line := strip raw in
  if startswith line (S_ "#") || str_eqb line [] then None
  else match re_match extract_re line with
       | Some (cs, _) =>
           let image_name := group 1 cs in
           let current_ref := group 2 cs in
           if str_eqb current_ref (S_ "local") then None
           else if startswith current_ref (S_ "sha256:")
           then Some (image_name, skipn 7 current_ref, line)
           else None
       | None => None
       end.

Definition extract_images (extract_re : regex) (content : pystr) : list entry :=
  flat_map (fun raw => match extract_line extract_re raw with
                       | Some e => [e] | None => [] end) (readlines content).

(** the [for image_name, new_hash in updates.items()] loop of
    [update_containerfile]; a dict is its list of items in insertion order *)
Definition apply_updates (update_re : pystr -> regex)
  (updates : list (pystr * pystr)) (content : pystr) : pystr :=
  fold_left (fun c kv => re_sub (update_re (fst kv)) (repl_of (snd kv)) c)
    updates content.

(** ** Effects and exceptions *)
Inductive exn : Type :=
| FileNotFoundError | ValueError | AttributeError | TypeError | KeyError
| CalledProcessError | JSONDecodeError | RequestException
| OverflowError | OSError | UnicodeDecodeError | RecursionError.

Inductive py (A : Type) : Type :=
| PyOk (a : A)
| PyRaise (e : exn).
Arguments PyOk {A} a.
Arguments PyRaise {A} e.

Inductive effect : Type :=
| EWrite (path data : pystr)
| EPrint (msg : pystr).

(** the file system as seen by [open(path, 'r')]: [None] when the file is
    missing or unreadable *)
Definition fsys := pystr -> option pystr.

(** [update_containerfile(containerfile_path, updates)]: the effects it
    performs, in order, or the exception of [open] *)
Definition update_containerfile (update_re : pystr -> regex) (fs : fsys)
  (containerfile_path : pystr) (updates : list (pystr * pystr))
  : py (list effect) :=
  match fs containerfile_path with
  | None => PyRaise FileNotFoundError
  | Some content =>
      let original_content := content in
      let content' := apply_updates update_re updates content in
      if negb (str_eqb content' original_content) then
        let backup_path := containerfile_path ++ S_ ".backup" in
        PyOk [EWrite backup_path original_content;
              EPrint (S_ "Backup created: " ++ backup_path);
              EWrite containerfile_path content';
              EPrint (S_ "Updated " ++ containerfile_path)]
      else PyOk [EPrint (S_ "No changes needed.")]
  end.

(** ** tee/update_stagex_hashes.py *)
Module Arm.

(** [^FROM\s+stagex/([^@:]+)[@:]([^@\s]+)\s+AS\s+(.+)$] *)
Definition extract_re : regex :=
  lits (S_ "FROM") (RSeq ws_plus (lits (S_ "stagex/") extract_tail)).

(** [(FROM\s+stagex/{re.escape(image_name)}@sha256:)[a-f0-9]{64}(\s+AS\s+.+)] *)
Definition update_re (image_name : pystr) : regex :=
  RSeq (RGroup 1 (lits (S_ "FROM") (RSeq ws_plus
         (lits (S_ "stagex/") (lits image_name (lits (S_ "@sha256:") REmp))))))
       update_tail.

Definition extract_stagex_images (content : pystr) : list entry :=
  extract_images extract_re content.

Definition update_containerfile := update_containerfile update_re.

End Arm.

(** ** tee/x86/update.py *)
Module X86.

(** [(?:\$\{STAGEX_REG\}/|[^/]+/)?] *)
Definition reg_prefix : regex :=
  ROpt (RAlt (lits (S_ "${STAGEX_REG}/") REmp)
             (RSeq (RPlus (not_class (S_ "/"))) (RLit "/"%char))).

(** [^FROM\s+(?:\$\{STAGEX_REG\}/|[^/]+/)?([^@:]+)[@:]([^@\s]+)\s+AS\s+(.+)$] *)
Definition extract_re : regex :=
  lits (S_ "FROM") (RSeq ws_plus (RSeq reg_prefix extract_tail)).

(** [(FROM\s+(?:\$\{STAGEX_REG\}/|[^/]+/)?{re.escape(image_name)}@sha256:)]
    [[a-f0-9]{64}(\s+AS\s+.+)] *)
Definition update_re (image_name : pystr) : regex :=
  RSeq (RGroup 1 (lits (S_ "FROM") (RSeq ws_plus (RSeq reg_prefix
         (lits image_name (lits (S_ "@sha256:") REmp))))))
       update_tail.

Definition extract_stagex_images (content : pystr) : list entry :=
  extract_images extract_re content.

Definition update_containerfile := update_containerfile update_re.

End X86.

(** ** dev/aws/aws_instance_finder.py *)
Module Finder.

(** JSON values as returned by [response.json()]; a JSON object is the
    list of its items in order (the decoder keeps one item per key).
    A JSON float is kept as the decimal [m * 10^e] it was written as. *)
Inductive json : Type :=
| JNull
| JBool (b : bool)
| JInt (z : Z)
| JFloat (m e : Z)
| JStr (s : pystr)
| JArr (l : list json)
| JObj (kvs : list (pystr * json)).

(** Python floats: a decimal value, or an infinity / nan *)
Inductive pyfloat : Type :=
| Dec (m e : Z)
| PInf (neg : bool)
| PNaN.

Fixpoint lookup (k : pystr) (kvs : list (pystr * json)) : option json :=
  match kvs with
  | [] => None
  | (k', v) :: kvs' => if str_eqb k k' then Some v else lookup k kvs'
  end.

(** [d.get(key, default)] *)
Definition get (d : json) (key : pystr) (default : json) : py json :=
  match d with
  | JObj kvs => PyOk (match lookup key kvs with Some v => v | None => default end)
  | _ => PyRaise AttributeError
  end.

(** [d[key]] for a string key *)
Definition getitem (d : json) (key : pystr) : py json :=
  match d with
  | JObj kvs => match lookup key kvs with Some v => PyOk v | None => PyRaise KeyError end
  | _ => PyRaise TypeError
  end.

Fixpoint is_substr (w s : pystr) : bool :=
  startswith s w || match s with [] => false | _ :: s' => is_substr w s' end.

(** [key in container] for a string [key] *)
Definition contains (container : json) (key : pystr) : py bool :=
  match container with
  | JObj kvs => PyOk (match lookup key kvs with Some _ => true | None => false end)
  | JArr l => PyOk (existsb (fun v => match v with JStr s => str_eqb s key | _ => false end) l)
  | JStr s => PyOk (is_substr key s)
  | _ => PyRaise TypeError
  end.

(** [v == n] for an int [n] *)
Definition eq_int (v : json) (n : Z) : bool :=
  match v with
  | JInt z => Z.eqb z n
  | JBool b => Z.eqb (if b then 1 else 0) n
  | JFloat m e =>
      if Z.leb 0 e then Z.eqb (m * 10 ^ e) n else Z.eqb m (n * 10 ^ (- e))
  | _ => false
  end%Z.

Definition digit (c : ascii) : option Z :=
  let n := nat_of_ascii c in
  if (48 <=? n) && (n <=? 57) then Some (Z.of_nat (n - 48)) else None.

(** digits, single underscores allowed between digits (PEP 515);
    returns value, number of digits, rest *)
Fixpoint digits_acc (acc : Z) (cnt : nat) (s : pystr) : Z * nat * pystr :=
  match s with
  | c :: s' =>
      match digit c with
      | Some d => digits_acc (acc * 10 + d)%Z (S cnt) s'
      | None =>
          match s' with
          | c' :: s'' =>
              if Ascii.eqb c "_"%char && (0 <? cnt) then
                match digit c' with
                | Some d => digits_acc (acc * 10 + d)%Z (S cnt) s''
                | None => (acc, cnt, s)
                end
              else (acc, cnt, s)
          | [] => (acc, cnt, s)
          end
      end
  | [] => (acc, cnt, s)
  end.

Definition lower (c : ascii) : ascii :=
  let n := nat_of_ascii c in if (65 <=? n) && (n <=? 90) then ascii_of_nat (n + 32) else c.

Definition sign_of (s : pystr) : bool * pystr :=
  match s with
  | c :: s' => if Ascii.eqb c "-"%char then (true, s')
               else if Ascii.eqb c "+"%char then (false, s') else (false, s)
  | [] => (false, s)
  end.

(** [float(s)] for a str [s] *)
Definition float_of_str (s0 : pystr) : option pyfloat :=
  let s := strip s0 in
  let '(neg, s1) := sign_of s in
  let low := map lower s1 in
  if str_eqb low (S_ "inf") || str_eqb low (S_ "infinity") then Some (PInf neg)
  else if str_eqb low (S_ "nan") then Some PNaN
  else
    let '(ip, ni, r1) := digits_acc 0 0 s1 in
    let '(m, nd, nf, r2) :=
      match r1 with
      | c :: r => if Ascii.eqb c "."%char
                  then let '(fp, nf, r') := digits_acc ip 0 r in (fp, ni, nf, r')
                  else (ip, ni, 0, r1)
      | [] => (ip, ni, 0, r1)
      end in
    if (nd + nf =? 0) then None else
    let '(ok, ex, r3) :=
      match r2 with
      | c :: r => if Ascii.eqb (lower c) "e"%char then
                    let '(eneg, r') := sign_of r in
                    let '(ev, ne, r'') := digits_acc 0 0 r' in
                    (negb (ne =? 0), (if eneg then - ev else ev)%Z, r'')
                  else (true, 0%Z, r2)
      | [] => (true, 0%Z, r2)
      end in
    if ok && str_eqb r3 [] then
      Some (Dec (if neg then - m else m)%Z (ex - Z.of_nat nf)%Z)
    else None.

(** the least integer magnitude that [float()] of an int rounds up to
    [2 ** 1024], beyond the largest double: [2 ** 1024 - 2 ** 970] *)
Definition float_overflow_bound : Z := (2 ^ 1024 - 2 ^ 970)%Z.

(** [float(v)]; an int too large for a double raises [OverflowError] *)
Definition py_float (v : json) : py pyfloat :=
  match v with
  | JInt z => if Z.leb float_overflow_bound (Z.abs z) then PyRaise OverflowError
              else PyOk (Dec z 0)
  | JBool b => PyOk (Dec (if b then 1 else 0) 0)
  | JFloat m e => PyOk (Dec m e)
  | JStr s => match float_of_str s with Some f => PyOk f | None => PyRaise ValueError end
  | _ => PyRaise TypeError
  end%Z.

Notation "x <- a ;; b" := (match a with PyOk x => b | PyRaise e => PyRaise e end)
  (at level 61, a at next level, right associativity).

Definition empty_obj : json := JObj [].

(** [get_linux_price_us_east_1(instance_data)]: inside
    [try: ... except (KeyError, ValueError, TypeError): return None] *)
Definition get_linux_price_us_east_1 (instance_data : json) : py (option pyfloat) :=
  let body : py (option pyfloat) :=
    prices <- get instance_data (S_ "prices") empty_obj ;;
    linux_prices <- get prices (S_ "Linux") empty_obj ;;
    us_east_1_prices <- get linux_prices (S_ "us-east-1") empty_obj ;;
    has_shared <- contains us_east_1_prices (S_ "Shared") ;;
    if has_shared then
      v <- getitem us_east_1_prices (S_ "Shared") ;;
      f <- py_float v ;; PyOk (Some f)
    else
      has_dedicated <- contains us_east_1_prices (S_ "Dedicated") ;;
      if has_dedicated then
        v <- getitem us_east_1_prices (S_ "Dedicated") ;;
        f <- py_float v ;; PyOk (Some f)
      else PyOk None in
  match body with
  | PyRaise KeyError | PyRaise ValueError | PyRaise TypeError => PyOk None
  | r => r
  end.

(** [filter_instances(instances, cpu_count, allowed_instances)]; the dict
    of instances is the list of its items *)
Fixpoint filter_instances (instances : list (pystr * json)) (cpu_count : Z)
  (allowed_instances : option (list pystr))
  : py (list (pystr * json * pyfloat)) :=
  match instances with
  | [] => PyOk []
  | (instance_name, instance_data) :: rest =>
      let continue := filter_instances rest cpu_count allowed_instances in
      let skip := match allowed_instances with
                  | Some al => negb (existsb (str_eqb instance_name) al)
                  | None => false
                  end in
      if skip then continue else
      vcpu <- get instance_data (S_ "vcpu") JNull ;;
      if negb (eq_int vcpu cpu_count) then continue else
      price <- get_linux_price_us_east_1 instance_data ;;
      match price with
      | None => continue
      | Some p =>
          regions <- get instance_data (S_ "regions") (JArr []) ;;
          inr <- contains regions (S_ "us-east-1") ;;
          if negb inr then continue else
          tl <- continue ;; PyOk ((instance_name, instance_data, p) :: tl)
      end
  end.

End Finder.

(** ** The two digest resolvers ([get_arm64_hash]) *)
Module Resolver.
Import Finder.

(** [re.search(pattern, s)]: the groups of the leftmost match *)
Fixpoint re_search (r : regex) (s : pystr) : option caps :=
  match re_match r s with
  | Some (cs, _) => Some cs
  | None => match s with [] => None | _ :: s' => re_search r s' end
  end.

(** [@sha256:([a-f0-9]{64})] *)
Definition ref_re : regex :=
  lits (S_ "@sha256:") (RGroup 1 (RRep 64 is_hex_lower)).

(** what [subprocess.run(['docker', 'manifest', 'inspect', '--verbose', url],
    check=True)] and [json.loads(result.stdout)] give: the binary is
    missing ([FileNotFoundError]), the command exits non-zero
    ([CalledProcessError]), or its output decodes to a JSON value
    ([None]: [JSONDecodeError]); any other exception of the two calls
    ([PermissionError] or another [OSError] when launching docker,
    [UnicodeDecodeError] when reading its output as text, [RecursionError]
    or another error of the decoder) propagates *)
Inductive manifest_outcome : Type :=
| DockerMissing
| DockerFailed
| DockerRaise (e : exn)
| DockerOutput (decoded : option json).

(** [for entry in manifest_data]: the values iteration yields *)
Definition py_iter (v : json) : py (list json) :=
  match v with
  | JArr l => PyOk l
  | JObj kvs => PyOk (map (fun kv => JStr (fst kv)) kvs)
  | JStr s => PyOk (map (fun c => JStr [c]) s)
  | _ => PyRaise TypeError
  end.

Definition json_eq_str (v : json) (s : pystr) : bool :=
  match v with JStr t => str_eqb t s | _ => false end.

Definition log := list effect.

(** the body of the [for entry in manifest_data] loop, from the first
    remaining entry on *)
Fixpoint scan_manifest (entries : list json) : py (option pystr) :=
  match entries with
  | [] => PyOk None
  | entry :: rest =>
      descriptor <- get entry (S_ "Descriptor") empty_obj ;;
      platform <- get descriptor (S_ "platform") empty_obj ;;
      arch <- get platform (S_ "architecture") JNull ;;
      os <- get platform (S_ "os") JNull ;;
      if json_eq_str arch (S_ "arm64") && json_eq_str os (S_ "linux") then
        ref <- get entry (S_ "Ref") (JStr []) ;;
        match ref with
        | JStr r =>
            match re_search ref_re r with
            | Some cs => PyOk (Some (group 1 cs))
            | None => scan_manifest rest
            end
        | _ => PyRaise TypeError
        end
      else scan_manifest rest
  end.

(** tee/update_stagex_hashes.py, [get_arm64_hash(image_name)]: the
    printed lines and the returned value or the escaping exception *)
Definition arm_get_arm64_hash (image_name : pystr) (out : manifest_outcome)
  : log * py (option pystr) :=
  let fetching := EPrint (S_ "Fetching manifest for " ++ image_name ++ S_ "...") in
  match out with
  | DockerMissing => ([fetching], PyRaise FileNotFoundError)
  | DockerRaise e => ([fetching], PyRaise e)
  | DockerFailed =>
      ([fetching; EPrint (S_ "Error fetching manifest for " ++ image_name);
        EPrint (S_ "stderr: ")], PyOk None)
  | DockerOutput None =>
      ([fetching; EPrint (S_ "Error parsing JSON for " ++ image_name)], PyOk None)
  | DockerOutput (Some manifest_data) =>
      match (entries <- py_iter manifest_data ;; scan_manifest entries) with
      | PyOk (Some h) => ([fetching], PyOk (Some h))
      | PyOk None =>
          ([fetching; EPrint (S_ "Warning: No ARM64 platform found for " ++ image_name)],
           PyOk None)
      | PyRaise e => ([fetching], PyRaise e)
      end
  end.

(** what [requests.get(url, timeout=10)] and [resp.raise_for_status()]
    give: an exception, or the text nodes of the parsed HTML page *)
Inductive page_outcome : Type :=
| HttpError
| HttpPage (strings : list pystr).

(** [linux/arm64 sha256:([a-f0-9]{64})] and [sha256:([a-f0-9]{64})] *)
Definition arm_line_re : regex :=
  lits (S_ "linux/arm64 sha256:") (RGroup 1 (RRep 64 is_hex_lower)).
Definition sha_re : regex :=
  lits (S_ "sha256:") (RGroup 1 (RRep 64 is_hex_lower)).

Fixpoint replace_char (a b : ascii) (s : pystr) : pystr :=
  match s with
  | [] => []
  | c :: s' => (if Ascii.eqb c a then b else c) :: replace_char a b s'
  end.

(** [image_name.split("-", 1)] *)
Fixpoint split_dash (s : pystr) : list pystr :=
  match s with
  | [] => [[]]
  | c :: s' =>
      if Ascii.eqb c "-"%char then [[]; s']
      else match split_dash s' with
           | w :: ws => (c :: w) :: ws
           | [] => [[c]]
           end
  end.

(** the URL computed before the [try]; [kind, subpath = ...] raises
    [ValueError] when the split does not give two parts *)
Definition x86_url (image_name : pystr) : py pystr :=
  if str_eqb image_name (S_ "core-ca-certificates") then
    PyOk (S_ "https://stagex.tools/packages/core/ca-certificates")
  else if str_eqb image_name (S_ "user-linux-nitro") then
    PyOk (S_ "https://stagex.tools/packages/user/linux-nitro")
  else
    ks <- (if startswith image_name (S_ "core-") then PyOk (S_ "core", skipn 5 image_name)
           else if startswith image_name (S_ "user-") then PyOk (S_ "user", skipn 5 image_name)
           else match split_dash image_name with
                | [kind; subpath] => PyOk (kind, subpath)
                | _ => PyRaise ValueError
                end) ;;
    PyOk (S_ "https://stagex.tools/packages/" ++ fst ks ++ S_ "/"
          ++ replace_char "-"%char "/"%char (snd ks)).

Fixpoint first_match (r : regex) (nodes : list pystr) : option pystr :=
  match nodes with
  | [] => None
  | n :: ns => match re_search r n with Some _ => Some n | None => first_match r ns end
  end.

(** tee/x86/update.py, [get_arm64_hash(image_name)] *)
Definition x86_get_arm64_hash (image_name : pystr) (out : page_outcome)
  : log * py (option pystr) :=
  match x86_url image_name with
  | PyRaise e => ([], PyRaise e)
  | PyOk url =>
      let fetching := EPrint (S_ "Fetching " ++ url ++ S_ "...") in
      match out with
      | HttpError =>
          ([fetching; EPrint (S_ "Error fetching digest for " ++ image_name)], PyOk None)
      | HttpPage nodes =>
          match first_match arm_line_re nodes with
          | Some m =>
              match re_search sha_re m with
              | Some cs => ([fetching], PyOk (Some (group 1 cs)))
              | None => (* [.group(1)] on [None]: caught by [except Exception] *)
                  ([fetching; EPrint (S_ "Error fetching digest for " ++ image_name)], PyOk None)
              end
          | None =>
              ([fetching; EPrint (S_ "Warning: no arm64 digest listed for " ++ image_name)],
               PyOk None)
          end
      end
  end.

End Resolver.

(** ** [main()] of both updaters *)
Module Main.

(** [updates[image_name] = new_hash] on a dict kept as its item list *)
Fixpoint dict_set (d : list (pystr * pystr)) (k v : pystr) : list (pystr * pystr) :=
  match d with
  | [] => [(k, v)]
  | (k', v') :: d' => if str_eqb k k' then (k', v) :: d' else (k', v') :: dict_set d' k v
  end.

(** the [for image_name, current_hash, full_line in images] loop: the
    printed lines, then the final [updates] and [failed_images], or the
    exception escaping from the resolver *)
Fixpoint fetch_loop (resolve : pystr -> list effect * py (option pystr))
  (images : list entry) (updates : list (pystr * pystr)) (failed : list pystr)
  : list effect * py (list (pystr * pystr) * list pystr) :=
  match images with
  | [] => ([], PyOk (updates, failed))
  | (image_name, current_hash, _) :: rest =>
      let pre := [EPrint (S_ "Processing " ++ image_name ++ S_ "...");
                  EPrint (S_ "Current hash: " ++ current_hash)] in
      let '(rlog, r) := resolve image_name in
      match r with
      | PyRaise e => (pre ++ rlog, PyRaise e)
      | PyOk (Some new_hash) =>
          if negb (str_eqb new_hash []) then
            if negb (str_eqb new_hash current_hash) then
              let '(l, res) := fetch_loop resolve rest
                                 (dict_set updates image_name new_hash) failed in
              (pre ++ rlog ++ EPrint (S_ "New hash:     " ++ new_hash ++ S_ " (UPDATED)") :: l, res)
            else
              let '(l, res) := fetch_loop resolve rest updates failed in
              (pre ++ rlog ++ EPrint (S_ "New hash:     " ++ new_hash ++ S_ " (no change)") :: l, res)
          else
            let '(l, res) := fetch_loop resolve rest updates (failed ++ [image_name]) in
            (pre ++ rlog ++ EPrint (S_ "Failed to get new hash for " ++ image_name) :: l, res)
      | PyOk None =>
          let '(l, res) := fetch_loop resolve rest updates (failed ++ [image_name]) in
          (pre ++ rlog ++ EPrint (S_ "Failed to get new hash for " ++ image_name) :: l, res)
      end
  end.

Definition failure_report (failed_images : list pystr) : list effect :=
  EPrint (S_ "Warning: Failed to update some images:")
  :: map (fun img => EPrint (S_ "  - " ++ img)) failed_images.

(** [main()] with [containerfile_path] taken from [sys.argv]: the effects
    and the exit status (an uncaught exception exits with status 1) *)
Definition main (extract_re : regex) (update_re : pystr -> regex)
  (resolve : pystr -> list effect * py (option pystr))
  (fs : fsys) (containerfile_path : pystr) : list effect * nat :=
  let start := [EPrint (S_ "Processing " ++ containerfile_path ++ S_ "...")] in
  match fs containerfile_path with
  | None => (start, 1)
  | Some content =>
      let images := extract_images extract_re content in
      let found := EPrint (S_ "Found some stagex images to update") in
      let '(l, r) := fetch_loop resolve images [] [] in
      match r with
      | PyRaise _ => (start ++ found :: l, 1)
      | PyOk (updates, failed_images) =>
          let '(ul, ures) :=
            match updates with
            | [] => ([EPrint (S_ "No updates needed.")], PyOk tt)
            | _ :: _ =>
                match update_containerfile update_re fs containerfile_path updates with
                | PyOk effs => (EPrint (S_ "Updating images") :: effs, PyOk tt)
                | PyRaise e => ([EPrint (S_ "Updating images")], PyRaise e)
                end
            end in
          match ures with
          | PyRaise _ => (start ++ found :: l ++ ul, 1)
          | PyOk _ =>
              match failed_images with
              | _ :: _ => (start ++ found :: l ++ ul ++ failure_report failed_images, 1)
              | [] => (start ++ found :: l ++ ul ++
                       [EPrint (S_ "All images processed successfully!")], 0)
              end
          end
      end
  end.

End Main.

(** ** Sample inputs *)
Definition hexrun (c : ascii) : pystr := repeat c 64.

Definition sample_file : pystr :=
  S_ "FROM stagex/a@sha256:" ++ hexrun "0"%char ++ S_ " AS a".

(** * Proofs *)


Example ex_extract1 :
  Arm.extract_stagex_images
    (S_ "# c" ++ [nl] ++ S_ "FROM stagex/core-busybox@sha256:" ++ hexrun "a"%char
     ++ S_ " AS busybox" ++ [nl] ++ S_ "FROM stagex/x:local AS y" ++ [nl])
  = [(S_ "core-busybox", hexrun "a"%char,
      S_ "FROM stagex/core-busybox@sha256:" ++ hexrun "a"%char ++ S_ " AS busybox")].
Proof. vm_compute. reflexivity. Qed.

Example ex_update1 :
  apply_updates X86.update_re [(S_ "foo", hexrun "b"%char)]
    (S_ "FROM ${STAGEX_REG}/foo@sha256:" ++ hexrun "a"%char ++ S_ " AS f" ++ [nl]
     ++ S_ "FROM ${STAGEX_REG}/foo-extra@sha256:" ++ hexrun "a"%char ++ S_ " AS g")
  = S_ "FROM ${STAGEX_REG}/foo@sha256:" ++ hexrun "b"%char ++ S_ " AS f" ++ [nl]
     ++ S_ "FROM ${STAGEX_REG}/foo-extra@sha256:" ++ hexrun "a"%char ++ S_ " AS g".
Proof. vm_compute. reflexivity. Qed.

Module FinderFacts.
Import Finder.

Definition m5_large : json :=
  JObj [(S_ "vcpu", JInt 2); (S_ "regions", JArr [JStr (S_ "us-east-1")]);
        (S_ "prices", JObj [(S_ "Linux", JObj [(S_ "us-east-1",
                              JObj [(S_ "Shared", JStr (S_ "0.096"))])])])].

Lemma filter_skips_other_vcpu (name : pystr) (kvs : list (pystr * json))
  (rest : list (pystr * json)) (n v : Z) :
  lookup (S_ "vcpu") kvs = Some (JInt v) -> v <> n ->
  filter_instances ((name, JObj kvs) :: rest) n None = filter_instances rest n None.
Proof.
  intros Hv Hne. cbn [filter_instances]. unfold get. rewrite Hv.
  cbn [eq_int negb].
  destruct (Z.eqb_spec v n); [contradiction|reflexivity].
Qed.

(** C9: on the example instance map of the spec, with any record for
    "m5.xlarge" whose vcpu is 4, [filter_instances] with cpu_count 2 and
    no allowed set returns exactly one entry, for "m5.large". *)
Theorem filter_example_m5_large (xlarge : list (pystr * json)) :
  lookup (S_ "vcpu") xlarge = Some (JInt 4) ->
  filter_instances [(S_ "m5.large", m5_large); (S_ "m5.xlarge", JObj xlarge)] 2 None
  = PyOk [(S_ "m5.large", m5_large, Dec 96 (-3))].
Proof.
  intros Hv.
  change (filter_instances [(S_ "m5.large", m5_large); (S_ "m5.xlarge", JObj xlarge)] 2 None)
    with (match filter_instances [(S_ "m5.xlarge", JObj xlarge)] 2 None with
          | PyOk tl => PyOk ((S_ "m5.large", m5_large, Dec 96 (-3)) :: tl)
          | PyRaise e => PyRaise e end).
  rewrite (filter_skips_other_vcpu _ _ _ 2 4 Hv) by lia. reflexivity.
Qed.

Lemma filter_example_m5_large_witness :
  lookup (S_ "vcpu") [(S_ "vcpu", JInt 4); (S_ "regions", JArr [])] = Some (JInt 4) /\
  filter_instances [(S_ "m5.large", m5_large);
                    (S_ "m5.xlarge", JObj [(S_ "vcpu", JInt 4); (S_ "regions", JArr [])])] 2 None
  = PyOk [(S_ "m5.large", m5_large, Dec 96 (-3))].
Proof. split; [reflexivity | apply filter_example_m5_large; reflexivity]. Defined.

End FinderFacts.

(** C10: the price lookup of the instance finder is meant to turn a record
    it cannot price into [None], but a record whose ["prices"] is JSON
    [null] makes [None.get(..)] raise [AttributeError], which the
    [except (KeyError, ValueError, TypeError)] does not catch, and
    [filter_instances] propagates it instead of skipping the instance. *)
Theorem linux_price_null_prices_raises :
  Finder.get_linux_price_us_east_1 (Finder.JObj [(S_ "prices", Finder.JNull)])
    = PyRaise AttributeError /\
  Finder.filter_instances
    [(S_ "m5.large", Finder.JObj [(S_ "vcpu", Finder.JInt 2); (S_ "prices", Finder.JNull)])]
    2 None = PyRaise AttributeError.
Proof. split; reflexivity. Qed.

(** C2: the resolvers can raise.  The registry variant only catches
    [CalledProcessError] and [JSONDecodeError]: a single-platform manifest
    (a JSON object, whose iteration yields its keys as strings) makes
    [entry.get] raise [AttributeError], and a missing [docker] binary
    raises [FileNotFoundError].  The package-index variant derives the URL
    outside its [try]: a name without a dash, such as ["busybox"], makes
    [kind, subpath = image_name.split("-", 1)] raise [ValueError]. *)
Theorem get_arm64_hash_raises :
  snd (Resolver.arm_get_arm64_hash (S_ "core-busybox")
         (Resolver.DockerOutput (Some (Finder.JObj
            [(S_ "Ref", Finder.JStr (S_ "ghcr.io/x@sha256:00"));
             (S_ "Descriptor", Finder.JObj [])])))) = PyRaise AttributeError /\
  snd (Resolver.arm_get_arm64_hash (S_ "core-busybox") Resolver.DockerMissing)
    = PyRaise FileNotFoundError /\
  (forall page, snd (Resolver.x86_get_arm64_hash (S_ "busybox") page) = PyRaise ValueError).
Proof. split; [reflexivity | split; [reflexivity | intros page; reflexivity]]. Qed.


(** ** Soundness of the matcher: what a successful match consumed *)
Module MatchFacts.

Fixpoint lang (r : regex) (w : pystr) : Prop :=
  match r with
  | RLit c => w = [c]
  | RSet p => exists c, w = [c] /\ p c = true
  | RPlus p => w <> [] /\ Forall (fun c => p c = true) w
  | RRep n p => List.length w = n /\ Forall (fun c => p c = true) w
  | ROpt r1 => w = [] \/ lang r1 w
  | RAlt r1 r2 => lang r1 w \/ lang r2 w
  | RSeq r1 r2 => exists a b, w = a ++ b /\ lang r1 a /\ lang r2 b
  | RGroup _ r1 => lang r1 w
  | REmp => w = []
  | REol => w = []
  end.

(** [v] is a string the group [g] of [r] can capture *)
Fixpoint group_in (r : regex) (g : nat) (v : pystr) : Prop :=
  match r with
  | RGroup g' r1 => (g = g' /\ lang r1 v) \/ group_in r1 g v
  | ROpt r1 => group_in r1 g v
  | RAlt r1 r2 | RSeq r1 r2 => group_in r1 g v \/ group_in r2 g v
  | _ => False
  end.

Lemma try_down_some n k x :
  try_down n k = Some x -> exists j, 1 <= j <= n /\ k j = Some x.
Proof.
  induction n as [|n IH]; simpl; [discriminate|].
  destruct (k (S n)) eqn:E.
  - intros H; inversion H; subst. exists (S n). split; [lia|exact E].
  - intros H. destruct (IH H) as (j & Hj & Hk). exists j. split; [lia|exact Hk].
Qed.

Lemma run_len_prefix p s j :
  j <= run_len p s -> Forall (fun c => p c = true) (firstn j s) /\ j <= List.length s.
Proof.
  revert j; induction s as [|c s IH]; intros j Hj; simpl in *.
  - assert (j = 0) by lia; subst. simpl. split; [constructor|lia].
  - destruct (p c) eqn:Ep; [|assert (j = 0) by lia; subst; simpl; split; [constructor|lia]].
    destruct j as [|j]; simpl; [split; [constructor|lia]|].
    destruct (IH j ltac:(lia)) as [H1 H2]. split; [constructor; auto|lia].
Qed.

Lemma firstn_app_diff (pre s' : pystr) :
  firstn (List.length (pre ++ s') - List.length s') (pre ++ s') = pre.
Proof.
  rewrite length_app. replace (List.length pre + List.length s' - List.length s')
    with (List.length pre) by lia.
  rewrite firstn_app, firstn_all, Nat.sub_diag. simpl. apply app_nil_r.
Qed.

Theorem mt_sound (r : regex) :
  forall s cs k x, mt r s cs k = Some x ->
  exists pre s' cs', s = pre ++ s' /\ k cs' s' = Some x /\ lang r pre /\
    (forall g v, In (g, v) cs' -> In (g, v) cs \/ group_in r g v).
Proof.
  induction r as [c|p|p|n p|r1 IH|r1 IH1 r2 IH2|r1 IH1 r2 IH2|g r1 IH| |];
    intros s cs k x H; simpl in H.
  - destruct s as [|y s]; [discriminate|].
    destruct (Ascii.eqb y c) eqn:E; [|discriminate]. apply Ascii.eqb_eq in E; subst.
    exists [c], s, cs. simpl. auto.
  - destruct s as [|y s]; [discriminate|].
    destruct (p y) eqn:E; [|discriminate].
    exists [y], s, cs. simpl. split; [reflexivity|]. split; [exact H|].
    split; [eauto|auto].
  - destruct (try_down_some _ _ _ H) as (j & Hj & Hk).
    destruct (run_len_prefix p s j ltac:(lia)) as [Hf Hl].
    exists (firstn j s), (skipn j s), cs. split; [symmetry; apply firstn_skipn|].
    split; [exact Hk|]. split; [|auto]. split; [|exact Hf].
    intros Hn. apply (f_equal (@List.length ascii)) in Hn.
    rewrite length_firstn in Hn. simpl in Hn. lia.
  - destruct (n <=? run_len p s) eqn:E; [|discriminate]. apply Nat.leb_le in E.
    destruct (run_len_prefix p s n E) as [Hf Hl].
    exists (firstn n s), (skipn n s), cs. split; [symmetry; apply firstn_skipn|].
    split; [exact H|]. split; [|auto]. split; [|exact Hf].
    rewrite length_firstn. lia.
  - destruct (mt r1 s cs k) eqn:E.
    + inversion H; subst. destruct (IH _ _ _ _ E) as (pre & s' & cs' & ? & ? & ? & Hc).
      exists pre, s', cs'. simpl. auto.
    + exists [], s, cs. simpl. auto.
  - destruct (mt r1 s cs k) eqn:E.
    + inversion H; subst. destruct (IH1 _ _ _ _ E) as (pre & s' & cs' & ? & ? & ? & Hc).
      exists pre, s', cs'. simpl. split; [auto|]. split; [auto|]. split; [auto|].
      intros g v Hin. destruct (Hc g v Hin); auto.
    + destruct (IH2 _ _ _ _ H) as (pre & s' & cs' & ? & ? & ? & Hc).
      exists pre, s', cs'. simpl. split; [auto|]. split; [auto|]. split; [auto|].
      intros g v Hin. destruct (Hc g v Hin); auto.
  - destruct (IH1 _ _ _ _ H) as (pre1 & s1 & cs1 & Hs1 & Hk1 & Hl1 & Hc1).
    destruct (IH2 _ _ _ _ Hk1) as (pre2 & s2 & cs2 & Hs2 & Hk2 & Hl2 & Hc2).
    exists (pre1 ++ pre2), s2, cs2. subst. simpl. split; [apply app_assoc|].
    split; [exact Hk2|]. split; [eauto|].
    intros g v Hin. destruct (Hc2 g v Hin) as [H'|H']; [|auto].
    destruct (Hc1 g v H'); auto.
  - destruct (IH _ _ _ _ H) as (pre & s' & cs' & Hs & Hk & Hl & Hc).
    subst s. rewrite firstn_app_diff in Hk.
    exists pre, s', ((g, pre) :: cs'). split; [reflexivity|]. split; [exact Hk|].
    split; [exact Hl|]. intros g' v [Hin|Hin].
    + inversion Hin; subst. right. left. auto.
    + destruct (Hc g' v Hin); simpl; auto.
  - exists [], s, cs. simpl. auto.
  - exists [], s, cs. simpl. split; [reflexivity|]. split; [|split; [reflexivity|auto]].
    destruct s as [|c [|d s]]; [exact H| |discriminate].
    destruct (Ascii.eqb c nl); [exact H|discriminate].
Qed.

Lemma group_found (g : nat) (cs : caps) (v : pystr) :
  group g cs = v -> v <> [] -> In (g, v) cs.
Proof.
  induction cs as [|[g' w] cs IH]; simpl; [congruence|].
  destruct (Nat.eqb_spec g' g); intros H Hne; [subst; auto|right; auto].
Qed.

(** what [re.match] returns: the consumed prefix is in the language and
    every captured group is one the pattern can capture *)
Lemma re_match_sound (r : regex) (s : pystr) cs rest :
  re_match r s = Some (cs, rest) ->
  exists pre, s = pre ++ rest /\ lang r pre /\
    (forall g v, In (g, v) cs -> group_in r g v).
Proof.
  unfold re_match. intros H.
  destruct (mt_sound _ _ _ _ _ H) as (pre & s' & cs' & Hs & Hk & Hl & Hc).
  inversion Hk; subst. exists pre. split; [auto|]. split; [auto|].
  intros g v Hin. destruct (Hc g v Hin) as [[]|?]; auto.
Qed.

End MatchFacts.

Lemma str_eqb_eq (a b : pystr) : str_eqb a b = true <-> a = b.
Proof.
  revert b; induction a as [|x a IH]; intros [|y b]; simpl; try (split; congruence).
  rewrite andb_true_iff, IH, Ascii.eqb_eq. split; [intros [-> ->]; reflexivity|].
  intros H; inversion H; auto.
Qed.

Lemma str_eqb_refl (a : pystr) : str_eqb a a = true.
Proof. apply str_eqb_eq; reflexivity. Qed.




Module MainFacts.
Import Main.















End MainFacts.

Module ExtractFacts.
Import MatchFacts.

Lemma extract_line_some (re : regex) (raw : pystr) (e : entry) :
  extract_line re raw = Some e ->
  exists cs rest, re_match re (strip raw) = Some (cs, rest) /\
    startswith (group 2 cs) (S_ "sha256:") = true /\
    str_eqb (group 2 cs) (S_ "local") = false /\
    e = (group 1 cs, skipn 7 (group 2 cs), strip raw).
Proof.
  unfold extract_line. destruct (_ || _); [discriminate|].
  destruct (re_match re (strip raw)) as [[cs rest]|]; [|discriminate].
  destruct (str_eqb (group 2 cs) (S_ "local")) eqn:El; [discriminate|].
  destruct (startswith (group 2 cs) (S_ "sha256:")) eqn:Es; [|discriminate].
  intros H; inversion H; subst. eauto 6.
Qed.

Lemma in_extract_images (re : regex) (text : pystr) (e : entry) :
  In e (extract_images re text) <->
  exists raw, In raw (readlines text) /\ extract_line re raw = Some e.
Proof.
  unfold extract_images. rewrite in_flat_map. split.
  - intros (raw & Hr & Hin). exists raw. split; [exact Hr|].
    destruct (extract_line re raw); [|destruct Hin]. destruct Hin as [->|[]]; reflexivity.
  - intros (raw & Hr & He). exists raw. rewrite He. simpl. auto.
Qed.

(** the characters the reference group [([^@\s]+)] can hold *)
Definition ref_char (c : ascii) : Prop := Ascii.eqb c "@"%char = false /\ is_space c = false.

Lemma group2_arm (v : pystr) : group_in Arm.extract_re 2 v -> Forall ref_char v.
Proof.
  simpl. intros H. repeat match goal with
  | H : _ \/ _ |- _ => destruct H as [H|H]
  | H : False |- _ => destruct H
  | H : _ /\ _ |- _ => destruct H as [? H]
  end; try discriminate.
  eapply Forall_impl; [|exact H].
  intros c Hc. apply andb_true_iff in Hc. destruct Hc as [Hc1 Hc2].
  unfold not_class, not_in in Hc1. simpl in Hc1. split.
  - destruct (Ascii.eqb c "@"%char); [discriminate|reflexivity].
  - destruct (is_space c); [discriminate|reflexivity].
Qed.

Lemma group2_x86 (v : pystr) : group_in X86.extract_re 2 v -> Forall ref_char v.
Proof.
  simpl. intros H. repeat match goal with
  | H : _ \/ _ |- _ => destruct H as [H|H]
  | H : False |- _ => destruct H
  | H : _ /\ _ |- _ => destruct H as [? H]
  end; try discriminate.
  eapply Forall_impl; [|exact H].
  intros c Hc. apply andb_true_iff in Hc. destruct Hc as [Hc1 Hc2].
  unfold not_class, not_in in Hc1. simpl in Hc1. split.
  - destruct (Ascii.eqb c "@"%char); [discriminate|reflexivity].
  - destruct (is_space c); [discriminate|reflexivity].
Qed.

Lemma startswith_nonempty (s w : pystr) : startswith s w = true -> w <> [] -> s <> [].
Proof. destruct w, s; simpl; congruence. Qed.

Lemma extract_digest_chars (re : regex) (text : pystr) (e : entry) :
  (forall v, group_in re 2 v -> Forall ref_char v) ->
  In e (extract_images re text) -> Forall ref_char (snd (fst e)).
Proof.
  intros Hg Hin. apply in_extract_images in Hin. destruct Hin as (raw & _ & He).
  destruct (extract_line_some _ _ _ He) as (cs & rest & Hm & Hs & _ & ->). simpl.
  destruct (re_match_sound _ _ _ _ Hm) as (pre & _ & _ & Hc).
  assert (Hne : group 2 cs <> []) by (eapply startswith_nonempty; [exact Hs|discriminate]).
  pose proof (Hc 2 (group 2 cs) (group_found 2 cs _ eq_refl Hne)) as Hgi.
  specialize (Hg _ Hgi). rewrite Forall_forall in Hg |- *.
  intros c Hc'. apply Hg. rewrite <- (firstn_skipn 7 (group 2 cs)). apply in_or_app. right. exact Hc'.
Qed.

(** C3 counterexample: a digest that is not 64 hexadecimal characters is
    extracted as it is. *)
Lemma extract_short_digest :
  Arm.extract_stagex_images (S_ "FROM stagex/foo@sha256:xyz AS a")
    = [(S_ "foo", S_ "xyz", S_ "FROM stagex/foo@sha256:xyz AS a")] /\
  List.length (S_ "xyz") <> 64.
Proof. split; [vm_compute; reflexivity | simpl; lia]. Qed.

End ExtractFacts.

(** ** The matcher, exactly: which decompositions and captures it can
    return, and that it finds one whenever one exists *)
Module MatchRel.
Import MatchFacts.

(** [mrel r w s cs cs']: [r] can consume [w] when [s] follows, turning the
    captures [cs] into [cs'] *)
Fixpoint mrel (r : regex) (w s : pystr) (cs cs' : caps) : Prop :=
  match r with
  | RGroup g r1 => exists cs1, mrel r1 w s cs cs1 /\ cs' = (g, w) :: cs1
  | RSeq r1 r2 => exists w1 w2 cs1, w = w1 ++ w2 /\ mrel r1 w1 (w2 ++ s) cs cs1 /\
                    mrel r2 w2 s cs1 cs'
  | ROpt r1 => mrel r1 w s cs cs' \/ (w = [] /\ cs' = cs)
  | RAlt r1 r2 => mrel r1 w s cs cs' \/ mrel r2 w s cs cs'
  | REol => w = [] /\ cs' = cs /\ (s = [] \/ s = [nl])
  | _ => cs' = cs /\ lang r w
  end.

Lemma try_down_ok n f j y :
  1 <= j <= n -> f j = Some y -> exists x, try_down n f = Some x.
Proof.
  induction n as [|n IH]; intros Hj Hf; [lia|]. simpl.
  destruct (f (S n)) as [x|] eqn:E; [eauto|].
  apply IH; [|exact Hf]. assert (j <> S n) by congruence. lia.
Qed.

Lemma run_len_app p w s :
  Forall (fun c => p c = true) w -> List.length w <= run_len p (w ++ s).
Proof.
  induction 1 as [|c w Hc _ IH]; simpl; [lia|]. rewrite Hc. lia.
Qed.

Lemma skipn_length_app (w s : pystr) : skipn (List.length w) (w ++ s) = s.
Proof. induction w; simpl; auto. Qed.

Theorem mt_sound_rel (r : regex) :
  forall s cs k x, mt r s cs k = Some x ->
  exists pre s' cs', s = pre ++ s' /\ k cs' s' = Some x /\ mrel r pre s' cs cs'.
Proof.
  induction r as [c|p|p|n p|r1 IH|r1 IH1 r2 IH2|r1 IH1 r2 IH2|g r1 IH| |];
    intros s cs k x H; simpl in H.
  - destruct s as [|y s]; [discriminate|].
    destruct (Ascii.eqb y c) eqn:E; [|discriminate]. apply Ascii.eqb_eq in E; subst.
    exists [c], s, cs. simpl. auto.
  - destruct s as [|y s]; [discriminate|].
    destruct (p y) eqn:E; [|discriminate].
    exists [y], s, cs. simpl. split; [reflexivity|]. split; [exact H|]. eauto.
  - destruct (try_down_some _ _ _ H) as (j & Hj & Hk).
    destruct (run_len_prefix p s j ltac:(lia)) as [Hf Hl].
    exists (firstn j s), (skipn j s), cs. split; [symmetry; apply firstn_skipn|].
    split; [exact Hk|]. simpl. split; [reflexivity|]. split; [|exact Hf].
    intros Hn. apply (f_equal (@List.length ascii)) in Hn.
    rewrite length_firstn in Hn. simpl in Hn. lia.
  - destruct (n <=? run_len p s) eqn:E; [|discriminate]. apply Nat.leb_le in E.
    destruct (run_len_prefix p s n E) as [Hf Hl].
    exists (firstn n s), (skipn n s), cs. split; [symmetry; apply firstn_skipn|].
    split; [exact H|]. simpl. split; [reflexivity|]. split; [|exact Hf].
    rewrite length_firstn. lia.
  - destruct (mt r1 s cs k) eqn:E.
    + inversion H; subst. destruct (IH _ _ _ _ E) as (pre & s' & cs' & ? & ? & ?).
      exists pre, s', cs'. simpl. auto.
    + exists [], s, cs. simpl. auto.
  - destruct (mt r1 s cs k) eqn:E.
    + inversion H; subst. destruct (IH1 _ _ _ _ E) as (pre & s' & cs' & ? & ? & ?).
      exists pre, s', cs'. simpl. auto.
    + destruct (IH2 _ _ _ _ H) as (pre & s' & cs' & ? & ? & ?).
      exists pre, s', cs'. simpl. auto.
  - destruct (IH1 _ _ _ _ H) as (pre1 & s1 & cs1 & Hs1 & Hk1 & Hl1).
    destruct (IH2 _ _ _ _ Hk1) as (pre2 & s2 & cs2 & Hs2 & Hk2 & Hl2).
    exists (pre1 ++ pre2), s2, cs2. subst. split; [apply app_assoc|].
    split; [exact Hk2|]. simpl. exists pre1, pre2, cs1. auto.
  - destruct (IH _ _ _ _ H) as (pre & s' & cs' & Hs & Hk & Hl).
    subst s. rewrite firstn_app_diff in Hk.
    exists pre, s', ((g, pre) :: cs'). split; [reflexivity|]. split; [exact Hk|].
    simpl. eauto.
  - exists [], s, cs. simpl. auto.
  - exists [], s, cs. simpl. split; [reflexivity|]. split; [|split; [reflexivity|split; [reflexivity|]]].
    + destruct s as [|c [|d s]]; [exact H| |discriminate].
      destruct (Ascii.eqb c nl); [exact H|discriminate].
    + destruct s as [|c [|d s]]; [auto| |discriminate].
      destruct (Ascii.eqb c nl) eqn:E; [|discriminate].
      apply Ascii.eqb_eq in E; subst; auto.
Qed.

Theorem mt_complete (r : regex) :
  forall pre s' cs cs' k y, mrel r pre s' cs cs' -> k cs' s' = Some y ->
  exists x, mt r (pre ++ s') cs k = Some x.
Proof.
  induction r as [c|p|p|n p|r1 IH|r1 IH1 r2 IH2|r1 IH1 r2 IH2|g r1 IH| |];
    intros pre s' cs cs' k y Hm Hk; simpl in Hm |- *.
  - destruct Hm as [-> ->]. simpl. rewrite Ascii.eqb_refl. eauto.
  - destruct Hm as [-> (c & -> & Hc)]. simpl. rewrite Hc. eauto.
  - destruct Hm as [-> [Hne Hf]].
    apply (try_down_ok _ _ (List.length pre) y).
    + split; [destruct pre; [congruence|simpl; lia]|]. apply run_len_app; exact Hf.
    + rewrite skipn_length_app. exact Hk.
  - destruct Hm as [-> [Hl Hf]]. subst n.
    rewrite (proj2 (Nat.leb_le _ _) (run_len_app p pre s' Hf)).
    rewrite skipn_length_app. eauto.
  - destruct Hm as [Hm|[-> ->]].
    + destruct (IH _ _ _ _ _ _ Hm Hk) as [x Hx]. rewrite Hx. eauto.
    + simpl. destruct (mt r1 s' cs k); eauto.
  - destruct Hm as [Hm|Hm].
    + destruct (IH1 _ _ _ _ _ _ Hm Hk) as [x Hx]. rewrite Hx. eauto.
    + destruct (mt r1 (pre ++ s') cs k); [eauto|]. exact (IH2 _ _ _ _ _ _ Hm Hk).
  - destruct Hm as (w1 & w2 & cs1 & -> & Hm1 & Hm2).
    destruct (IH2 _ _ _ _ _ _ Hm2 Hk) as [x2 Hx2].
    rewrite <- app_assoc.
    exact (IH1 _ _ _ _ (fun cs0 s0 => mt r2 s0 cs0 k) _ Hm1 Hx2).
  - destruct Hm as (cs1 & Hm & ->).
    apply (IH _ _ _ _ _ y Hm). rewrite firstn_app_diff. exact Hk.
  - destruct Hm as [-> ->]. simpl. eauto.
  - destruct Hm as (-> & -> & [->| ->]); simpl; eauto.
Qed.

End MatchRel.

(** ** Which lines the extractor accepts *)
Module LineFacts.
Import MatchFacts MatchRel.

Lemma mrel_lits (w : pystr) (r : regex) pre s cs cs' :
  mrel (lits w r) pre s cs cs' <-> exists pre', pre = w ++ pre' /\ mrel r pre' s cs cs'.
Proof.
  revert pre; induction w as [|c w IH]; intros pre; simpl.
  - split; [eauto|intros (pre' & -> & H); exact H].
  - split.
    + intros (w1 & w2 & cs1 & -> & [-> ->] & H). apply IH in H.
      destruct H as (pre' & -> & H). exists pre'. auto.
    + intros (pre' & -> & H). exists [c], (w ++ pre'), cs. split; [reflexivity|].
      split; [auto|]. apply IH. eauto.
Qed.

Lemma lstrip_head (s : pystr) c u : lstrip s = c :: u -> is_space c = false.
Proof.
  induction s as [|d s IH]; simpl; [discriminate|].
  destruct (is_space d) eqn:E; [exact IH|]. intros H; inversion H; subst; exact E.
Qed.

Lemma strip_no_trailing_nl (raw x : pystr) : strip raw <> x ++ [nl].
Proof.
  unfold strip. destruct (lstrip (rev (lstrip raw))) as [|c u] eqn:E; simpl.
  - destruct x; discriminate.
  - intros H. apply app_inj_tail in H. destruct H as [_ ->].
    apply lstrip_head in E. discriminate.
Qed.

(** a run of [p] characters ends where the first non-[p] character is *)
Lemma span_unique (p : ascii -> bool) (a a' b b' : pystr) (x x' : ascii) :
  Forall (fun c => p c = true) a -> Forall (fun c => p c = true) a' ->
  p x = false -> p x' = false -> a ++ x :: b = a' ++ x' :: b' ->
  a = a' /\ x = x' /\ b = b'.
Proof.
  intros Ha; revert a' b b'; induction Ha as [|c a Hc Ha IH];
    intros a' b b' Ha' Hx Hx' H; destruct Ha' as [|c' a' Hc' Ha']; simpl in H.
  - inversion H; auto.
  - inversion H; subst; congruence.
  - inversion H; subst; congruence.
  - injection H as -> H. destruct (IH _ _ _ Ha' Hx Hx' H) as (-> & -> & ->). auto.
Qed.

Definition ref_class (c : ascii) : bool := not_class (S_ "@") c && negb (is_space c).
Definition alias_class (c : ascii) : bool := negb (Ascii.eqb c nl).
Definition plus_ok (p : ascii -> bool) (w : pystr) : Prop :=
  w <> [] /\ Forall (fun c => p c = true) w.

(** [N s R<ws>AS<ws>A]: the part of a declaration after the registry prefix *)
Definition decl_tail (t n : pystr) (sep : ascii) (ref : pystr) (alias : pystr) : Prop :=
  exists w1 w2, t = n ++ sep :: ref ++ w1 ++ S_ "AS" ++ w2 ++ alias /\
    plus_ok (not_class (S_ "@:")) n /\ not_class (S_ "@:") sep = false /\
    plus_ok ref_class ref /\ plus_ok is_space w1 /\ plus_ok is_space w2 /\
    plus_ok alias_class alias.

Lemma mrel_tail pre s cs cs' :
  mrel extract_tail pre s cs cs' <->
  exists n sep ref alias, decl_tail pre n sep ref alias /\ (s = [] \/ s = [nl]) /\
    cs' = (3, alias) :: (2, ref) :: (1, n) :: cs.
Proof.
  unfold extract_tail, decl_tail, plus_ok, ws_plus, dot_plus. simpl. split.
  - intros H. repeat match goal with
    | H : exists _, _ |- _ => destruct H
    | H : _ /\ _ |- _ => destruct H
    end. subst.
    match goal with H : negb _ = true |- _ => apply negb_true_iff in H end.
    do 4 eexists. split; [|split; [eassumption|reflexivity]].
    do 2 eexists. split; [simpl; rewrite !app_nil_r; reflexivity|].
    unfold ref_class, alias_class. repeat split; assumption.
  - intros (n & sep & ref & alias & (w1 & w2 & -> & [Hn1 Hn2] & Hsep & [Hr1 Hr2] &
      [Hw1 Hw1'] & [Hw2 Hw2'] & [Ha1 Ha2]) & Hs & ->).
    unfold ref_class, alias_class in *.
    exists n, (sep :: ref ++ w1 ++ S_ "AS" ++ w2 ++ alias), ((1, n) :: cs).
    split; [reflexivity|]. split; [exists cs; auto|].
    exists [sep], (ref ++ w1 ++ S_ "AS" ++ w2 ++ alias), ((1, n) :: cs).
    split; [reflexivity|].
    split; [split; [reflexivity|exists sep; split; [reflexivity|rewrite Hsep; reflexivity]]|].
    exists ref, (w1 ++ S_ "AS" ++ w2 ++ alias), ((2, ref) :: (1, n) :: cs).
    split; [reflexivity|]. split; [exists ((1, n) :: cs); auto|].
    exists w1, (S_ "AS" ++ w2 ++ alias), ((2, ref) :: (1, n) :: cs).
    split; [reflexivity|]. split; [auto|].
    exists ["A"%char], (S_ "S" ++ w2 ++ alias), ((2, ref) :: (1, n) :: cs).
    split; [reflexivity|]. split; [auto|].
    exists ["S"%char], (w2 ++ alias), ((2, ref) :: (1, n) :: cs).
    split; [reflexivity|]. split; [auto|].
    exists w2, alias, ((2, ref) :: (1, n) :: cs).
    split; [reflexivity|]. split; [auto|].
    exists alias, [], ((3, alias) :: (2, ref) :: (1, n) :: cs).
    split; [symmetry; apply app_nil_r|].
    split; [exists ((2, ref) :: (1, n) :: cs); auto|].
    auto.
Qed.

Lemma decl_tail_unique t n sep ref alias n' sep' ref' alias' :
  decl_tail t n sep ref alias -> decl_tail t n' sep' ref' alias' ->
  n = n' /\ ref = ref'.
Proof.
  intros (w1 & w2 & -> & [_ Hn] & Hs & [_ Hr] & [Hw1 Hw1'] & _)
         (w1' & w2' & E & [_ Hn'] & Hs' & [_ Hr'] & [Hw1b Hw1b'] & _).
  destruct (span_unique _ _ _ _ _ _ _ Hn Hn' Hs Hs' E) as (-> & -> & E2).
  split; [reflexivity|].
  destruct w1 as [|x w1]; [congruence|]. destruct w1' as [|x' w1']; [congruence|].
  inversion Hw1'; inversion Hw1b'; subst.
  assert (Hx : ref_class x = false) by (unfold ref_class; rewrite H1; apply andb_false_r).
  assert (Hx' : ref_class x' = false) by (unfold ref_class; rewrite H5; apply andb_false_r).
  simpl in E2. destruct (span_unique _ _ _ _ _ _ _ Hr Hr' Hx Hx' E2) as (-> & _). reflexivity.
Qed.

Lemma mrel_arm pre s cs cs' :
  mrel Arm.extract_re pre s cs cs' <->
  exists w0 t n sep ref alias, pre = S_ "FROM" ++ w0 ++ S_ "stagex/" ++ t /\
    plus_ok is_space w0 /\ decl_tail t n sep ref alias /\ (s = [] \/ s = [nl]) /\
    cs' = (3, alias) :: (2, ref) :: (1, n) :: cs.
Proof.
  unfold Arm.extract_re. rewrite mrel_lits. cbn [mrel ws_plus]. split.
  - intros (pre' & -> & w0 & w2 & cs1 & -> & [-> Hw] & H).
    apply mrel_lits in H. destruct H as (t & -> & H). apply mrel_tail in H.
    destruct H as (n & sep & ref & alias & Hd & Hs & ->).
    exists w0, t, n, sep, ref, alias. auto.
  - intros (w0 & t & n & sep & ref & alias & -> & Hw & Hd & Hs & ->).
    exists (w0 ++ S_ "stagex/" ++ t). split; [reflexivity|].
    exists w0, (S_ "stagex/" ++ t), cs. split; [reflexivity|]. split; [auto|].
    apply mrel_lits. exists t. split; [reflexivity|]. apply mrel_tail. eauto 7.
Qed.

Lemma startswith_app (s w : pystr) :
  startswith s w = true -> s = w ++ skipn (List.length w) s.
Proof.
  revert s; induction w as [|c w IH]; intros [|x s]; simpl; try discriminate; auto.
  intros H. apply andb_true_iff in H. destruct H as [Hc H].
  apply Ascii.eqb_eq in Hc. subst. f_equal. auto.
Qed.

Lemma startswith_self (w s : pystr) : startswith (w ++ s) w = true.
Proof.
  induction w as [|a w IH]; [destruct s; reflexivity|].
  simpl. rewrite Ascii.eqb_refl, IH. reflexivity.
Qed.

Lemma skipn_app_length (w s : pystr) : skipn (List.length w) (w ++ s) = s.
Proof. induction w; simpl; auto. Qed.

(** [FROM<ws>stagex/N s sha256:D<ws>AS<ws>A], the lines [tee/update_stagex_hashes.py]
    recognises *)
Definition arm_decl (line n d : pystr) : Prop :=
  exists w0 t sep alias, line = S_ "FROM" ++ w0 ++ S_ "stagex/" ++ t /\
    plus_ok is_space w0 /\ decl_tail t n sep (S_ "sha256:" ++ d) alias.

Lemma arm_match_shape (line : pystr) cs rest :
  mt Arm.extract_re (strip line) [] (fun cs s => Some (cs, s)) = Some (cs, rest) ->
  exists w0 t n sep ref alias, strip line = S_ "FROM" ++ w0 ++ S_ "stagex/" ++ t /\
    plus_ok is_space w0 /\ decl_tail t n sep ref alias /\
    cs = [(3, alias); (2, ref); (1, n)].
Proof.
  intros Hm. destruct (mt_sound_rel _ _ _ _ _ Hm) as (pre & s' & cs' & Hl & Hk & Hr).
  simpl in Hk. injection Hk as <- <-.
  apply mrel_arm in Hr. destruct Hr as (w0 & t & n & sep & ref & alias & -> & Hw & Hd & Hs & ->).
  destruct Hs as [-> | ->]; [|exfalso; exact (strip_no_trailing_nl _ _ Hl)].
  rewrite app_nil_r in Hl. exists w0, t, n, sep, ref, alias. auto.
Qed.

Lemma arm_extract_line (raw : pystr) (e : entry) :
  extract_line Arm.extract_re raw = Some e <->
  exists n d, arm_decl (strip raw) n d /\ e = (n, d, strip raw).
Proof.
  split.
  - intros H. destruct (ExtractFacts.extract_line_some _ _ _ H) as (cs & rest & Hm & Hs & _ & ->).
    destruct (arm_match_shape _ _ _ Hm) as (w0 & t & n & sep & ref & alias & Hl & Hw & Hd & ->).
    simpl in Hs |- *. exists n, (skipn 7 ref). split; [|reflexivity].
    exists w0, t, sep, alias. split; [exact Hl|]. split; [exact Hw|].
    replace (S_ "sha256:" ++ skipn 7 ref) with ref; [exact Hd|].
    exact (startswith_app _ _ Hs).
  - intros (n & d & (w0 & t & sep & alias & Hl & Hw & Hd) & ->).
    assert (Hm : mrel Arm.extract_re (strip raw) [] [] [(3, alias); (2, S_ "sha256:" ++ d); (1, n)]).
    { apply mrel_arm. exists w0, t, n, sep, (S_ "sha256:" ++ d), alias.
      split; [exact Hl|split; [exact Hw|split; [exact Hd|split; [left; reflexivity|reflexivity]]]]. }
    destruct (mt_complete _ _ _ _ _ (fun cs s => Some (cs, s)) _ Hm eq_refl) as [[cs rest] Hx].
    rewrite app_nil_r in Hx.
    destruct (arm_match_shape _ _ _ Hx) as (w0' & t' & n' & sep' & ref' & alias' & Hl' & Hw' & Hd' & ->).
    rewrite Hl in Hl'. apply app_inv_head in Hl'.
    change (S_ "stagex/" ++ t) with ("s"%char :: (S_ "tagex/" ++ t)) in Hl'.
    change (S_ "stagex/" ++ t') with ("s"%char :: (S_ "tagex/" ++ t')) in Hl'.
    destruct (span_unique is_space _ _ _ _ "s"%char "s"%char (proj2 Hw) (proj2 Hw') eq_refl eq_refl Hl')
      as (_ & _ & Ht). apply app_inv_head in Ht. subst t'.
    destruct (decl_tail_unique _ _ _ _ _ _ _ _ _ Hd Hd') as [<- <-].
    assert (H1 : startswith (strip raw) (S_ "#") || str_eqb (strip raw) [] = false)
      by (rewrite Hl; reflexivity).
    unfold extract_line. cbv zeta. rewrite H1. unfold re_match. rewrite Hx.
    cbn [group Nat.eqb]. rewrite startswith_self. simpl. reflexivity.
Qed.

(** [(?:\$\{STAGEX_REG\}/|[^/]+/)?] *)
Definition x86_prefix (p : pystr) : Prop :=
  p = [] \/ p = S_ "${STAGEX_REG}/" \/
  exists seg, p = seg ++ S_ "/" /\ plus_ok (not_class (S_ "/")) seg.

Lemma mrel_prefix p s cs cs' :
  mrel X86.reg_prefix p s cs cs' <-> cs' = cs /\ x86_prefix p.
Proof.
  unfold X86.reg_prefix, x86_prefix. cbn [mrel]. rewrite mrel_lits. cbn [mrel lang]. split.
  - intros [[(p' & -> & -> & ->)|(w1 & w2 & cs1 & -> & [-> Hs] & -> & ->)]|[-> ->]].
    + rewrite app_nil_r. auto.
    + split; [reflexivity|]. right. right. eauto.
    + auto.
  - intros [-> [->|[->|(seg & -> & Hs)]]].
    + right. auto.
    + left. left. exists []. rewrite app_nil_r. auto.
    + left. right. exists seg, (S_ "/"), cs. auto.
Qed.

Lemma mrel_x86 pre s cs cs' :
  mrel X86.extract_re pre s cs cs' <->
  exists w0 P t n sep ref alias, pre = S_ "FROM" ++ w0 ++ P ++ t /\
    plus_ok is_space w0 /\ x86_prefix P /\ decl_tail t n sep ref alias /\
    (s = [] \/ s = [nl]) /\ cs' = (3, alias) :: (2, ref) :: (1, n) :: cs.
Proof.
  unfold X86.extract_re. rewrite mrel_lits. cbn [mrel ws_plus]. split.
  - intros (pre' & -> & w0 & w2 & cs1 & -> & [-> Hw] & P & t & cs2 & -> & Hp & H).
    apply mrel_prefix in Hp. destruct Hp as [-> Hp]. apply mrel_tail in H.
    destruct H as (n & sep & ref & alias & Hd & Hs & ->).
    exists w0, P, t, n, sep, ref, alias. auto 7.
  - intros (w0 & P & t & n & sep & ref & alias & -> & Hw & Hp & Hd & Hs & ->).
    exists (w0 ++ P ++ t). split; [reflexivity|].
    exists w0, (P ++ t), cs. split; [reflexivity|]. split; [auto|].
    exists P, t, cs. split; [reflexivity|]. split; [apply mrel_prefix; auto|].
    apply mrel_tail. eauto 7.
Qed.

Lemma x86_match_shape (line : pystr) cs rest :
  mt X86.extract_re (strip line) [] (fun cs s => Some (cs, s)) = Some (cs, rest) ->
  exists w0 P t n sep ref alias, strip line = S_ "FROM" ++ w0 ++ P ++ t /\
    plus_ok is_space w0 /\ x86_prefix P /\ decl_tail t n sep ref alias /\
    cs = [(3, alias); (2, ref); (1, n)].
Proof.
  intros Hm. destruct (mt_sound_rel _ _ _ _ _ Hm) as (pre & s' & cs' & Hl & Hk & Hr).
  simpl in Hk. injection Hk as <- <-.
  apply mrel_x86 in Hr.
  destruct Hr as (w0 & P & t & n & sep & ref & alias & -> & Hw & Hp & Hd & Hs & ->).
  destruct Hs as [-> | ->]; [|exfalso; exact (strip_no_trailing_nl _ _ Hl)].
  rewrite app_nil_r in Hl. exists w0, P, t, n, sep, ref, alias. auto 6.
Qed.

Lemma extract_line_of_match (re : regex) (raw n d alias rest : pystr) :
  startswith (strip raw) (S_ "#") || str_eqb (strip raw) [] = false ->
  mt re (strip raw) [] (fun cs s => Some (cs, s)) =
    Some ([(3, alias); (2, S_ "sha256:" ++ d); (1, n)], rest) ->
  extract_line re raw = Some (n, d, strip raw).
Proof.
  intros H1 Hx. unfold extract_line. cbv zeta. rewrite H1. unfold re_match. rewrite Hx.
  cbn [group Nat.eqb]. rewrite startswith_self. simpl. reflexivity.
Qed.

(** [FROM<ws>P N s sha256:D<ws>AS<ws>A], the lines [tee/x86/update.py]
    recognises, [P] being the optional registry prefix *)
Definition x86_decl (line P n d : pystr) : Prop :=
  exists w0 t sep alias, line = S_ "FROM" ++ w0 ++ P ++ t /\
    plus_ok is_space w0 /\ x86_prefix P /\ decl_tail t n sep (S_ "sha256:" ++ d) alias.

Lemma x86_extract_line_sound (raw : pystr) (e : entry) :
  extract_line X86.extract_re raw = Some e ->
  exists P n d, x86_decl (strip raw) P n d /\ e = (n, d, strip raw).
Proof.
  intros H. destruct (ExtractFacts.extract_line_some _ _ _ H) as (cs & rest & Hm & Hs & _ & ->).
  destruct (x86_match_shape _ _ _ Hm)
    as (w0 & P & t & n & sep & ref & alias & Hl & Hw & Hp & Hd & ->).
  simpl in Hs |- *. exists P, n, (skipn 7 ref). split; [|reflexivity].
  exists w0, t, sep, alias. split; [exact Hl|]. split; [exact Hw|]. split; [exact Hp|].
  replace (S_ "sha256:" ++ skipn 7 ref) with ref; [exact Hd|].
  exact (startswith_app _ _ Hs).
Qed.

Lemma space_not_slash (c : ascii) : is_space c = true -> not_class (S_ "/") c = true.
Proof.
  unfold not_class, not_in. simpl. destruct (Ascii.eqb_spec c "/"%char); [subst; discriminate|].
  reflexivity.
Qed.

Lemma space_not_at_colon (c : ascii) : is_space c = true -> not_class (S_ "@:") c = true.
Proof.
  unfold not_class, not_in. simpl.
  destruct (Ascii.eqb_spec c "@"%char); [subst; discriminate|].
  destruct (Ascii.eqb_spec c ":"%char); [subst; discriminate|]. reflexivity.
Qed.

Lemma x86_prefix_slash (P : pystr) :
  x86_prefix P -> P = [] \/ exists u, P = u ++ S_ "/" /\ Forall (fun c => not_class (S_ "/") c = true) u.
Proof.
  intros [->|[->|(seg & -> & [_ Hs])]]; [left; reflexivity| |right; eauto].
  right. exists (S_ "${STAGEX_REG}"). split; [reflexivity|]. repeat constructor.
Qed.

Lemma ref_span (ref ref' w1 w1' x x' : pystr) :
  Forall (fun c => ref_class c = true) ref -> Forall (fun c => ref_class c = true) ref' ->
  plus_ok is_space w1 -> plus_ok is_space w1' ->
  ref ++ w1 ++ x = ref' ++ w1' ++ x' -> ref = ref'.
Proof.
  intros Hr Hr' [Hw1 Hw1'] [Hw2 Hw2'] E.
  destruct w1 as [|y w1]; [congruence|]. destruct w1' as [|y' w1']; [congruence|].
  inversion Hw1'; inversion Hw2'; subst.
  assert (Hy : ref_class y = false) by (unfold ref_class; rewrite H1; apply andb_false_r).
  assert (Hy' : ref_class y' = false) by (unfold ref_class; rewrite H5; apply andb_false_r).
  simpl in E. destruct (span_unique _ _ _ _ _ _ _ Hr Hr' Hy Hy' E) as (-> & _). reflexivity.
Qed.

Lemma readlines_acc_split (cur a b : pystr) :
  readlines_acc cur (a ++ nl :: b) = readlines_acc cur (a ++ [nl]) ++ readlines_acc [] b.
Proof.
  revert cur; induction a as [|c a IH]; intros cur; simpl.
  - reflexivity.
  - destruct (Ascii.eqb c nl).
    + rewrite (IH []). reflexivity.
    + apply IH.
Qed.

Lemma extract_images_split (re : regex) (a b : pystr) :
  extract_images re (a ++ nl :: b) = extract_images re (a ++ [nl]) ++ extract_images re b.
Proof.
  unfold extract_images, readlines. rewrite readlines_acc_split, flat_map_app. reflexivity.
Qed.

Lemma extract_line_comment (re : regex) (raw : pystr) :
  startswith (strip raw) (S_ "#") = true \/ strip raw = [] -> extract_line re raw = None.
Proof.
  unfold extract_line. cbv zeta. intros [H|H].
  - rewrite H. reflexivity.
  - rewrite H. destruct (startswith [] (S_ "#")); reflexivity.
Qed.

End LineFacts.

(** ** What the digest rewrite can change *)
Module UpdateFrame.
Import MatchFacts MatchRel.

Section Frame.
(** [okpre x]: the text [x] may stand right before a rewritten digest *)
Variable okpre : pystr -> Prop.
Hypothesis okpre_app : forall x t, okpre t -> okpre (x ++ t).

Definition hex64 (W : pystr) : Prop :=
  List.length W = 64 /\ Forall (fun c => is_hex_lower c = true) W.





Variable r : regex.
Variable repl : caps -> pystr.
Hypothesis match_shape : forall s cs rest, re_match r s = Some (cs, rest) ->
  exists g1 W g2 h, s = g1 ++ W ++ g2 ++ rest /\ repl cs = g1 ++ h ++ g2 /\
    okpre g1 /\ hex64 W /\ List.length h = 64.



End Frame.

Fixpoint no_groups (r : regex) : bool :=
  match r with
  | RGroup _ _ => false
  | ROpt r1 => no_groups r1
  | RAlt r1 r2 | RSeq r1 r2 => no_groups r1 && no_groups r2
  | _ => true
  end.

Lemma mrel_no_groups (r : regex) :
  forall w s cs cs', no_groups r = true -> mrel r w s cs cs' -> cs' = cs.
Proof.
  induction r as [c|p|p|n p|r1 IH|r1 IH1 r2 IH2|r1 IH1 r2 IH2|g r1 IH| |];
    intros w s cs cs' Hg Hm; simpl in Hg, Hm; try discriminate;
    try (destruct Hm as [-> _]; reflexivity).
  - destruct Hm as [Hm|[_ ->]]; [exact (IH _ _ _ _ Hg Hm)|reflexivity].
  - apply andb_true_iff in Hg. destruct Hg as [G1 G2].
    destruct Hm as [Hm|Hm]; [exact (IH1 _ _ _ _ G1 Hm)|exact (IH2 _ _ _ _ G2 Hm)].
  - apply andb_true_iff in Hg. destruct Hg as [G1 G2].
    destruct Hm as (w1 & w2 & cs1 & _ & Hm1 & Hm2).
    rewrite (IH2 _ _ _ _ G2 Hm2). exact (IH1 _ _ _ _ G1 Hm1).
  - destruct Hm as (_ & -> & _). reflexivity.
Qed.

Lemma no_groups_lits (w : pystr) (r : regex) : no_groups (lits w r) = no_groups r.
Proof. induction w as [|c w IH]; simpl; auto. Qed.

(** a match of [(X)[a-f0-9]{64}(\s+AS\s+.+)]: group 1, the old digest, group 2 *)
Lemma update_match_shape (X : regex) (s : pystr) cs rest :
  no_groups X = true ->
  re_match (RSeq (RGroup 1 X) update_tail) s = Some (cs, rest) ->
  exists g1 W g2, s = g1 ++ W ++ g2 ++ rest /\ mrel X g1 (W ++ g2 ++ rest) [] [] /\
    hex64 W /\ group 1 cs = g1 /\ group 2 cs = g2.
Proof.
  intros Hg H. unfold re_match in H.
  destruct (mt_sound_rel _ _ _ _ _ H) as (pre & s' & cs' & -> & Hk & Hm).
  simpl in Hk. injection Hk as -> ->.
  unfold update_tail in Hm. cbn [mrel] in Hm.
  destruct Hm as (g1 & w2 & cs1 & -> & (cs2 & HX & ->) & (W & g2 & cs3 & -> &
    (-> & HW) & (cs4 & HY & ->))).
  pose proof (mrel_no_groups _ _ _ _ _ Hg HX) as ->.
  assert (E4 : cs4 = [(1, g1)]).
  { apply (mrel_no_groups (RSeq ws_plus (lits (S_ "AS") (RSeq ws_plus dot_plus))) g2 rest);
      [reflexivity|exact HY]. }
  subst cs4. rewrite <- app_assoc in HX.
  exists g1, W, g2. split; [rewrite <- !app_assoc; reflexivity|].
  split; [exact HX|]. split; [exact HW|].
  simpl. split; reflexivity.
Qed.

Definition okpre_arm (N x : pystr) : Prop :=
  exists u, x = u ++ S_ "stagex/" ++ N ++ S_ "@sha256:".

Definition okpre_x86 (N x : pystr) : Prop :=
  exists u c, x = u ++ c :: N ++ S_ "@sha256:" /\ (c = "/"%char \/ is_space c = true).



Lemma arm_update_shape (N h s : pystr) cs rest :
  List.length h = 64 -> re_match (Arm.update_re N) s = Some (cs, rest) ->
  exists g1 W g2 h', s = g1 ++ W ++ g2 ++ rest /\ repl_of h cs = g1 ++ h' ++ g2 /\
    okpre_arm N g1 /\ hex64 W /\ List.length h' = 64.
Proof.
  intros Hh H. apply update_match_shape in H; [|rewrite no_groups_lits; simpl; rewrite !no_groups_lits; reflexivity].
  destruct H as (g1 & W & g2 & -> & HX & HW & H1 & H2).
  exists g1, W, g2, h. split; [reflexivity|]. split; [unfold repl_of; rewrite H1, H2; reflexivity|].
  split; [|split; [exact HW|exact Hh]].
  apply LineFacts.mrel_lits in HX. destruct HX as (p1 & -> & HX). cbn [mrel ws_plus] in HX.
  destruct HX as (w0 & p2 & cs1 & -> & _ & HX).
  apply LineFacts.mrel_lits in HX. destruct HX as (p3 & -> & HX).
  apply LineFacts.mrel_lits in HX. destruct HX as (p4 & -> & HX).
  apply LineFacts.mrel_lits in HX. destruct HX as (p5 & -> & HX).
  cbn [mrel lang] in HX. destruct HX as [_ ->].
  exists (S_ "FROM" ++ w0). rewrite app_nil_r, <- !app_assoc. reflexivity.
Qed.

Lemma x86_update_shape (N h s : pystr) cs rest :
  List.length h = 64 -> re_match (X86.update_re N) s = Some (cs, rest) ->
  exists g1 W g2 h', s = g1 ++ W ++ g2 ++ rest /\ repl_of h cs = g1 ++ h' ++ g2 /\
    okpre_x86 N g1 /\ hex64 W /\ List.length h' = 64.
Proof.
  intros Hh H. apply update_match_shape in H; [|rewrite no_groups_lits; simpl; rewrite !no_groups_lits; reflexivity].
  destruct H as (g1 & W & g2 & -> & HX & HW & H1 & H2).
  exists g1, W, g2, h. split; [reflexivity|]. split; [unfold repl_of; rewrite H1, H2; reflexivity|].
  split; [|split; [exact HW|exact Hh]].
  apply LineFacts.mrel_lits in HX. destruct HX as (p1 & -> & HX). cbn [mrel ws_plus] in HX.
  destruct HX as (w0 & p2 & cs1 & -> & [_ [Hw0 Hw0']] & HX).
  cbn [mrel] in HX. destruct HX as (P & p3 & cs2 & -> & HP & HX).
  apply LineFacts.mrel_prefix in HP. destruct HP as [_ HP].
  apply LineFacts.mrel_lits in HX. destruct HX as (p4 & -> & HX).
  apply LineFacts.mrel_lits in HX. destruct HX as (p5 & -> & HX).
  cbn [mrel lang] in HX. destruct HX as [_ ->]. rewrite app_nil_r.
  destruct (LineFacts.x86_prefix_slash _ HP) as [->|(q & -> & _)].
  - destruct (exists_last Hw0) as (w0' & c & ->).
    exists (S_ "FROM" ++ w0'), c. split; [rewrite <- !app_assoc; reflexivity|].
    right. apply Forall_app in Hw0'. destruct Hw0' as [_ Hc]. inversion Hc; assumption.
  - exists (S_ "FROM" ++ w0 ++ q), "/"%char. split; [rewrite <- !app_assoc; reflexivity|].
    left; reflexivity.
Qed.





Lemma option_ascii_dec (x y : option ascii) : {x = y} + {x <> y}.
Proof. decide equality. apply Ascii.ascii_dec. Qed.


(** [K in L] for strings *)
Fixpoint infixb (K L : pystr) : bool :=
  startswith L K || match L with [] => false | _ :: L' => infixb K L' end.

Lemma infixb_eq (K L : pystr) :
  infixb K L = startswith L K || match L with [] => false | _ :: L' => infixb K L' end.
Proof. destruct L; reflexivity. Qed.

Lemma infixb_complete (K p q : pystr) : infixb K (p ++ K ++ q) = true.
Proof.
  induction p as [|c p IH].
  - rewrite infixb_eq. simpl. rewrite LineFacts.startswith_self. reflexivity.
  - simpl. rewrite IH, orb_true_r. reflexivity.
Qed.

Lemma okpre_arm_ends (N x : pystr) : okpre_arm N x -> exists u, x = u ++ N ++ S_ "@sha256:".
Proof. intros (u & ->). exists (u ++ S_ "stagex/"). rewrite <- app_assoc. reflexivity. Qed.

Lemma okpre_x86_ends (N x : pystr) : okpre_x86 N x -> exists u, x = u ++ N ++ S_ "@sha256:".
Proof. intros (u & c & -> & _). exists (u ++ [c]). rewrite <- app_assoc. reflexivity. Qed.





Lemma infixb_cons (K : pystr) c L : infixb K (c :: L) = false -> infixb K L = false.
Proof. rewrite infixb_eq. intros H. apply orb_false_iff in H. apply H. Qed.

Lemma sub_fuel_absent (r : regex) (repl : caps -> pystr) (K : pystr) :
  (forall s0 cs rest, re_match r s0 = Some (cs, rest) -> exists u z, s0 = u ++ K ++ z) ->
  forall f s, infixb K s = false -> sub_fuel f r repl s = s.
Proof.
  intros Hm f. induction f as [|f IH]; intros s Hs; simpl; [reflexivity|].
  destruct (re_match r s) as [[cs rest]|] eqn:E.
  - destruct (Hm _ _ _ E) as (u & z & ->). rewrite infixb_complete in Hs. discriminate.
  - destruct s as [|c s]; [reflexivity|]. f_equal. apply IH. exact (infixb_cons _ _ _ Hs).
Qed.

Lemma arm_match_has_key (N s0 : pystr) cs rest :
  re_match (Arm.update_re N) s0 = Some (cs, rest) ->
  exists u z, s0 = u ++ (N ++ S_ "@sha256:") ++ z.
Proof.
  intros H. destruct (arm_update_shape N (hexrun "0") _ _ _ eq_refl H)
    as (g1 & W & g2 & h' & -> & _ & Hok & _ & _).
  destruct (okpre_arm_ends _ _ Hok) as (u & ->).
  exists u, (W ++ g2 ++ rest). rewrite <- !app_assoc. reflexivity.
Qed.

Lemma x86_match_has_key (N s0 : pystr) cs rest :
  re_match (X86.update_re N) s0 = Some (cs, rest) ->
  exists u z, s0 = u ++ (N ++ S_ "@sha256:") ++ z.
Proof.
  intros H. destruct (x86_update_shape N (hexrun "0") _ _ _ eq_refl H)
    as (g1 & W & g2 & h' & -> & _ & Hok & _ & _).
  destruct (okpre_x86_ends _ _ Hok) as (u & ->).
  exists u, (W ++ g2 ++ rest). rewrite <- !app_assoc. reflexivity.
Qed.










End UpdateFrame.

(** ** Applying the same updates twice *)
Module Overwrite.

(** overwrite 64 characters of [X] from position [j] with [h] *)
Definition ow1 (X : pystr) (jh : nat * pystr) : pystr :=
  firstn (fst jh) X ++ snd jh ++ skipn (fst jh + 64) X.

Definition ow_seq (X : pystr) (L : list (nat * pystr)) : pystr := fold_left ow1 L X.

Definition in_win (jh : nat * pystr) (p : nat) : bool := (fst jh <=? p) && (p <? fst jh + 64).

(** the last window of [L] holding position [p] *)
Fixpoint last_in (L : list (nat * pystr)) (p : nat) (acc : option (nat * pystr))
  : option (nat * pystr) :=
  match L with
  | [] => acc
  | jh :: L' => last_in L' p (if in_win jh p then Some jh else acc)
  end.

Definition fits (n : nat) (jh : nat * pystr) : Prop :=
  fst jh + 64 <= n /\ List.length (snd jh) = 64.

Lemma ow1_shift (p s : pystr) (jh : nat * pystr) :
  ow1 (p ++ s) (List.length p + fst jh, snd jh) = p ++ ow1 s jh.
Proof.
  unfold ow1. simpl. rewrite firstn_app, skipn_app.
  rewrite firstn_all2 by lia. rewrite skipn_all2 by lia.
  replace (List.length p + fst jh - List.length p) with (fst jh) by lia.
  replace (List.length p + fst jh + 64 - List.length p) with (fst jh + 64) by lia.
  rewrite <- app_assoc. reflexivity.
Qed.

Lemma ow_seq_shift (p : pystr) (L : list (nat * pystr)) : forall s,
  ow_seq (p ++ s) (map (fun jh => (List.length p + fst jh, snd jh)) L) = p ++ ow_seq s L.
Proof.
  induction L as [|jh L IH]; intros s; simpl; [reflexivity|].
  unfold ow_seq in *. simpl. rewrite ow1_shift. apply IH.
Qed.

Lemma length_ow1 (X : pystr) (jh : nat * pystr) :
  fits (List.length X) jh -> List.length (ow1 X jh) = List.length X.
Proof.
  intros [H1 H2]. unfold ow1. rewrite !length_app, length_firstn, length_skipn. lia.
Qed.

Lemma nth_ow1 (X : pystr) (jh : nat * pystr) (p : nat) :
  fits (List.length X) jh ->
  nth_error (ow1 X jh) p = if in_win jh p then nth_error (snd jh) (p - fst jh) else nth_error X p.
Proof.
  intros [H1 H2]. unfold ow1, in_win. destruct jh as [j h]; simpl in *.
  destruct (Nat.leb_spec j p); destruct (Nat.ltb_spec p (j + 64)); simpl.
  - rewrite nth_error_app2 by (rewrite length_firstn; lia).
    rewrite length_firstn. replace (Nat.min j (List.length X)) with j by lia.
    rewrite nth_error_app1 by lia. reflexivity.
  - rewrite nth_error_app2 by (rewrite length_firstn; lia).
    rewrite length_firstn. replace (Nat.min j (List.length X)) with j by lia.
    rewrite nth_error_app2 by lia. rewrite nth_error_skipn. f_equal. lia.
  - rewrite nth_error_app1 by (rewrite length_firstn; lia).
    rewrite nth_error_firstn. destruct (Nat.ltb_spec p j); [reflexivity|lia].
  - lia.
Qed.

Lemma last_in_acc (L : list (nat * pystr)) (p : nat) : forall acc,
  last_in L p acc = match last_in L p None with Some x => Some x | None => acc end.
Proof.
  induction L as [|jh L IH]; intros acc; simpl; [reflexivity|].
  rewrite IH, (IH (if in_win jh p then Some jh else None)).
  destruct (last_in L p None); [reflexivity|]. destruct (in_win jh p); reflexivity.
Qed.

Lemma ow_seq_length (L : list (nat * pystr)) : forall X,
  Forall (fits (List.length X)) L -> List.length (ow_seq X L) = List.length X.
Proof.
  induction L as [|jh L IH]; intros X HL; [reflexivity|].
  inversion HL; subst. unfold ow_seq; simpl. fold (ow_seq (ow1 X jh) L).
  rewrite IH; rewrite length_ow1 by assumption; [reflexivity|assumption].
Qed.

Lemma nth_ow_seq (L : list (nat * pystr)) : forall X p,
  Forall (fits (List.length X)) L ->
  nth_error (ow_seq X L) p =
    match last_in L p None with
    | Some jh => nth_error (snd jh) (p - fst jh)
    | None => nth_error X p
    end.
Proof.
  induction L as [|jh L IH]; intros X p HL; [reflexivity|].
  inversion HL; subst. unfold ow_seq; simpl. fold (ow_seq (ow1 X jh) L).
  rewrite IH by (rewrite length_ow1 by assumption; assumption).
  rewrite (last_in_acc L p (if in_win jh p then Some jh else None)).
  destruct (last_in L p None); [reflexivity|].
  rewrite nth_ow1 by assumption. destruct (in_win jh p); reflexivity.
Qed.

Lemma last_in_app (L1 L2 : list (nat * pystr)) (p : nat) : forall acc,
  last_in (L1 ++ L2) p acc = last_in L2 p (last_in L1 p acc).
Proof. induction L1 as [|jh L1 IH]; intros acc; simpl; auto. Qed.

Lemma ow_seq_twice (X : pystr) (L : list (nat * pystr)) :
  Forall (fits (List.length X)) L -> ow_seq X (L ++ L) = ow_seq X L.
Proof.
  intros HL. apply nth_error_ext. intros p.
  rewrite !nth_ow_seq by (try apply Forall_app; auto).
  rewrite last_in_app, (last_in_acc L p (last_in L p None)).
  destruct (last_in L p None); reflexivity.
Qed.

Lemma ow_seq_app (X : pystr) (L1 L2 : list (nat * pystr)) :
  ow_seq X (L1 ++ L2) = ow_seq (ow_seq X L1) L2.
Proof. unfold ow_seq. apply fold_left_app. Qed.

End Overwrite.

(** ** Texts that differ only in digests are matched alike *)
Module Windows.
Import Overwrite.

(** equal characters, or two lowercase hexadecimal digits *)
Definition crel (a b : ascii) : Prop :=
  a = b \/ (is_hex_lower a = true /\ is_hex_lower b = true).

(** position [i] lies in a run of lowercase hexadecimal digits that starts
    right after a [:] *)
Definition colon_run (X : pystr) (i : nat) : Prop :=
  exists r0, 1 <= r0 <= i /\ nth_error X (r0 - 1) = Some ":"%char /\
    forall j, r0 <= j <= i -> exists c, nth_error X j = Some c /\ is_hex_lower c = true.

(** a character class that cannot tell two hexadecimal digits apart *)
Definition uniform (p : ascii -> bool) : Prop := forall a b, crel a b -> p a = p b.

Definition capsEq (c1 c2 : caps) : Prop :=
  map (fun gv => (fst gv, List.length (snd gv))) c1 =
  map (fun gv => (fst gv, List.length (snd gv))) c2.

(** no [:] of the word is followed by a hexadecimal digit of the word *)
Fixpoint safe_wordb (w : pystr) : bool :=
  match w with
  | c :: ((d :: _) as w') =>
      (negb (Ascii.eqb c ":"%char) || negb (is_hex_lower d)) && safe_wordb w'
  | _ => true
  end.

Lemma uniform_const (p : ascii -> bool) (v : bool) :
  (forall c, is_hex_lower c = true -> p c = v) -> uniform p.
Proof.
  intros H a b [->|[Ha Hb]]; [reflexivity|]. rewrite (H a Ha), (H b Hb). reflexivity.
Qed.

Ltac all_chars c := destruct c as [[] [] [] [] [] [] [] []].

Lemma uniform_space : uniform is_space.
Proof.
  apply (uniform_const _ false). intros c. all_chars c; vm_compute;
  intros H; first [reflexivity | discriminate H].
Qed.

Lemma uniform_not_slash : uniform (not_class (S_ "/")).
Proof.
  apply (uniform_const _ true). intros c. all_chars c; vm_compute;
  intros H; first [reflexivity | discriminate H].
Qed.

Lemma uniform_hex : uniform is_hex_lower.
Proof. apply (uniform_const _ true). auto. Qed.

Lemma uniform_dot : uniform (fun c => negb (Ascii.eqb c nl)).
Proof.
  apply (uniform_const _ true). intros c. all_chars c; vm_compute;
  intros H; first [reflexivity | discriminate H].
Qed.

Lemma space_not_hex (c : ascii) : is_space c = true -> is_hex_lower c = false.
Proof. all_chars c; vm_compute; intros H; first [reflexivity | discriminate H]. Qed.

Lemma space_not_colon (c : ascii) : is_space c = true -> c <> ":"%char.
Proof. intros H ->. discriminate H. Qed.

Lemma safe_wordb_no_colon (w : pystr) : ~ In ":"%char w -> safe_wordb w = true.
Proof.
  induction w as [|c w IH]; intros Hn; [reflexivity|].
  destruct w as [|d w]; [reflexivity|]. change (safe_wordb (c :: d :: w)) with
    ((negb (Ascii.eqb c ":"%char) || negb (is_hex_lower d)) && safe_wordb (d :: w)).
  rewrite IH by (intros Hi; apply Hn; right; exact Hi).
  destruct (Ascii.eqb_spec c ":"%char) as [->|]; [exfalso; apply Hn; left; reflexivity|].
  reflexivity.
Qed.

Lemma safe_wordb_sound (w : pystr) : safe_wordb w = true ->
  forall m c, nth_error w m = Some ":"%char -> nth_error w (S m) = Some c ->
    is_hex_lower c = false.
Proof.
  induction w as [|a w IH]; intros Hs m c H1 H2; [destruct m; discriminate|].
  destruct w as [|d w]; [destruct m as [|[]]; discriminate|].
  change (safe_wordb (a :: d :: w)) with
    ((negb (Ascii.eqb a ":"%char) || negb (is_hex_lower d)) && safe_wordb (d :: w)) in Hs.
  apply andb_true_iff in Hs. destruct Hs as [Hs1 Hs2]. destruct m as [|m].
  - simpl in H1, H2. injection H1 as ->. injection H2 as ->.
    destruct (is_hex_lower c); [discriminate|reflexivity].
  - exact (IH Hs2 m c H1 H2).
Qed.

Lemma F2_nth {A B} (R : A -> B -> Prop) (l1 : list A) (l2 : list B) (i : nat) :
  Forall2 R l1 l2 ->
  (nth_error l1 i = None /\ nth_error l2 i = None) \/
  exists a b, nth_error l1 i = Some a /\ nth_error l2 i = Some b /\ R a b.
Proof.
  intros H; revert i; induction H as [|a b l1 l2 Hab H IH]; intros i.
  - left. destruct i; split; reflexivity.
  - destruct i as [|i]; [right; exists a, b; auto|exact (IH i)].
Qed.

Lemma F2_skipn {A B} (R : A -> B -> Prop) (l1 : list A) (l2 : list B) (b : nat) :
  Forall2 R l1 l2 -> Forall2 R (skipn b l1) (skipn b l2).
Proof.
  intros H; revert b; induction H as [|a a' l1 l2 Hab H IH]; intros b.
  - destruct b; constructor.
  - destruct b; [constructor; auto|exact (IH b)].
Qed.

Lemma run_len_uniform (p : ascii -> bool) (s1 s2 : pystr) :
  uniform p -> Forall2 crel s1 s2 -> run_len p s1 = run_len p s2.
Proof.
  intros Hu H; induction H as [|a b s1 s2 Hab H IH]; [reflexivity|].
  simpl. rewrite (Hu a b Hab), IH. reflexivity.
Qed.

Lemma skipn_cons_eq (l : pystr) (b : nat) (x : ascii) (s : pystr) :
  skipn b l = x :: s -> s = skipn (S b) l /\ nth_error l b = Some x.
Proof.
  revert l; induction b as [|b IH]; intros [|y l] H; simpl in *; try discriminate.
  - injection H as -> ->. auto.
  - exact (IH l H).
Qed.

Lemma mt_lits (w : pystr) (r : regex) : forall s cs k,
  mt (lits w r) s cs k =
  if startswith s w then mt r (skipn (List.length w) s) cs k else None.
Proof.
  induction w as [|c w IH]; intros s cs k; [destruct s; reflexivity|].
  simpl. destruct s as [|x s]; [reflexivity|].
  rewrite IH. cbn [startswith]. rewrite Ascii.eqb_sym. destruct (Ascii.eqb c x); reflexivity.
Qed.

Lemma startswith_nth (s w : pystr) :
  startswith s w = true -> forall k, k < List.length w -> nth_error s k = nth_error w k.
Proof.
  intros H k Hk. rewrite (LineFacts.startswith_app _ _ H). apply nth_error_app1. exact Hk.
Qed.

Lemma startswith_ext (w : pystr) : forall s1 s2,
  (forall k, k < List.length w -> nth_error s1 k = nth_error s2 k) ->
  startswith s1 w = startswith s2 w.
Proof.
  induction w as [|c w IH]; intros s1 s2 H; [destruct s1, s2; reflexivity|].
  destruct s1 as [|x s1], s2 as [|y s2].
  - reflexivity.
  - specialize (H 0 ltac:(simpl; lia)). discriminate H.
  - specialize (H 0 ltac:(simpl; lia)). discriminate H.
  - pose proof (H 0 ltac:(simpl; lia)) as H0. simpl in H0. injection H0 as ->.
    cbn [startswith]. f_equal. apply IH. intros k Hk. apply (H (S k)). simpl; lia.
Qed.

Lemma capsEq_group (c1 c2 : caps) (g : nat) :
  capsEq c1 c2 -> List.length (group g c1) = List.length (group g c2).
Proof.
  revert c2; induction c1 as [|[g1 v1] c1 IH]; intros [|[g2 v2] c2] H;
    try discriminate; [reflexivity|].
  unfold capsEq in H. simpl in H. injection H as E1 E2 E3. subst g2.
  simpl. destruct (g1 =? g); [exact E2|]. apply IH. exact E3.
Qed.

Section Sim.
(** two texts equal up to lowercase hexadecimal digits, which they only
    disagree on inside runs that follow a [:] *)
Variables X Y : pystr.
Hypothesis HF : Forall2 crel X Y.
Hypothesis HD : forall i, nth_error X i <> nth_error Y i -> colon_run X i /\ colon_run Y i.

Definition resEq (o1 o2 : option mres) : Prop :=
  match o1, o2 with
  | None, None => True
  | Some (c1, r1), Some (c2, r2) =>
      capsEq c1 c2 /\ exists b, r1 = skipn b X /\ r2 = skipn b Y
  | _, _ => False
  end.

Definition kRel (Q : nat -> Prop) (k1 k2 : caps -> pystr -> option mres) : Prop :=
  forall b cs1 cs2, Q b -> capsEq cs1 cs2 ->
    resEq (k1 cs1 (skipn b X)) (k2 cs2 (skipn b Y)).

(** from every position of [P], [r] runs alike on both texts, provided the
    continuations do so at every position of [Q] *)
Definition sim (r : regex) (P Q : nat -> Prop) : Prop :=
  forall b cs1 cs2 k1 k2, P b -> capsEq cs1 cs2 -> kRel Q k1 k2 ->
    resEq (mt r (skipn b X) cs1 k1) (mt r (skipn b Y) cs2 k2).

(** the character before position [b] is the same non-digit, other than [:],
    in both texts *)
Definition Ctx (b : nat) : Prop :=
  1 <= b /\ exists c, nth_error X (b - 1) = Some c /\ nth_error Y (b - 1) = Some c /\
    is_hex_lower c = false /\ c <> ":"%char.

Definition first_ok (w : pystr) (b : nat) : Prop :=
  match w with
  | [] => True
  | c :: _ => is_hex_lower c = false \/ Ctx b
  end.

Lemma skipn_len (b : nat) : List.length (skipn b X) = List.length (skipn b Y).
Proof. rewrite !length_skipn, (Forall2_length HF). reflexivity. Qed.

Lemma nonhex_same (b : nat) (c : ascii) :
  is_hex_lower c = false -> nth_error X b = Some c -> nth_error Y b = Some c.
Proof.
  intros Hc HX. destruct (F2_nth crel X Y b HF) as [[E _]|(a & a' & E1 & E2 & [<-|[Ha _]])];
    rewrite HX in *; try discriminate.
  - injection E1 as ->. exact E2.
  - injection E1 as ->. congruence.
Qed.

Lemma nonhex_same' (b : nat) (c : ascii) :
  is_hex_lower c = false -> nth_error Y b = Some c -> nth_error X b = Some c.
Proof.
  intros Hc HY. destruct (F2_nth crel X Y b HF) as [[_ E]|(a & a' & E1 & E2 & [->|[_ Ha]])];
    rewrite HY in *; try discriminate.
  - injection E2 as ->. exact E1.
  - injection E2 as ->. congruence.
Qed.

Lemma kRel_top (Q : nat -> Prop) :
  kRel Q (fun cs s => Some (cs, s)) (fun cs s => Some (cs, s)).
Proof. intros b cs1 cs2 _ Hc. simpl. split; [exact Hc|]. exists b. auto. Qed.

Lemma try_down_resEq (n : nat) (f1 f2 : nat -> option mres) :
  (forall j, 1 <= j <= n -> resEq (f1 j) (f2 j)) -> resEq (try_down n f1) (try_down n f2).
Proof.
  induction n as [|n IH]; intros H; simpl; [exact I|].
  pose proof (H (S n) ltac:(lia)) as Hn.
  destruct (f1 (S n)) as [[c1 r1]|], (f2 (S n)) as [[c2 r2]|]; try contradiction.
  - exact Hn.
  - apply IH. intros j Hj. apply H. lia.
Qed.

Lemma sim_weaken (r : regex) (P P' Q Q' : nat -> Prop) :
  sim r P' Q' -> (forall b, P b -> P' b) -> (forall b, Q' b -> Q b) -> sim r P Q.
Proof.
  intros H HP HQ b cs1 cs2 k1 k2 Hb Hc Hk. apply H; auto.
  intros b' c1 c2 Hb' Hc'. apply Hk; auto.
Qed.

Lemma sim_seq (r1 r2 : regex) (P M Q : nat -> Prop) :
  sim r1 P M -> sim r2 M Q -> sim (RSeq r1 r2) P Q.
Proof.
  intros H1 H2 b cs1 cs2 k1 k2 Hb Hc Hk. simpl. apply H1; auto.
  intros b' c1 c2 Hb' Hc'. apply H2; auto.
Qed.

Lemma sim_group (g : nat) (r : regex) (P Q : nat -> Prop) :
  sim r P Q -> sim (RGroup g r) P Q.
Proof.
  intros H b cs1 cs2 k1 k2 Hb Hc Hk. simpl. apply H; auto.
  intros b' c1 c2 Hb' Hc'. apply Hk; auto.
  unfold capsEq. simpl. rewrite !length_firstn, !skipn_len. f_equal. exact Hc'.
Qed.

Lemma sim_emp (P Q : nat -> Prop) : (forall b, P b -> Q b) -> sim REmp P Q.
Proof. intros H b cs1 cs2 k1 k2 Hb Hc Hk. simpl. apply Hk; auto. Qed.

Lemma sim_opt (r : regex) (P Q : nat -> Prop) :
  sim r P Q -> (forall b, P b -> Q b) -> sim (ROpt r) P Q.
Proof.
  intros H HPQ b cs1 cs2 k1 k2 Hb Hc Hk. simpl.
  pose proof (H b cs1 cs2 k1 k2 Hb Hc Hk) as E.
  destruct (mt r (skipn b X) cs1 k1) as [[c1 r1]|], (mt r (skipn b Y) cs2 k2) as [[c2 r2]|];
    try contradiction; [exact E|]. apply Hk; auto.
Qed.

Lemma sim_alt (r1 r2 : regex) (P Q : nat -> Prop) :
  sim r1 P Q -> sim r2 P Q -> sim (RAlt r1 r2) P Q.
Proof.
  intros H1 H2 b cs1 cs2 k1 k2 Hb Hc Hk. simpl.
  pose proof (H1 b cs1 cs2 k1 k2 Hb Hc Hk) as E.
  destruct (mt r1 (skipn b X) cs1 k1) as [[c1 r1']|], (mt r1 (skipn b Y) cs2 k2) as [[c2 r2']|];
    try contradiction; [exact E|]. apply H2; auto.
Qed.

Lemma sim_plus (p : ascii -> bool) (P Q : nat -> Prop) :
  uniform p -> (forall b j, P b -> 1 <= j <= run_len p (skipn b X) -> Q (b + j)) ->
  sim (RPlus p) P Q.
Proof.
  intros Hu HQ b cs1 cs2 k1 k2 Hb Hc Hk. simpl.
  rewrite <- (run_len_uniform p _ _ Hu (F2_skipn crel X Y b HF)).
  apply try_down_resEq. intros j Hj. rewrite !skipn_skipn.
  replace (j + b) with (b + j) by lia. apply Hk; auto.
Qed.

Lemma sim_rep (n : nat) (p : ascii -> bool) (P Q : nat -> Prop) :
  uniform p -> (forall b, P b -> n <= run_len p (skipn b X) -> Q (b + n)) ->
  sim (RRep n p) P Q.
Proof.
  intros Hu HQ b cs1 cs2 k1 k2 Hb Hc Hk. simpl.
  rewrite <- (run_len_uniform p _ _ Hu (F2_skipn crel X Y b HF)).
  destruct (Nat.leb_spec n (run_len p (skipn b X))); [|exact I].
  rewrite !skipn_skipn. replace (n + b) with (b + n) by lia. apply Hk; auto.
Qed.

Lemma sim_lit (c : ascii) (P Q : nat -> Prop) :
  is_hex_lower c = false -> (forall b, P b -> nth_error X b = Some c -> Q (S b)) ->
  sim (RLit c) P Q.
Proof.
  intros Hc HQ b cs1 cs2 k1 k2 Hb Hcs Hk. simpl.
  pose proof (skipn_len b) as Hl.
  destruct (skipn b X) as [|x s1] eqn:EX, (skipn b Y) as [|y s2] eqn:EY;
    try discriminate Hl; [exact I|].
  destruct (skipn_cons_eq _ _ _ _ EX) as [-> Hx].
  destruct (skipn_cons_eq _ _ _ _ EY) as [-> Hy].
  destruct (Ascii.eqb_spec x c) as [->|Nx], (Ascii.eqb_spec y c) as [->|Ny].
  - apply Hk; auto.
  - rewrite (nonhex_same b c Hc Hx) in Hy. congruence.
  - rewrite (nonhex_same' b c Hc Hy) in Hx. congruence.
  - exact I.
Qed.

Lemma lit_safe_one (Z w : pystr) (b i : nat) :
  safe_wordb w = true ->
  match w with
  | [] => True
  | c :: _ => is_hex_lower c = false \/
      (1 <= b /\ exists c', nth_error Z (b - 1) = Some c' /\
         is_hex_lower c' = false /\ c' <> ":"%char)
  end ->
  startswith (skipn b Z) w = true -> b <= i < b + List.length w -> colon_run Z i -> False.
Proof.
  intros Hs Hf Hsw Hi (r0 & Hr0 & Hcol & Hhex).
  assert (Hw : forall k, k < List.length w -> nth_error Z (b + k) = nth_error w k).
  { intros k Hk. rewrite <- nth_error_skipn. apply startswith_nth; assumption. }
  destruct (Nat.le_gt_cases r0 b) as [Hle|Hgt].
  - destruct w as [|c0 w']; [simpl in Hi; lia|].
    destruct (Hhex b ltac:(lia)) as (x & Ex & Hx).
    rewrite <- (Nat.add_0_r b) in Ex. rewrite Hw in Ex by (simpl; lia).
    simpl in Ex. injection Ex as ->.
    destruct Hf as [Hf|(Hb1 & c' & Ec' & Hc'1 & Hc'2)]; [congruence|].
    destruct (Nat.eq_dec r0 b) as [->|Hne].
    + rewrite Hcol in Ec'. injection Ec' as <-. apply Hc'2; reflexivity.
    + destruct (Hhex (b - 1) ltac:(lia)) as (y & Ey & Hy).
      rewrite Ec' in Ey. injection Ey as ->. congruence.
  - assert (E1 : nth_error w (r0 - 1 - b) = Some ":"%char).
    { rewrite <- Hw by lia. replace (b + (r0 - 1 - b)) with (r0 - 1) by lia. exact Hcol. }
    destruct (Hhex r0 ltac:(lia)) as (y & Ey & Hy).
    assert (E2 : nth_error w (S (r0 - 1 - b)) = Some y).
    { rewrite <- Hw by lia. replace (b + S (r0 - 1 - b)) with r0 by lia. exact Ey. }
    pose proof (safe_wordb_sound w Hs _ y E1 E2). congruence.
Qed.

Lemma startswith_same (w : pystr) (b : nat) :
  safe_wordb w = true -> first_ok w b ->
  startswith (skipn b X) w = startswith (skipn b Y) w.
Proof.
  intros Hs Hf.
  assert (Heq : forall Z, (Z = X \/ Z = Y) -> startswith (skipn b Z) w = true ->
            forall k, k < List.length w -> nth_error (skipn b X) k = nth_error (skipn b Y) k).
  { intros Z HZ H k Hk. rewrite !nth_error_skipn.
    destruct (UpdateFrame.option_ascii_dec (nth_error X (b + k)) (nth_error Y (b + k)))
      as [E|NE]; [exact E|exfalso].
    destruct (HD _ NE) as [CX CY].
    apply (lit_safe_one Z w b (b + k) Hs); [| exact H | lia | destruct HZ; subst; assumption].
    destruct w as [|c w']; [exact I|]. destruct Hf as [Hf|(Hb & c' & E1 & E2 & H1 & H2)];
      [left; exact Hf|right]. split; [exact Hb|]. exists c'.
    destruct HZ; subst; auto. }
  destruct (startswith (skipn b X) w) eqn:E1.
  - rewrite <- E1. apply startswith_ext. exact (Heq X (or_introl eq_refl) E1).
  - destruct (startswith (skipn b Y) w) eqn:E2; [|reflexivity].
    rewrite <- E1, <- E2. apply startswith_ext. exact (Heq Y (or_intror eq_refl) E2).
Qed.

Lemma sim_lits (w : pystr) (r : regex) (P Q : nat -> Prop) :
  (forall b, P b -> safe_wordb w = true /\ first_ok w b) ->
  sim r (fun b' => exists b, P b /\ b' = b + List.length w /\
                             startswith (skipn b X) w = true) Q ->
  sim (lits w r) P Q.
Proof.
  intros Hw Hr b cs1 cs2 k1 k2 Hb Hc Hk. rewrite !mt_lits.
  destruct (Hw b Hb) as [Hs Hf]. rewrite <- (startswith_same w b Hs Hf).
  destruct (startswith (skipn b X) w) eqn:E; [|exact I].
  rewrite !skipn_skipn. replace (List.length w + b) with (b + List.length w) by lia.
  apply Hr; auto. exists b. auto.
Qed.

Lemma ctx_after (w : pystr) (c : ascii) (b : nat) :
  startswith (skipn b X) (w ++ [c]) = true -> is_hex_lower c = false -> c <> ":"%char ->
  Ctx (b + List.length (w ++ [c])).
Proof.
  intros H Hc Hc'. rewrite length_app. simpl.
  assert (E : nth_error X (b + List.length w) = Some c).
  { rewrite <- nth_error_skipn. rewrite (startswith_nth _ _ H (List.length w))
      by (rewrite length_app; simpl; lia).
    rewrite nth_error_app2 by lia. rewrite Nat.sub_diag. reflexivity. }
  split; [lia|]. exists c. replace (b + (List.length w + 1) - 1) with (b + List.length w) by lia.
  split; [exact E|]. split; [apply nonhex_same; assumption|]. auto.
Qed.

Lemma ctx_space (b j : nat) : 1 <= j <= run_len is_space (skipn b X) -> Ctx (b + j).
Proof.
  intros Hj. destruct (MatchFacts.run_len_prefix is_space (skipn b X) j ltac:(lia)) as [HFa Hl].
  assert (Hn : nth_error (firstn j (skipn b X)) (j - 1) = nth_error X (b + j - 1)).
  { rewrite nth_error_firstn. destruct (Nat.ltb_spec (j - 1) j); [|lia].
    rewrite nth_error_skipn. f_equal. lia. }
  destruct (nth_error (firstn j (skipn b X)) (j - 1)) as [c|] eqn:E.
  - assert (Hc : is_space c = true).
    { rewrite Forall_forall in HFa. apply HFa. eapply nth_error_In. exact E. }
    split; [lia|]. exists c. split; [symmetry; exact Hn|].
    split; [apply nonhex_same; [apply space_not_hex; exact Hc|symmetry; exact Hn]|].
    split; [apply space_not_hex; exact Hc|apply space_not_colon; exact Hc].
  - apply nth_error_None in E. rewrite length_firstn in E. lia.
Qed.

Lemma sim_update_tail : sim update_tail (fun _ => True) (fun _ => True).
Proof.
  unfold update_tail. apply (sim_seq _ _ _ (fun _ => True)).
  - apply sim_rep; [exact uniform_hex|auto].
  - apply sim_group. unfold ws_plus. apply (sim_seq _ _ _ (fun _ => True)).
    + apply sim_plus; [exact uniform_space|auto].
    + apply sim_lits; [intros; split; [reflexivity|simpl; left; reflexivity]|].
      apply (sim_weaken _ _ (fun _ => True) _ (fun _ => True)); [|auto|auto].
      unfold dot_plus. apply (sim_seq _ _ _ (fun _ => True)); apply sim_plus;
        auto using uniform_space, uniform_dot.
Qed.

Lemma sim_at_sign : sim (lits (S_ "@sha256:") REmp) (fun _ => True) (fun _ => True).
Proof.
  apply sim_lits; [intros; split; [reflexivity|simpl; left; reflexivity]|].
  apply sim_emp. auto.
Qed.

Lemma sim_arm (N : pystr) : ~ In ":"%char N ->
  sim (Arm.update_re N) (fun _ => True) (fun _ => True).
Proof.
  intros HN. unfold Arm.update_re. apply (sim_seq _ _ _ (fun _ => True)); [|exact sim_update_tail].
  apply sim_group. apply sim_lits; [intros; split; [reflexivity|simpl; left; reflexivity]|].
  apply (sim_weaken _ _ (fun _ => True) _ (fun _ => True)); [|auto|auto].
  unfold ws_plus. apply (sim_seq _ _ _ (fun _ => True)); [apply sim_plus; [exact uniform_space|auto]|].
  apply sim_lits; [intros; split; [reflexivity|simpl; left; reflexivity]|].
  apply sim_lits.
  - intros b' (b & _ & -> & Hs). split; [apply safe_wordb_no_colon; exact HN|].
    destruct N as [|c N']; [exact I|right].
    apply (ctx_after (S_ "stagex") "/"%char b); [exact Hs|reflexivity|discriminate].
  - apply (sim_weaken _ _ (fun _ => True) _ (fun _ => True)); [exact sim_at_sign|auto|auto].
Qed.

Lemma sim_reg_prefix : sim X86.reg_prefix Ctx Ctx.
Proof.
  unfold X86.reg_prefix. apply sim_opt; [|auto]. apply sim_alt.
  - apply sim_lits; [intros; split; [reflexivity|simpl; left; reflexivity]|].
    apply sim_emp. intros b' (b & _ & -> & Hs).
    apply (ctx_after (S_ "${STAGEX_REG}") "/"%char b); [exact Hs|reflexivity|discriminate].
  - apply (sim_seq _ _ _ (fun _ => True)); [apply sim_plus; [exact uniform_not_slash|auto]|].
    apply sim_lit; [reflexivity|]. intros b _ Hx. split; [lia|]. exists "/"%char.
    replace (S b - 1) with b by lia. split; [exact Hx|].
    split; [apply nonhex_same; [reflexivity|exact Hx]|]. split; [reflexivity|discriminate].
Qed.

Lemma sim_x86 (N : pystr) : ~ In ":"%char N ->
  sim (X86.update_re N) (fun _ => True) (fun _ => True).
Proof.
  intros HN. unfold X86.update_re. apply (sim_seq _ _ _ (fun _ => True)); [|exact sim_update_tail].
  apply sim_group. apply sim_lits; [intros; split; [reflexivity|simpl; left; reflexivity]|].
  apply (sim_weaken _ _ (fun _ => True) _ (fun _ => True)); [|auto|auto].
  unfold ws_plus. apply (sim_seq _ _ _ Ctx).
  - apply sim_plus; [exact uniform_space|]. intros b j _ Hj. apply ctx_space. exact Hj.
  - apply (sim_seq _ _ _ Ctx); [exact sim_reg_prefix|].
    apply sim_lits.
    + intros b Hb. split; [apply safe_wordb_no_colon; exact HN|].
      destruct N as [|c N']; [exact I|right; exact Hb].
    + apply (sim_weaken _ _ (fun _ => True) _ (fun _ => True)); [exact sim_at_sign|auto|auto].
Qed.

Lemma re_match_resEq (r : regex) : sim r (fun _ => True) (fun _ => True) ->
  forall a, resEq (re_match r (skipn a X)) (re_match r (skipn a Y)).
Proof. intros H a. unfold re_match. apply H; [exact I|reflexivity|apply kRel_top]. Qed.

End Sim.

(** the positions, in [s], of the digests that [re.sub] rewrites *)
Fixpoint wins_fuel (f : nat) (r : regex) (s : pystr) : list nat :=
  match f with
  | 0 => []
  | S f' =>
      match re_match r s with
      | Some (cs, rest) =>
          if List.length rest <? List.length s
          then List.length (group 1 cs)
               :: map (Nat.add (List.length s - List.length rest)) (wins_fuel f' r rest)
          else []
      | None => match s with [] => [] | _ :: s' => map S (wins_fuel f' r s') end
      end
  end.

Definition wins (r : regex) (s : pystr) : list nat := wins_fuel (S (List.length s)) r s.

(** a window of [c] that holds a digest right after a [:], with its new digest *)
Definition vwin (c : pystr) (jh : nat * pystr) : Prop :=
  fits (List.length c) jh /\ Forall (fun x => is_hex_lower x = true) (snd jh) /\
  1 <= fst jh /\ nth_error c (fst jh - 1) = Some ":"%char /\
  forall k, k < 64 -> exists x, nth_error c (fst jh + k) = Some x /\ is_hex_lower x = true.

Lemma wins_same (X Y : pystr) (r : regex) :
  Forall2 crel X Y ->
  (forall i, nth_error X i <> nth_error Y i -> colon_run X i /\ colon_run Y i) ->
  sim X Y r (fun _ => True) (fun _ => True) ->
  forall f a, wins_fuel f r (skipn a X) = wins_fuel f r (skipn a Y).
Proof.
  intros HF HD Hr f. induction f as [|f IH]; intros a; [reflexivity|]. simpl.
  pose proof (re_match_resEq X Y r Hr a) as E.
  destruct (re_match r (skipn a X)) as [[c1 r1]|], (re_match r (skipn a Y)) as [[c2 r2]|];
    simpl in E; try contradiction.
  - destruct E as [Hc (b & -> & ->)].
    rewrite (skipn_len X Y HF a), (skipn_len X Y HF b), (capsEq_group _ _ 1 Hc), IH.
    reflexivity.
  - pose proof (skipn_len X Y HF a) as Hl.
    destruct (skipn a X) as [|x s1] eqn:EX, (skipn a Y) as [|y s2] eqn:EY;
      try discriminate Hl; [reflexivity|].
    destruct (skipn_cons_eq _ _ _ _ EX) as [-> _].
    destruct (skipn_cons_eq _ _ _ _ EY) as [-> _].
    rewrite IH. reflexivity.
Qed.

Lemma ow1_at (g W t h : pystr) :
  List.length W = 64 -> ow1 (g ++ W ++ t) (List.length g, h) = g ++ h ++ t.
Proof.
  intros HW. unfold ow1. simpl.
  rewrite firstn_app, firstn_all, Nat.sub_diag, firstn_O, app_nil_r. f_equal. f_equal.
  rewrite skipn_app, skipn_all2 by lia. simpl.
  replace (List.length g + 64 - List.length g) with 64 by lia.
  rewrite skipn_app, skipn_all2 by lia. rewrite HW, Nat.sub_diag. reflexivity.
Qed.

Lemma vwin_shift (p s : pystr) (jh : nat * pystr) :
  vwin s jh -> vwin (p ++ s) (List.length p + fst jh, snd jh).
Proof.
  intros [[Hf Hl] [Hx [H1 [Hc Hk]]]]. unfold vwin, fits. simpl.
  split; [split; [rewrite length_app; lia|exact Hl]|].
  split; [exact Hx|]. split; [lia|]. split.
  - rewrite nth_error_app2 by lia. replace (List.length p + fst jh - 1 - List.length p)
      with (fst jh - 1) by lia. exact Hc.
  - intros k Hk'. rewrite nth_error_app2 by lia.
    replace (List.length p + fst jh + k - List.length p) with (fst jh + k) by lia. auto.
Qed.

Lemma vwin_map_shift (p s h : pystr) (L : list nat) :
  Forall (vwin s) (map (fun j => (j, h)) L) ->
  Forall (vwin (p ++ s)) (map (fun j => (j, h)) (map (Nat.add (List.length p)) L)).
Proof.
  rewrite !Forall_map. intros H. eapply Forall_impl; [|exact H].
  intros j Hj. exact (vwin_shift p s (j, h) Hj).
Qed.

Section Shape.
Variable r : regex.
Variable h : pystr.
Hypothesis Hh : List.length h = 64.
Hypothesis Hshape : forall s cs rest, re_match r s = Some (cs, rest) ->
  exists g1 W g2, s = g1 ++ W ++ g2 ++ rest /\ group 1 cs = g1 /\ group 2 cs = g2 /\
    UpdateFrame.hex64 W /\ exists u, g1 = u ++ [":"%char].

(** [re.sub] overwrites the digests at [wins] *)
Lemma sub_as_ow (f : nat) : forall s,
  sub_fuel f r (repl_of h) s = ow_seq s (map (fun j => (j, h)) (wins_fuel f r s)).
Proof.
  induction f as [|f IH]; intros s; [reflexivity|]. simpl.
  destruct (re_match r s) as [[cs rest]|] eqn:E.
  - destruct (Hshape _ _ _ E) as (g1 & W & g2 & -> & H1 & H2 & [HW _] & _).
    rewrite !length_app.
    destruct (Nat.ltb_spec (List.length rest)
      (List.length g1 + (List.length W + (List.length g2 + List.length rest)))); [|lia].
    unfold repl_of. rewrite H1, H2, IH. simpl map.
    change (ow_seq (g1 ++ W ++ g2 ++ rest) ((List.length g1, h) :: ?M))
      with (ow_seq (ow1 (g1 ++ W ++ g2 ++ rest) (List.length g1, h)) M).
    rewrite (ow1_at _ _ _ _ HW), <- ow_seq_shift, <- !app_assoc. f_equal.
    rewrite !map_map. apply map_ext. intros j. rewrite !length_app. simpl. f_equal. lia.
  - destruct s as [|c s]; [reflexivity|]. rewrite IH.
    change (c :: ow_seq s ?M) with ([c] ++ ow_seq s M). rewrite <- ow_seq_shift.
    rewrite !map_map. reflexivity.
Qed.

Hypothesis Hhex : Forall (fun x => is_hex_lower x = true) h.

Lemma wins_valid (f : nat) : forall s, Forall (vwin s) (map (fun j => (j, h)) (wins_fuel f r s)).
Proof.
  induction f as [|f IH]; intros s; simpl; [constructor|].
  destruct (re_match r s) as [[cs rest]|] eqn:E.
  - destruct (List.length rest <? List.length s); [|constructor].
    destruct (Hshape _ _ _ E) as (g1 & W & g2 & -> & H1 & H2 & [HW HWx] & u & Hu).
    simpl. constructor.
    + rewrite H1. split; [split; [rewrite !length_app; simpl; lia|exact Hh]|].
      split; [exact Hhex|]. simpl. split; [rewrite Hu, length_app; simpl; lia|]. split.
      * rewrite Hu, <- app_assoc, nth_error_app2 by (rewrite length_app; simpl; lia).
        rewrite length_app. simpl. replace (List.length u + 1 - 1 - List.length u) with 0 by lia.
        reflexivity.
      * intros k Hk. rewrite nth_error_app2 by lia. rewrite nth_error_app1 by lia.
        replace (List.length g1 + k - List.length g1) with k by lia.
        destruct (nth_error W k) as [x|] eqn:Ex.
        -- exists x. split; [reflexivity|]. rewrite Forall_forall in HWx. apply HWx.
           eapply nth_error_In. exact Ex.
        -- apply nth_error_None in Ex. lia.
    + replace (g1 ++ W ++ g2 ++ rest) with ((g1 ++ W ++ g2) ++ rest) by (rewrite <- !app_assoc; reflexivity).
      replace (List.length ((g1 ++ W ++ g2) ++ rest) - List.length rest)
        with (List.length (g1 ++ W ++ g2)) by (rewrite !length_app; lia).
      apply vwin_map_shift. apply IH.
  - destruct s as [|c s]; [constructor|].
    exact (vwin_map_shift [c] s h _ (IH s)).
Qed.

End Shape.

Lemma last_in_some (L : list (nat * pystr)) (p : nat) : forall acc jh,
  last_in L p acc = Some jh -> (In jh L /\ in_win jh p = true) \/ acc = Some jh.
Proof.
  induction L as [|a L IH]; simpl; intros acc jh H; [right; exact H|].
  destruct (IH _ _ H) as [[Hi Hw]|Ha]; [left; split; [right|]; assumption|].
  destruct (in_win a p) eqn:Ew.
  - injection Ha as <-. left. split; [left; reflexivity|exact Ew].
  - right. exact Ha.
Qed.

Lemma win_hex (c : pystr) (jh : nat * pystr) (p : nat) :
  vwin c jh -> in_win jh p = true ->
  (exists x, nth_error (snd jh) (p - fst jh) = Some x /\ is_hex_lower x = true) /\
  (exists y, nth_error c p = Some y /\ is_hex_lower y = true).
Proof.
  intros [[Hf Hl] [Hx [H1 [Hc Hk]]]] Hw. unfold in_win in Hw.
  apply andb_true_iff in Hw. destruct Hw as [Hw1 Hw2].
  apply Nat.leb_le in Hw1. apply Nat.ltb_lt in Hw2. split.
  - destruct (nth_error (snd jh) (p - fst jh)) as [x|] eqn:E.
    + exists x. split; [reflexivity|]. rewrite Forall_forall in Hx. apply Hx.
      eapply nth_error_In. exact E.
    + apply nth_error_None in E. lia.
  - destruct (Hk (p - fst jh) ltac:(lia)) as (y & Ey & Hy). exists y.
    replace p with (fst jh + (p - fst jh)) by lia. auto.
Qed.

Lemma F2_of_nth (l1 l2 : pystr) :
  List.length l1 = List.length l2 ->
  (forall i a b, nth_error l1 i = Some a -> nth_error l2 i = Some b -> crel a b) ->
  Forall2 crel l1 l2.
Proof.
  revert l2; induction l1 as [|x l1 IH]; intros [|y l2] Hl H; simpl in Hl;
    try discriminate; constructor.
  - apply (H 0); reflexivity.
  - apply IH; [lia|]. intros i. apply (H (S i)).
Qed.

(** overwriting digests that follow a [:] with digests keeps the text in
    the class of texts that are matched alike *)
Lemma class_ow (c : pystr) (L : list (nat * pystr)) :
  Forall (vwin c) L ->
  Forall2 crel (ow_seq c L) c /\
  (forall i, nth_error (ow_seq c L) i <> nth_error c i ->
     colon_run (ow_seq c L) i /\ colon_run c i).
Proof.
  intros HL.
  assert (HFits : Forall (fits (List.length c)) L).
  { eapply Forall_impl; [|exact HL]. intros jh H. apply H. }
  assert (HN := fun p => nth_ow_seq L c p HFits).
  assert (Hwin : forall p jh, last_in L p None = Some jh -> vwin c jh /\ in_win jh p = true).
  { intros p jh E. destruct (last_in_some L p None jh E) as [[Hi Hw]|Ha]; [|discriminate Ha].
    split; [rewrite Forall_forall in HL; apply HL; exact Hi|exact Hw]. }
  assert (Hhex : forall q y, nth_error c q = Some y -> is_hex_lower y = true ->
            exists x, nth_error (ow_seq c L) q = Some x /\ is_hex_lower x = true).
  { intros q y Ey Hy. rewrite HN. destruct (last_in L q None) as [jh|] eqn:E; [|exists y; auto].
    destruct (Hwin q jh E) as [Hv Hw]. exact (proj1 (win_hex c jh q Hv Hw)). }
  split.
  - apply F2_of_nth; [apply ow_seq_length; exact HFits|]. intros i a b Ea Eb.
    rewrite HN in Ea. destruct (last_in L i None) as [jh|] eqn:E.
    + destruct (Hwin i jh E) as [Hv Hw].
      destruct (win_hex c jh i Hv Hw) as [(x & Ex & Hx) (y & Ey & Hy)].
      rewrite Ea in Ex. injection Ex as ->. rewrite Eb in Ey. injection Ey as ->.
      right. auto.
    + left. congruence.
  - intros i Hne. pose proof (HN i) as Hi.
    destruct (last_in L i None) as [jh|] eqn:E; [|rewrite Hi in Hne; exfalso; apply Hne; reflexivity].
    destruct (Hwin i jh E) as [Hv Hw].
    pose proof Hv as [[Hf Hl] [Hx [H1 [Hc Hk]]]].
    unfold in_win in Hw. apply andb_true_iff in Hw. destruct Hw as [Hw1 Hw2].
    apply Nat.leb_le in Hw1. apply Nat.ltb_lt in Hw2.
    assert (Hcr : colon_run c i).
    { exists (fst jh). split; [lia|]. split; [exact Hc|]. intros q Hq.
      destruct (Hk (q - fst jh) ltac:(lia)) as (y & Ey & Hy). exists y.
      replace q with (fst jh + (q - fst jh)) by lia. auto. }
    split; [|exact Hcr].
    exists (fst jh). split; [lia|]. split.
    + rewrite HN. destruct (last_in L (fst jh - 1) None) as [jh'|] eqn:E'; [|exact Hc].
      exfalso. destruct (Hwin _ jh' E') as [Hv' Hw'].
      destruct (win_hex c jh' _ Hv' Hw') as [_ (y & Ey & Hy)].
      rewrite Hc in Ey. injection Ey as <-. vm_compute in Hy. discriminate Hy.
    + intros q Hq. destruct (Hk (q - fst jh) ltac:(lia)) as (y & Ey & Hy).
      apply (Hhex q y); [|exact Hy].
      replace q with (fst jh + (q - fst jh)) by lia. exact Ey.
Qed.

Import MatchFacts MatchRel.

Lemma arm_win_shape (N s : pystr) cs rest :
  re_match (Arm.update_re N) s = Some (cs, rest) ->
  exists g1 W g2, s = g1 ++ W ++ g2 ++ rest /\ group 1 cs = g1 /\ group 2 cs = g2 /\
    UpdateFrame.hex64 W /\ exists u, g1 = u ++ [":"%char].
Proof.
  intros H. apply UpdateFrame.update_match_shape in H;
    [|rewrite UpdateFrame.no_groups_lits; simpl; rewrite !UpdateFrame.no_groups_lits; reflexivity].
  destruct H as (g1 & W & g2 & -> & HX & HW & H1 & H2).
  exists g1, W, g2. split; [reflexivity|]. split; [exact H1|]. split; [exact H2|].
  split; [exact HW|].
  apply LineFacts.mrel_lits in HX. destruct HX as (p1 & -> & HX). cbn [mrel ws_plus] in HX.
  destruct HX as (w0 & p2 & cs1 & -> & _ & HX).
  apply LineFacts.mrel_lits in HX. destruct HX as (p3 & -> & HX).
  apply LineFacts.mrel_lits in HX. destruct HX as (p4 & -> & HX).
  apply LineFacts.mrel_lits in HX. destruct HX as (p5 & -> & HX).
  cbn [mrel lang] in HX. destruct HX as [_ ->].
  exists (S_ "FROM" ++ w0 ++ S_ "stagex/" ++ N ++ S_ "@sha256").
  rewrite app_nil_r, <- !app_assoc. reflexivity.
Qed.

Lemma x86_win_shape (N s : pystr) cs rest :
  re_match (X86.update_re N) s = Some (cs, rest) ->
  exists g1 W g2, s = g1 ++ W ++ g2 ++ rest /\ group 1 cs = g1 /\ group 2 cs = g2 /\
    UpdateFrame.hex64 W /\ exists u, g1 = u ++ [":"%char].
Proof.
  intros H. apply UpdateFrame.update_match_shape in H;
    [|rewrite UpdateFrame.no_groups_lits; simpl; rewrite !UpdateFrame.no_groups_lits; reflexivity].
  destruct H as (g1 & W & g2 & -> & HX & HW & H1 & H2).
  exists g1, W, g2. split; [reflexivity|]. split; [exact H1|]. split; [exact H2|].
  split; [exact HW|].
  apply LineFacts.mrel_lits in HX. destruct HX as (p1 & -> & HX). cbn [mrel ws_plus] in HX.
  destruct HX as (w0 & p2 & cs1 & -> & _ & HX).
  cbn [mrel] in HX. destruct HX as (P & p3 & cs2 & -> & _ & HX).
  apply LineFacts.mrel_lits in HX. destruct HX as (p4 & -> & HX).
  apply LineFacts.mrel_lits in HX. destruct HX as (p5 & -> & HX).
  cbn [mrel lang] in HX. destruct HX as [_ ->].
  exists (S_ "FROM" ++ w0 ++ P ++ N ++ S_ "@sha256").
  rewrite app_nil_r, <- !app_assoc. reflexivity.
Qed.

(** an entry of the update map: an image name without [:], as
    [extract_stagex_images] produces, and a 64-digit lowercase digest *)
Definition good_update (kv : pystr * pystr) : Prop :=
  ~ In ":"%char (fst kv) /\ UpdateFrame.hex64 (snd kv).

Section Idem.
Variable U : pystr -> regex.
Hypothesis U_sim : forall N X Y, ~ In ":"%char N -> Forall2 crel X Y ->
  (forall i, nth_error X i <> nth_error Y i -> colon_run X i /\ colon_run Y i) ->
  sim X Y (U N) (fun _ => True) (fun _ => True).
Hypothesis U_shape : forall N s cs rest, re_match (U N) s = Some (cs, rest) ->
  exists g1 W g2, s = g1 ++ W ++ g2 ++ rest /\ group 1 cs = g1 /\ group 2 cs = g2 /\
    UpdateFrame.hex64 W /\ exists u, g1 = u ++ [":"%char].

(** the digests [apply_updates] overwrites, found on the original text *)
Fixpoint all_wins (upd : list (pystr * pystr)) (c : pystr) : list (nat * pystr) :=
  match upd with
  | [] => []
  | kv :: upd' => map (fun j => (j, snd kv)) (wins (U (fst kv)) c) ++ all_wins upd' c
  end.

Lemma sub_class (N h c : pystr) (L : list (nat * pystr)) :
  ~ In ":"%char N -> UpdateFrame.hex64 h -> Forall (vwin c) L ->
  re_sub (U N) (repl_of h) (ow_seq c L) = ow_seq c (L ++ map (fun j => (j, h)) (wins (U N) c)).
Proof.
  intros HN [Hh Hhx] HL. destruct (class_ow c L HL) as [HF HD].
  unfold re_sub, wins. rewrite (sub_as_ow (U N) h Hh (U_shape N)).
  rewrite (ow_seq_length L c) by (eapply Forall_impl; [|exact HL]; intros jh H; apply H).
  pose proof (wins_same _ _ (U N) HF HD (U_sim N _ _ HN HF HD) (S (List.length c)) 0) as E.
  cbn [skipn] in E. rewrite E, ow_seq_app. reflexivity.
Qed.

Lemma all_wins_valid (upd : list (pystr * pystr)) (c : pystr) :
  Forall good_update upd -> Forall (vwin c) (all_wins upd c).
Proof.
  induction upd as [|kv upd IH]; intros Hg; simpl; [constructor|].
  inversion Hg as [|? ? [HN [Hl Hx]] Hg']; subst.
  apply Forall_app. split; [|exact (IH Hg')].
  exact (wins_valid (U (fst kv)) (snd kv) Hl (U_shape _) Hx _ c).
Qed.

Lemma apply_class (upd : list (pystr * pystr)) (c : pystr) :
  Forall good_update upd -> forall L, Forall (vwin c) L ->
  apply_updates U upd (ow_seq c L) = ow_seq c (L ++ all_wins upd c).
Proof.
  induction upd as [|kv upd IH]; intros Hg L HL.
  - simpl. rewrite app_nil_r. reflexivity.
  - inversion Hg as [|? ? [HN Hh] Hg']; subst. unfold apply_updates in *. simpl.
    rewrite (sub_class (fst kv) (snd kv) c L HN Hh HL).
    rewrite IH; [rewrite <- app_assoc; reflexivity|exact Hg'|].
    apply Forall_app. split; [exact HL|]. destruct Hh as [Hl Hx].
    exact (wins_valid _ _ Hl (U_shape _) Hx _ c).
Qed.

Lemma apply_twice (upd : list (pystr * pystr)) (c : pystr) :
  Forall good_update upd -> apply_updates U upd (apply_updates U upd c) = apply_updates U upd c.
Proof.
  intros Hg. pose proof (apply_class upd c Hg [] (Forall_nil _)) as E0.
  change (ow_seq c []) with c in E0. rewrite app_nil_l in E0. rewrite E0.
  rewrite (apply_class upd c Hg _ (all_wins_valid upd c Hg)).
  apply ow_seq_twice. eapply Forall_impl; [|exact (all_wins_valid upd c Hg)].
  intros jh H. apply H.
Qed.

End Idem.

(** a map whose first name embeds the digest that its second entry writes *)
Definition digest_in_name_text : pystr :=
  S_ "FROM stagex/a@sha256:" ++ hexrun "a"%char ++ S_ " AS x FROM stagex/b@sha256:" ++
  hexrun "b"%char ++ S_ " AS y".

Definition digest_in_name_updates : list (pystr * pystr) :=
  [(S_ "a@sha256:" ++ hexrun "2"%char ++ S_ " AS x FROM stagex/b", hexrun "1"%char);
   (S_ "a", hexrun "2"%char)].

Lemma hexrun_hex64 (c : ascii) : is_hex_lower c = true -> UpdateFrame.hex64 (hexrun c).
Proof.
  intros Hc. split; [reflexivity|]. apply Forall_forall. intros x Hx.
  unfold hexrun in Hx. apply repeat_spec in Hx. subst. exact Hc.
Qed.

(** C6 (amended): when no name of the update map contains [:] (the names
    [extract_stagex_images] returns never do) and every value is a 64-digit
    lowercase digest, applying the map a second time, in either script,
    leaves the content of the first application unchanged, so a second run
    of [update_containerfile] on the rewritten file prints
    "No changes needed." and writes nothing. *)
Theorem update_twice_same_content (updates : list (pystr * pystr)) (content : pystr)
  (fs : fsys) (path : pystr) :
  Forall good_update updates ->
  apply_updates Arm.update_re updates (apply_updates Arm.update_re updates content) =
    apply_updates Arm.update_re updates content /\
  apply_updates X86.update_re updates (apply_updates X86.update_re updates content) =
    apply_updates X86.update_re updates content /\
  (fs path = Some (apply_updates Arm.update_re updates content) ->
   Arm.update_containerfile fs path updates = PyOk [EPrint (S_ "No changes needed.")]) /\
  (fs path = Some (apply_updates X86.update_re updates content) ->
   X86.update_containerfile fs path updates = PyOk [EPrint (S_ "No changes needed.")]).
Proof.
  intros Hg.
  assert (HA := apply_twice Arm.update_re (fun N X Y HN HF HD => sim_arm X Y HF HD N HN)
                  arm_win_shape updates content Hg).
  assert (HX := apply_twice X86.update_re (fun N X Y HN HF HD => sim_x86 X Y HF HD N HN)
                  x86_win_shape updates content Hg).
  split; [exact HA|]. split; [exact HX|]. split; intros Hf.
  - unfold Arm.update_containerfile, update_containerfile. rewrite Hf. cbv zeta.
    rewrite HA, str_eqb_refl. reflexivity.
  - unfold X86.update_containerfile, update_containerfile. rewrite Hf. cbv zeta.
    rewrite HX, str_eqb_refl. reflexivity.
Qed.

Lemma update_twice_same_content_witness :
  Forall good_update [(S_ "foo", hexrun "b"%char)] /\
  apply_updates Arm.update_re [(S_ "foo", hexrun "b"%char)]
    (apply_updates Arm.update_re [(S_ "foo", hexrun "b"%char)] sample_file) =
  apply_updates Arm.update_re [(S_ "foo", hexrun "b"%char)] sample_file.
Proof.
  assert (H : Forall good_update [(S_ "foo", hexrun "b"%char)]).
  { constructor; [|constructor]. split.
    - simpl. intros [E|[E|[E|[]]]]; discriminate E.
    - apply hexrun_hex64. reflexivity. }
  split; [exact H|].
  exact (proj1 (update_twice_same_content _ sample_file (fun _ => None) [] H)).
Defined.

(** C6 counterexample: with a name that contains a digest, the second
    application rewrites a digest the first one left alone, in both scripts,
    although every value is a 64-digit lowercase digest. *)
Lemma update_twice_digest_in_name :
  Forall (fun kv => UpdateFrame.hex64 (snd kv)) digest_in_name_updates /\
  apply_updates Arm.update_re digest_in_name_updates
    (apply_updates Arm.update_re digest_in_name_updates digest_in_name_text) <>
  apply_updates Arm.update_re digest_in_name_updates digest_in_name_text /\
  apply_updates X86.update_re digest_in_name_updates
    (apply_updates X86.update_re digest_in_name_updates digest_in_name_text) <>
  apply_updates X86.update_re digest_in_name_updates digest_in_name_text.
Proof.
  split; [constructor; [|constructor; [|constructor]]; apply hexrun_hex64; reflexivity|].
  split; intros E.
  - assert (B : str_eqb (apply_updates Arm.update_re digest_in_name_updates
              (apply_updates Arm.update_re digest_in_name_updates digest_in_name_text))
              (apply_updates Arm.update_re digest_in_name_updates digest_in_name_text) = false)
      by (vm_compute; reflexivity).
    rewrite E, str_eqb_refl in B. discriminate B.
  - assert (B : str_eqb (apply_updates X86.update_re digest_in_name_updates
              (apply_updates X86.update_re digest_in_name_updates digest_in_name_text))
              (apply_updates X86.update_re digest_in_name_updates digest_in_name_text) = false)
      by (vm_compute; reflexivity).
    rewrite E, str_eqb_refl in B. discriminate B.
Qed.

End Windows.

(** ** The extracted lines, with the matcher's order of preference *)
Module ExtractSpec.
Import MatchFacts MatchRel LineFacts Windows.

Lemma run_len_le (p : ascii -> bool) (a b : pystr) (c : ascii) :
  p c = false -> run_len p (a ++ c :: b) <= List.length a.
Proof.
  intros Hc. induction a as [|x a IH]; simpl; [rewrite Hc; lia|].
  destruct (p x); lia.
Qed.

Lemma run_len_exact (p : ascii -> bool) (a b : pystr) (c : ascii) :
  Forall (fun x => p x = true) a -> p c = false -> run_len p (a ++ c :: b) = List.length a.
Proof.
  intros Ha Hc. induction Ha as [|x a Hx _ IH]; simpl; [rewrite Hc; reflexivity|].
  rewrite Hx, IH. reflexivity.
Qed.

Lemma decl_tail_last t n sep ref alias :
  decl_tail t n sep ref alias -> forall x, t <> x ++ [nl].
Proof.
  intros (w1 & w2 & -> & _ & _ & _ & _ & _ & [Ha1 Ha2]) x E.
  destruct (exists_last Ha1) as (a' & c & ->).
  rewrite !app_assoc, app_comm_cons, app_assoc in E. apply app_inj_tail in E. destruct E as [_ ->].
  apply Forall_app in Ha2. destruct Ha2 as [_ Ha2]. inversion Ha2 as [|? ? H _].
  unfold alias_class in H. rewrite Ascii.eqb_refl in H. discriminate H.
Qed.

Lemma decl_tail_slash t n sep ref alias :
  decl_tail t n sep ref alias -> decl_tail ("/"%char :: t) ("/"%char :: n) sep ref alias.
Proof.
  intros (w1 & w2 & -> & [_ Hn] & Hs & Hr & Hw1 & Hw2 & Ha).
  exists w1, w2. split; [reflexivity|]. split; [|auto].
  split; [discriminate|]. constructor; [reflexivity|exact Hn].
Qed.

Lemma tail_some x n sep ref alias :
  decl_tail x n sep ref alias -> exists y, mt extract_tail x [] (fun cs s => Some (cs, s)) = Some y.
Proof.
  intros Hd.
  assert (Hm : mrel extract_tail x [] [] [(3, alias); (2, ref); (1, n)])
    by (apply mrel_tail; exists n, sep, ref, alias; auto).
  destruct (mt_complete _ _ _ _ _ (fun cs s => Some (cs, s)) _ Hm eq_refl) as [y Hy].
  rewrite app_nil_r in Hy. eauto.
Qed.

Lemma tail_result x n sep ref alias cs rest :
  decl_tail x n sep ref alias ->
  mt extract_tail x [] (fun cs s => Some (cs, s)) = Some (cs, rest) ->
  exists n' alias', cs = [(3, alias'); (2, ref); (1, n')].
Proof.
  intros Hd Hm. destruct (mt_sound_rel _ _ _ _ _ Hm) as (pre & s' & cs' & Hx & Hk & Hr).
  injection Hk as <- <-. apply mrel_tail in Hr.
  destruct Hr as (n' & sep' & ref' & alias' & Hd' & [->| ->] & ->).
  - rewrite app_nil_r in Hx. subst pre.
    destruct (decl_tail_unique _ _ _ _ _ _ _ _ _ Hd Hd') as [_ <-]. eauto.
  - exfalso. exact (decl_tail_last _ _ _ _ _ Hd _ Hx).
Qed.

(** with a non-empty registry prefix [q/] (no [/] in [q]), the x86 pattern
    reads the declaration after the first [/]: the greedy [\s+] and
    [[^/]+] stop there, so the tail is matched on [t] (or on [/t] when [q]
    is blank) *)
Lemma x86_prefixed_run (w0 q t n : pystr) sep ref alias :
  plus_ok is_space w0 -> Forall (fun c => not_class (S_ "/") c = true) q ->
  decl_tail t n sep ref alias ->
  exists x n', (x = t \/ x = "/"%char :: t) /\ decl_tail x n' sep ref alias /\
    mt X86.extract_re (S_ "FROM" ++ w0 ++ q ++ "/"%char :: t) [] (fun cs s => Some (cs, s))
    = mt extract_tail x [] (fun cs s => Some (cs, s)).
Proof.
  intros [Hw0 Hw] Hq Hd.
  set (K := fun cs s => Some (cs, s) : option mres).
  assert (Hwq : Forall (fun c => not_class (S_ "/") c = true) (w0 ++ q)).
  { apply Forall_app. split; [|exact Hq]. eapply Forall_impl; [exact space_not_slash|exact Hw]. }
  set (u := (w0 ++ q) ++ "/"%char :: t).
  set (j0 := run_len is_space u).
  assert (Hj1 : 1 <= j0).
  { unfold j0, u. destruct w0 as [|c w0]; [congruence|]. inversion Hw; subst.
    simpl. rewrite H1. lia. }
  assert (Hj2 : j0 <= List.length (w0 ++ q)) by (apply run_len_le; reflexivity).
  set (v' := skipn j0 (w0 ++ q)).
  assert (Hv : skipn j0 u = v' ++ "/"%char :: t).
  { unfold u, v'. rewrite skipn_app. replace (j0 - List.length (w0 ++ q)) with 0 by lia.
    reflexivity. }
  assert (Hv' : Forall (fun c => not_class (S_ "/") c = true) v')
    by (unfold v'; rewrite <- (firstn_skipn j0 (w0 ++ q)) in Hwq;
        apply Forall_app in Hwq; exact (proj2 Hwq)).
  (* the reading from the longest [\s+] *)
  assert (Hpre : exists x n', (x = t \/ x = "/"%char :: t) /\ decl_tail x n' sep ref alias /\
     mt (RSeq X86.reg_prefix extract_tail) (skipn j0 u) [] K = mt extract_tail x [] K).
  { rewrite Hv. clearbody v'. unfold X86.reg_prefix. cbn [mt].
    destruct (tail_some _ _ _ _ _ Hd) as [y Hy].
    destruct (list_eq_dec Ascii.ascii_dec v' []) as [->|Hne].
    - (* [q] blank: neither alternative applies, the group is skipped *)
      exists ("/"%char :: t), ("/"%char :: n). split; [right; reflexivity|].
      split; [exact (decl_tail_slash _ _ _ _ _ Hd)|].
      rewrite mt_lits. simpl. reflexivity.
    - exists t, n. split; [left; reflexivity|]. split; [exact Hd|].
      rewrite mt_lits.
      destruct (startswith (v' ++ "/"%char :: t) (S_ "${STAGEX_REG}/")) eqn:Es.
      + (* [${STAGEX_REG}/] *)
        assert (E14 : skipn (List.length (S_ "${STAGEX_REG}/")) (v' ++ "/"%char :: t) = t).
        { pose proof (startswith_app _ _ Es) as E.
          change (S_ "${STAGEX_REG}/" ++ ?z) with (S_ "${STAGEX_REG}" ++ "/"%char :: z) in E.
          assert (Hs : Forall (fun c => not_class (S_ "/") c = true) (S_ "${STAGEX_REG}"))
            by (repeat constructor).
          destruct (span_unique _ v' (S_ "${STAGEX_REG}") _ _ "/"%char "/"%char
                      Hv' Hs eq_refl eq_refl E) as (_ & _ & E2).
          exact (eq_sym E2). }
        cbn [mt]. rewrite E14. unfold K in Hy |- *. rewrite Hy. reflexivity.
      + (* [[^/]+/]: the run stops at the first [/] *)
        cbn [mt]. rewrite (run_len_exact _ v' t "/"%char Hv' eq_refl).
        destruct (List.length v') as [|m] eqn:El;
          [apply length_zero_iff_nil in El; contradiction|].
        cbn [try_down]. rewrite <- El, skipn_app_length.
        cbn [mt]. rewrite Ascii.eqb_refl. unfold K in Hy |- *. rewrite Hy. reflexivity. }
  destruct Hpre as (x & n' & Hxt & Hdx & Hx).
  exists x, n'. split; [exact Hxt|]. split; [exact Hdx|].
  unfold X86.extract_re. rewrite mt_lits, startswith_self, skipn_app_length.
  unfold ws_plus. cbn [mt].
  replace (w0 ++ q ++ "/"%char :: t) with u by (unfold u; rewrite app_assoc; reflexivity).
  fold j0. destruct (tail_some _ _ _ _ _ Hdx) as [y Hy].
  destruct j0 as [|m] eqn:Ej; [lia|]. cbn [try_down].
  fold K.
  change (mt X86.reg_prefix (skipn (S m) u) [] (fun cs' s' => mt extract_tail s' cs' K))
    with (mt (RSeq X86.reg_prefix extract_tail) (skipn (S m) u) [] K).
  rewrite Hx. unfold K in Hy |- *. rewrite Hy. reflexivity.
Qed.

Lemma not_comment_line (raw w : pystr) :
  strip raw = S_ "FROM" ++ w -> startswith (strip raw) (S_ "#") || str_eqb (strip raw) [] = false.
Proof. intros ->. reflexivity. Qed.

Lemma x86_complete_prefixed (raw w0 q t n : pystr) (sep : ascii) (d alias : pystr) :
  strip raw = S_ "FROM" ++ w0 ++ (q ++ S_ "/") ++ t -> plus_ok is_space w0 ->
  Forall (fun c => not_class (S_ "/") c = true) q ->
  decl_tail t n sep (S_ "sha256:" ++ d) alias ->
  exists n', extract_line X86.extract_re raw = Some (n', d, strip raw).
Proof.
  intros Hl Hw Hq Hd.
  destruct (x86_prefixed_run w0 q t n sep _ alias Hw Hq Hd) as (x & n1 & _ & Hdx & Hm).
  destruct (tail_some _ _ _ _ _ Hdx) as [[cs rest] Hy].
  destruct (tail_result _ _ _ _ _ _ _ Hdx Hy) as (n' & alias' & ->).
  exists n'. apply (extract_line_of_match _ _ _ _ alias' rest).
  - exact (not_comment_line _ _ Hl).
  - rewrite Hl.
    replace (w0 ++ (q ++ S_ "/") ++ t) with (w0 ++ q ++ "/"%char :: t)
      by (rewrite <- app_assoc; reflexivity).
    rewrite Hm. exact Hy.
Qed.

Lemma x86_complete_bare (raw w0 t n : pystr) (sep : ascii) (d alias : pystr) :
  strip raw = S_ "FROM" ++ w0 ++ t -> plus_ok is_space w0 ->
  decl_tail t n sep (S_ "sha256:" ++ d) alias ->
  (exists n', extract_line X86.extract_re raw = Some (n', d, strip raw)) \/
  (In "/"%char t /\ exists w0' P' t' n' sep' ref' alias', P' <> [] /\ x86_prefix P' /\
     strip raw = S_ "FROM" ++ w0' ++ P' ++ t' /\ decl_tail t' n' sep' ref' alias').
Proof.
  intros Hl Hw Hd.
  assert (Hm : mrel X86.extract_re (strip raw) [] [] [(3, alias); (2, S_ "sha256:" ++ d); (1, n)]).
  { apply mrel_x86. exists w0, [], t, n, sep, (S_ "sha256:" ++ d), alias.
    split; [exact Hl|split; [exact Hw|split; [left; reflexivity|split; [exact Hd|auto]]]]. }
  destruct (mt_complete _ _ _ _ _ (fun cs s => Some (cs, s)) _ Hm eq_refl) as [[cs rest] Hx].
  rewrite app_nil_r in Hx.
  destruct (x86_match_shape _ _ _ Hx)
    as (w0' & P' & t' & n' & sep' & ref' & alias' & Hl' & Hw' & Hp' & Hd' & ->).
  destruct (x86_prefix_slash _ Hp') as [->|(u & -> & Hu)].
  - (* the pattern reads the line without a prefix too: same reference *)
    left. exists n'. apply (extract_line_of_match _ _ _ _ alias' rest); [|].
    + exact (not_comment_line _ _ Hl).
    + replace (S_ "sha256:" ++ d) with ref'; [exact Hx|].
      rewrite Hl in Hl'. apply app_inv_head in Hl'. simpl in Hl'.
      destruct Hd as (w1 & w2 & -> & [_ Hn] & Hs & [_ Hr] & Hw1 & _).
      destruct Hd' as (w1' & w2' & -> & [_ Hn'] & Hs' & [_ Hr'] & Hw1' & _).
      assert (Ha : Forall (fun c => not_class (S_ "@:") c = true) (w0 ++ n)).
      { apply Forall_app; split; auto.
        eapply Forall_impl; [exact space_not_at_colon|exact (proj2 Hw)]. }
      assert (Ha' : Forall (fun c => not_class (S_ "@:") c = true) (w0' ++ n')).
      { apply Forall_app; split; auto.
        eapply Forall_impl; [exact space_not_at_colon|exact (proj2 Hw')]. }
      rewrite !app_assoc in Hl'. rewrite <- !app_assoc in Hl'.
      rewrite (app_assoc w0 n), (app_assoc w0' n') in Hl'.
      destruct (span_unique _ _ _ _ _ _ _ Ha Ha' Hs Hs' Hl') as (_ & _ & E).
      exact (ref_span _ _ _ _ _ _ Hr' Hr Hw1' Hw1 (eq_sym E)).
  - (* the pattern reads it with a prefix ending in a [/] of [t] *)
    right. split.
    + assert (E : w0 ++ t = w0' ++ (u ++ S_ "/") ++ t')
        by (rewrite Hl in Hl'; exact (app_inv_head _ _ _ Hl')).
      assert (Hin : In "/"%char (w0 ++ t)).
      { rewrite E. apply in_or_app. right. apply in_or_app. left. apply in_or_app.
        right. left. reflexivity. }
      apply in_app_or in Hin. destruct Hin as [Hin|Hin]; [|exact Hin].
      exfalso. pose proof (proj1 (Forall_forall _ _) (proj2 Hw) _ Hin) as Hs.
      discriminate Hs.
    + exists w0', (u ++ S_ "/"), t', n', sep', ref', alias'.
      split; [destruct u; discriminate|]. split; [exact Hp'|]. split; [exact Hl'|exact Hd'].
Qed.

Lemma ref_class_char (c : ascii) : ref_class c = true -> ExtractFacts.ref_char c.
Proof.
  unfold ref_class, ExtractFacts.ref_char, not_class, not_in. simpl.
  destruct (Ascii.eqb c "@"%char), (is_space c); simpl; intros H; try discriminate H.
  split; reflexivity.
Qed.

Lemma stagex_prefix : x86_prefix (S_ "stagex/").
Proof.
  right. right. exists (S_ "stagex"). split; [reflexivity|].
  split; [discriminate|repeat constructor].
Qed.

(** C3 (as amended): the digest of an entry of either extractor is the
    rest of the line's reference token after [sha256:]: the line, stripped,
    reads [FROM<ws>P N s sha256:D<ws>AS<ws>A] with the entry's name [N]
    and digest [D] ([P] the registry prefix, [stagex/] for
    [tee/update_stagex_hashes.py]; [s] one of [@] [:]), so [D] holds no [@]
    and no whitespace; it may be empty, and neither its length nor its
    characters are checked further. *)
Theorem extract_digest_decomposed (text : pystr) (e : entry) :
  In e (Arm.extract_stagex_images text) \/ In e (X86.extract_stagex_images text) ->
  exists raw w0 P t sep alias,
    In raw (readlines text) /\ snd e = strip raw /\
    strip raw = S_ "FROM" ++ w0 ++ P ++ t /\ plus_ok is_space w0 /\ x86_prefix P /\
    decl_tail t (fst (fst e)) sep (S_ "sha256:" ++ snd (fst e)) alias /\
    Forall ExtractFacts.ref_char (snd (fst e)).
Proof.
  intros H.
  assert (Hd : exists raw w0 P t sep alias,
    In raw (readlines text) /\ snd e = strip raw /\
    strip raw = S_ "FROM" ++ w0 ++ P ++ t /\ plus_ok is_space w0 /\ x86_prefix P /\
    decl_tail t (fst (fst e)) sep (S_ "sha256:" ++ snd (fst e)) alias).
  { destruct H as [H|H]; apply ExtractFacts.in_extract_images in H;
      destruct H as (raw & Hr & Hx).
    - apply arm_extract_line in Hx.
      destruct Hx as (n & d & (w0 & t & sep & alias & Hl & Hw & Hdt) & ->).
      exists raw, w0, (S_ "stagex/"), t, sep, alias. simpl.
      split; [exact Hr|]. split; [reflexivity|]. split; [exact Hl|].
      split; [exact Hw|]. split; [exact stagex_prefix|exact Hdt].
    - apply x86_extract_line_sound in Hx.
      destruct Hx as (P & n & d & (w0 & t & sep & alias & Hl & Hw & Hp & Hdt) & ->).
      exists raw, w0, P, t, sep, alias. simpl.
      split; [exact Hr|]. split; [reflexivity|]. split; [exact Hl|].
      split; [exact Hw|]. split; [exact Hp|exact Hdt]. }
  destruct Hd as (raw & w0 & P & t & sep & alias & H1 & H2 & H3 & H4 & H5 & H6).
  exists raw, w0, P, t, sep, alias. repeat (split; [assumption|]).
  destruct H6 as (w1 & w2 & _ & _ & _ & [_ Hr] & _).
  apply Forall_app in Hr. destruct Hr as [_ Hr].
  eapply Forall_impl; [exact ref_class_char|exact Hr].
Qed.

Lemma extract_digest_decomposed_witness :
  exists raw w0 P t sep alias,
    In raw (readlines (S_ "FROM stagex/foo@sha256:xyz AS a")) /\
    S_ "FROM stagex/foo@sha256:xyz AS a" = strip raw /\
    strip raw = S_ "FROM" ++ w0 ++ P ++ t /\ plus_ok is_space w0 /\ x86_prefix P /\
    decl_tail t (S_ "foo") sep (S_ "sha256:" ++ S_ "xyz") alias /\
    Forall ExtractFacts.ref_char (S_ "xyz").
Proof.
  apply (extract_digest_decomposed (S_ "FROM stagex/foo@sha256:xyz AS a")
           (S_ "foo", S_ "xyz", S_ "FROM stagex/foo@sha256:xyz AS a")).
  left. vm_compute. left. reflexivity.
Defined.

(** C4 (as amended): the extractor goes through the lines in order and
    gives at most one entry per line.  For [tee/update_stagex_hashes.py] a
    line gives an entry exactly when, stripped, it reads
    [FROM<ws>stagex/N s sha256:D<ws>AS<ws>A] (N without [@] or [:], s one of
    [@] [:], [sha256:D] without [@] or whitespace, A without newline);
    the entry is [(N, D, line)].  For [tee/x86/update.py] every entry comes
    from such a line with an optional registry prefix in place of
    [stagex/] ([${STAGEX_REG}/] or a segment without [/] followed by [/]);
    every such line with a prefix gives an entry with digest D, and so
    does every such line without one, unless a [/] after the image name
    lets the pattern read it with a prefix (which it then prefers).
    Comment and blank lines never give an entry. *)
Theorem extract_lines_characterised :
  (forall re text e, In e (extract_images re text) <->
     exists raw, In raw (readlines text) /\ extract_line re raw = Some e) /\
  (forall re a b, extract_images re (a ++ nl :: b) =
     extract_images re (a ++ [nl]) ++ extract_images re b) /\
  (forall raw e, extract_line Arm.extract_re raw = Some e <->
     exists n d, arm_decl (strip raw) n d /\ e = (n, d, strip raw)) /\
  (forall raw e, extract_line X86.extract_re raw = Some e ->
     exists P n d, x86_decl (strip raw) P n d /\ e = (n, d, strip raw)) /\
  (forall raw w0 P t n sep d alias,
     strip raw = S_ "FROM" ++ w0 ++ P ++ t -> plus_ok is_space w0 -> x86_prefix P ->
     decl_tail t n sep (S_ "sha256:" ++ d) alias ->
     (exists n', extract_line X86.extract_re raw = Some (n', d, strip raw)) \/
     (P = [] /\ In "/"%char t /\
      exists w0' P' t' n' sep' ref' alias', P' <> [] /\ x86_prefix P' /\
        strip raw = S_ "FROM" ++ w0' ++ P' ++ t' /\ decl_tail t' n' sep' ref' alias')) /\
  (forall re raw, startswith (strip raw) (S_ "#") = true \/ strip raw = [] ->
     extract_line re raw = None).
Proof.
  split; [exact ExtractFacts.in_extract_images|].
  split; [exact extract_images_split|].
  split; [exact arm_extract_line|].
  split; [exact x86_extract_line_sound|].
  split; [|exact extract_line_comment].
  intros raw w0 P t n sep d alias Hl Hw Hp Hd.
  destruct (x86_prefix_slash _ Hp) as [->|(q & -> & Hq)].
  - destruct (x86_complete_bare raw w0 t n sep d alias Hl Hw Hd) as [H|H]; [left; exact H|].
    right. split; [reflexivity|exact H].
  - left. exact (x86_complete_prefixed raw w0 q t n sep d alias Hl Hw Hq Hd).
Qed.

Lemma extract_lines_characterised_witness :
  (exists n', extract_line X86.extract_re (S_ "FROM localhost:5000/foo@sha256:" ++ hexrun "a" ++ S_ " AS a")
    = Some (n', hexrun "a", strip (S_ "FROM localhost:5000/foo@sha256:" ++ hexrun "a" ++ S_ " AS a"))) \/
  (S_ "localhost:5000/" = [] /\ In "/"%char (S_ "foo@sha256:" ++ hexrun "a" ++ S_ " AS a") /\
   exists w0' P' t' n' sep' ref' alias', P' <> [] /\ x86_prefix P' /\
     strip (S_ "FROM localhost:5000/foo@sha256:" ++ hexrun "a" ++ S_ " AS a")
       = S_ "FROM" ++ w0' ++ P' ++ t' /\ decl_tail t' n' sep' ref' alias').
Proof.
  destruct extract_lines_characterised as (_ & _ & _ & _ & H & _).
  apply (H _ [" "%char] (S_ "localhost:5000/") (S_ "foo@sha256:" ++ hexrun "a" ++ S_ " AS a")
           (S_ "foo") "@"%char (hexrun "a") (S_ "a")).
  - vm_compute. reflexivity.
  - split; [discriminate|repeat constructor].
  - right. right. exists (S_ "localhost:5000"). split; [reflexivity|].
    split; [discriminate|repeat constructor].
  - exists [" "%char], [" "%char]. split; [vm_compute; reflexivity|].
    repeat split; try discriminate; repeat constructor.
Defined.

(** C4 counterexample: [tee/update_stagex_hashes.py] gives no entry for a
    digest-pinned [FROM] line whose image is not under [stagex/]; and
    [tee/x86/update.py] reads a prefix-less declaration of [foo] whose
    alias holds a [/] as a declaration of [y] with another digest. *)
Lemma extract_lines_counterexample :
  Arm.extract_stagex_images (S_ "FROM foo@sha256:" ++ hexrun "a" ++ S_ " AS a") = [] /\
  X86.extract_stagex_images (S_ "FROM foo@sha256:" ++ hexrun "a" ++ S_ " AS a") =
    [(S_ "foo", hexrun "a", S_ "FROM foo@sha256:" ++ hexrun "a" ++ S_ " AS a")] /\
  X86.extract_stagex_images
    (S_ "FROM foo@sha256:" ++ hexrun "a" ++ S_ " AS x/y@sha256:" ++ hexrun "b" ++ S_ " AS z") =
    [(S_ "y", hexrun "b",
      S_ "FROM foo@sha256:" ++ hexrun "a" ++ S_ " AS x/y@sha256:" ++ hexrun "b" ++ S_ " AS z")].
Proof. split; [|split]; vm_compute; reflexivity. Qed.

End ExtractSpec.

(** * Further properties of the three scripts *)

Module FinderExtra.
Import Finder.

(** [n] passes the allow-list test of [filter_instances] *)
Definition allowed (al : option (list pystr)) (n : pystr) : Prop :=
  match al with None => True | Some l => In n l end.

(** an item [(n, d)] passes every test of [filter_instances], with price [p] *)
Definition selected (c : Z) (al : option (list pystr)) (n : pystr) (d : json)
  (p : pyfloat) : Prop :=
  allowed al n /\
  (exists v, get d (S_ "vcpu") JNull = PyOk v /\ eq_int v c = true) /\
  get_linux_price_us_east_1 d = PyOk (Some p) /\
  (exists rg, get d (S_ "regions") (JArr []) = PyOk rg /\
              contains rg (S_ "us-east-1") = PyOk true).

Inductive subseq {A : Type} : list A -> list A -> Prop :=
| subseq_nil : subseq [] []
| subseq_skip x l1 l2 : subseq l1 l2 -> subseq l1 (x :: l2)
| subseq_take x l1 l2 : subseq l1 l2 -> subseq (x :: l1) (x :: l2).

(** a [prices] value with a Shared Linux price in us-east-1 *)
Definition us_east_price : json :=
  JObj [(S_ "Linux", JObj [(S_ "us-east-1", JObj [(S_ "Shared", JStr (S_ "0.096"))])])].

Definition is_overflow (e : exn) : bool :=
  match e with OverflowError => true | _ => false end.

Lemma existsb_str_eqb (n : pystr) (l : list pystr) :
  existsb (str_eqb n) l = true <-> In n l.
Proof.
  rewrite existsb_exists. split.
  - intros (x & Hx & E). apply str_eqb_eq in E. subst. exact Hx.
  - intros H. exists n. split; [exact H|apply str_eqb_refl].
Qed.

Lemma get_raise d k def e : get d k def = PyRaise e -> e = AttributeError.
Proof. destruct d; simpl; intros H; inversion H; reflexivity. Qed.

Lemma contains_raise x k e : contains x k = PyRaise e -> e = TypeError.
Proof. destruct x; simpl; intros H; inversion H; reflexivity. Qed.

Lemma getitem_raise d k e : getitem d k = PyRaise e -> e = KeyError \/ e = TypeError.
Proof.
  destruct d; simpl; intros H; try (inversion H; auto; fail).
  destruct (lookup k kvs); inversion H; auto.
Qed.

Lemma py_float_raise v e :
  py_float v = PyRaise e -> e = ValueError \/ e = TypeError \/ e = OverflowError.
Proof.
  destruct v; simpl; intros H; try (inversion H; auto; fail).
  - destruct (Z.leb float_overflow_bound (Z.abs z)); inversion H; auto.
  - destruct (float_of_str s); inversion H; auto.
Qed.

Lemma price_raise_attr (d : json) (e : exn) :
  get_linux_price_us_east_1 d = PyRaise e -> e = AttributeError \/ e = OverflowError.
Proof.
  unfold get_linux_price_us_east_1. cbv zeta. intros H.
  destruct (get d _ _) as [prices|e1] eqn:G1;
    [|apply get_raise in G1; subst; inversion H; auto].
  destruct (get prices _ _) as [lp|e1] eqn:G2;
    [|apply get_raise in G2; subst; inversion H; auto].
  destruct (get lp _ _) as [u|e1] eqn:G3;
    [|apply get_raise in G3; subst; inversion H; auto].
  destruct (contains u (S_ "Shared")) as [[]|e1] eqn:C1;
    [| |apply contains_raise in C1; subst; discriminate H].
  - destruct (getitem u _) as [v|e1] eqn:I1;
      [|apply getitem_raise in I1; destruct I1; subst; discriminate H].
    destruct (py_float v) as [f|e1] eqn:F1;
      [discriminate H|apply py_float_raise in F1;
                       destruct F1 as [->|[->| ->]]; inversion H; auto].
  - destruct (contains u (S_ "Dedicated")) as [[]|e1] eqn:C2;
      [| discriminate H|apply contains_raise in C2; subst; discriminate H].
    destruct (getitem u _) as [v|e1] eqn:I1;
      [|apply getitem_raise in I1; destruct I1; subst; discriminate H].
    destruct (py_float v) as [f|e1] eqn:F1;
      [discriminate H|apply py_float_raise in F1;
                       destruct F1 as [->|[->| ->]]; inversion H; auto].
Qed.

Lemma filter_step n d rest c al out :
  filter_instances ((n, d) :: rest) c al = PyOk out ->
  exists out', filter_instances rest c al = PyOk out' /\
    ((out = out' /\ forall p, ~ selected c al n d p) \/
     (exists p, out = (n, d, p) :: out' /\ selected c al n d p)).
Proof.
  simpl. intros H.
  destruct (match al with Some al0 => negb (existsb (str_eqb n) al0) | None => false end)
    eqn:Sk.
  { exists out. split; [exact H|]. left. split; [reflexivity|].
    intros p [Ha _]. destruct al as [l|]; [|discriminate Sk].
    apply (proj2 (existsb_str_eqb n l)) in Ha. rewrite Ha in Sk. discriminate. }
  destruct (get d _ JNull) as [v|e] eqn:Gv; [|discriminate H].
  destruct (eq_int v c) eqn:Ev; simpl in H.
  2:{ exists out. split; [exact H|]. left. split; [reflexivity|].
      intros p [_ [(v' & Gv' & Ev') _]].
      assert (E : PyOk v = PyOk v') by (rewrite <- Gv, <- Gv'; reflexivity).
      inversion E; subst.
      congruence. }
  destruct (get_linux_price_us_east_1 d) as [[p|]|e] eqn:Gp; [| |discriminate H].
  2:{ exists out. split; [exact H|]. left. split; [reflexivity|].
      intros p [_ [_ [Hp _]]]. rewrite Gp in Hp. discriminate Hp. }
  destruct (get d _ (JArr [])) as [rg|e] eqn:Gr; [|discriminate H].
  destruct (contains rg _) as [[]|e] eqn:Cr; simpl in H; [| |discriminate H].
  - destruct (filter_instances rest c al) as [tl|e] eqn:Ft; [|discriminate H].
    inversion H; subst. exists tl. split; [reflexivity|]. right. exists p.
    split; [reflexivity|]. split.
    + destruct al as [l|]; simpl; [|exact I].
      apply existsb_str_eqb. apply negb_false_iff. exact Sk.
    + split; [eauto|]. split; [exact Gp|eauto].
  - exists out. split; [exact H|]. left. split; [reflexivity|].
    intros p' [_ [_ [_ (rg' & Gr' & Cr')]]].
    assert (E : PyOk rg = PyOk rg') by (rewrite <- Gr, <- Gr'; reflexivity).
    inversion E; subst.
    assert (E2 : PyOk false = PyOk true) by (rewrite <- Cr, <- Cr'; reflexivity).
    discriminate E2.
Qed.

Lemma filter_raise (insts : list (pystr * json)) c al e :
  filter_instances insts c al = PyRaise e ->
  e = AttributeError \/ e = TypeError \/ e = OverflowError.
Proof.
  induction insts as [|[n d] rest IH]; intros H; simpl in H; [discriminate H|].
  destruct (match al with Some al0 => negb (existsb (str_eqb n) al0) | None => false end);
    [exact (IH H)|].
  destruct (get d _ JNull) as [v|e'] eqn:Gv;
    [|inversion H; subst; left; exact (get_raise _ _ _ _ Gv)].
  destruct (eq_int v c); simpl in H; [|exact (IH H)].
  destruct (get_linux_price_us_east_1 d) as [[p|]|e'] eqn:Gp;
    [| exact (IH H) | inversion H; subst;
                      destruct (price_raise_attr _ _ Gp); auto].
  destruct (get d _ (JArr [])) as [rg|e'] eqn:Gr;
    [|inversion H; subst; left; exact (get_raise _ _ _ _ Gr)].
  destruct (contains rg _) as [[]|e'] eqn:Cr; simpl in H;
    [| exact (IH H) | inversion H; subst; right; left; exact (contains_raise _ _ _ Cr)].
  destruct (filter_instances rest c al) eqn:Ft; [discriminate H|].
  inversion H; subst. apply IH; reflexivity.
Qed.

Lemma get_obj kvs k def :
  get (JObj kvs) k def = PyOk (match lookup k kvs with Some v => v | None => def end).
Proof. reflexivity. Qed.

Lemma contains_obj kvs k :
  contains (JObj kvs) k = PyOk (match lookup k kvs with Some _ => true | None => false end).
Proof. reflexivity. Qed.

Lemma getitem_obj kvs k :
  getitem (JObj kvs) k = match lookup k kvs with Some v => PyOk v | None => PyRaise KeyError end.
Proof. reflexivity. Qed.

(** X2: when the us-east-1 Linux prices have a [Shared] entry that
    [float()] rejects with [ValueError] or [TypeError],
    [get_linux_price_us_east_1] returns [None]: it does not fall back to the
    [Dedicated] entry; when [float()] raises [OverflowError] there (an int
    beyond the range of a double), the error escapes. *)
Theorem linux_price_shared_unparsable (kvs p l u : list (pystr * json)) (v : json) (e : exn) :
  lookup (S_ "prices") kvs = Some (JObj p) ->
  lookup (S_ "Linux") p = Some (JObj l) ->
  lookup (S_ "us-east-1") l = Some (JObj u) ->
  lookup (S_ "Shared") u = Some v -> py_float v = PyRaise e ->
  get_linux_price_us_east_1 (JObj kvs) =
    (if is_overflow e then PyRaise OverflowError else PyOk None).
Proof.
  intros H1 H2 H3 H4 H5. unfold get_linux_price_us_east_1. cbv zeta.
  rewrite get_obj, H1. cbv iota beta.
  rewrite get_obj, H2. cbv iota beta. rewrite get_obj, H3. cbv iota beta.
  rewrite contains_obj, H4. cbv iota beta. rewrite getitem_obj, H4. cbv iota beta.
  rewrite H5. destruct (py_float_raise _ _ H5) as [->|[->| ->]]; reflexivity.
Qed.

Lemma linux_price_shared_unparsable_witness :
  get_linux_price_us_east_1
    (JObj [(S_ "prices", JObj [(S_ "Linux", JObj [(S_ "us-east-1",
       JObj [(S_ "Shared", JStr (S_ "n/a")); (S_ "Dedicated", JStr (S_ "0.5"))])])])])
  = PyOk None /\
  get_linux_price_us_east_1
    (JObj [(S_ "prices", JObj [(S_ "Linux", JObj [(S_ "us-east-1",
       JObj [(S_ "Shared", JInt (2 ^ 1024)); (S_ "Dedicated", JStr (S_ "0.5"))])])])])
  = PyRaise OverflowError.
Proof.
  split.
  2:{ apply (linux_price_shared_unparsable _
           [(S_ "Linux", JObj [(S_ "us-east-1",
              JObj [(S_ "Shared", JInt (2 ^ 1024)); (S_ "Dedicated", JStr (S_ "0.5"))])])]
           [(S_ "us-east-1",
              JObj [(S_ "Shared", JInt (2 ^ 1024)); (S_ "Dedicated", JStr (S_ "0.5"))])]
           [(S_ "Shared", JInt (2 ^ 1024)); (S_ "Dedicated", JStr (S_ "0.5"))]
           (JInt (2 ^ 1024)) OverflowError); vm_compute; reflexivity. }
  apply (linux_price_shared_unparsable _
           [(S_ "Linux", JObj [(S_ "us-east-1",
              JObj [(S_ "Shared", JStr (S_ "n/a")); (S_ "Dedicated", JStr (S_ "0.5"))])])]
           [(S_ "us-east-1",
              JObj [(S_ "Shared", JStr (S_ "n/a")); (S_ "Dedicated", JStr (S_ "0.5"))])]
           [(S_ "Shared", JStr (S_ "n/a")); (S_ "Dedicated", JStr (S_ "0.5"))]
           (JStr (S_ "n/a")) ValueError); vm_compute; reflexivity.
Defined.


(** X3: [get_linux_price_us_east_1] returns [None] when the record has no
    [prices], when [prices] has no [Linux], when that has no [us-east-1], or
    when that has neither [Shared] nor [Dedicated]. *)
Theorem linux_price_missing_none (kvs : list (pystr * json)) :
  (lookup (S_ "prices") kvs = None ->
   get_linux_price_us_east_1 (JObj kvs) = PyOk None) /\
  (forall p, lookup (S_ "prices") kvs = Some (JObj p) -> lookup (S_ "Linux") p = None ->
   get_linux_price_us_east_1 (JObj kvs) = PyOk None) /\
  (forall p l, lookup (S_ "prices") kvs = Some (JObj p) ->
   lookup (S_ "Linux") p = Some (JObj l) -> lookup (S_ "us-east-1") l = None ->
   get_linux_price_us_east_1 (JObj kvs) = PyOk None) /\
  (forall p l u, lookup (S_ "prices") kvs = Some (JObj p) ->
   lookup (S_ "Linux") p = Some (JObj l) -> lookup (S_ "us-east-1") l = Some (JObj u) ->
   lookup (S_ "Shared") u = None -> lookup (S_ "Dedicated") u = None ->
   get_linux_price_us_east_1 (JObj kvs) = PyOk None).
Proof.
  unfold get_linux_price_us_east_1. cbv zeta. split; [|split; [|split]].
  - intros H1. rewrite get_obj, H1. reflexivity.
  - intros p H1 H2. rewrite get_obj, H1. cbv iota beta. rewrite get_obj, H2. reflexivity.
  - intros p l H1 H2 H3. rewrite get_obj, H1. cbv iota beta. rewrite get_obj, H2.
    cbv iota beta. rewrite get_obj, H3. reflexivity.
  - intros p l u H1 H2 H3 H4 H5. rewrite get_obj, H1. cbv iota beta. rewrite get_obj, H2.
    cbv iota beta. rewrite get_obj, H3. cbv iota beta. rewrite contains_obj, H4.
    cbv iota beta. rewrite contains_obj, H5. reflexivity.
Qed.

Lemma linux_price_missing_none_witness :
  get_linux_price_us_east_1 (JObj [(S_ "vcpu", JInt 2)]) = PyOk None /\
  get_linux_price_us_east_1
    (JObj [(S_ "prices", JObj [(S_ "Linux", JObj [(S_ "us-east-1",
       JObj [(S_ "Spot", JStr (S_ "0.1"))])])])]) = PyOk None.
Proof.
  destruct (linux_price_missing_none [(S_ "vcpu", JInt 2)]) as [H1 _].
  destruct (linux_price_missing_none
    [(S_ "prices", JObj [(S_ "Linux", JObj [(S_ "us-east-1",
       JObj [(S_ "Spot", JStr (S_ "0.1"))])])])]) as (_ & _ & _ & H4).
  split; [apply H1; reflexivity|].
  apply (H4 [(S_ "Linux", JObj [(S_ "us-east-1", JObj [(S_ "Spot", JStr (S_ "0.1"))])])]
            [(S_ "us-east-1", JObj [(S_ "Spot", JStr (S_ "0.1"))])]
            [(S_ "Spot", JStr (S_ "0.1"))]); vm_compute; reflexivity.
Defined.


Lemma price_det d p p' :
  get_linux_price_us_east_1 d = PyOk (Some p) ->
  get_linux_price_us_east_1 d = PyOk (Some p') -> p = p'.
Proof. intros H1 H2. rewrite H1 in H2. inversion H2. reflexivity. Qed.

(** X4: a successful [filter_instances] keeps the records in their input
    order (the names and records of its output are a subsequence of the
    items), and a triple [(n, d, p)] is in its output exactly when [(n, d)]
    is an item that passes the allow-list, vcpu, price and region tests with
    price [p]. *)
Theorem filter_instances_spec insts c al out :
  filter_instances insts c al = PyOk out ->
  subseq (map fst out) insts /\
  (forall n d p, In (n, d, p) out <-> In (n, d) insts /\ selected c al n d p).
Proof.
  revert out. induction insts as [|[n d] rest IH]; intros out H.
  - simpl in H. inversion H; subst. split; [constructor|]. simpl. tauto.
  - destruct (filter_step _ _ _ _ _ _ H) as (out' & H' & [[-> Hns]|(p & -> & Hs)]);
      destruct (IH out' H') as [Hsub Hin].
    + split; [constructor; exact Hsub|]. intros n' d' p'. rewrite Hin. simpl. split.
      * intros [? ?]; auto.
      * intros [[E|?] Hs']; [|auto]. inversion E; subst. exfalso. exact (Hns p' Hs').
    + split; [simpl; constructor; exact Hsub|]. intros n' d' p'. simpl. rewrite Hin. split.
      * intros [E|[? ?]]; [inversion E; subst; auto|auto].
      * intros [[E|?] Hs']; [|auto]. inversion E; subst. left.
        rewrite (price_det _ _ _ (proj1 (proj2 (proj2 Hs))) (proj1 (proj2 (proj2 Hs')))).
        reflexivity.
Qed.

Lemma filter_instances_spec_witness :
  filter_instances [(S_ "m5.large", JObj [(S_ "vcpu", JInt 2); (S_ "prices", us_east_price);
                                          (S_ "regions", JArr [JStr (S_ "us-east-1")])]);
                    (S_ "m5.xlarge", JObj [(S_ "vcpu", JInt 4)])] 2 None
  = PyOk [(S_ "m5.large", JObj [(S_ "vcpu", JInt 2); (S_ "prices", us_east_price);
                                (S_ "regions", JArr [JStr (S_ "us-east-1")])], Dec 96 (-3))] /\
  subseq [(S_ "m5.large", JObj [(S_ "vcpu", JInt 2); (S_ "prices", us_east_price);
                                (S_ "regions", JArr [JStr (S_ "us-east-1")])])]
    [(S_ "m5.large", JObj [(S_ "vcpu", JInt 2); (S_ "prices", us_east_price);
                           (S_ "regions", JArr [JStr (S_ "us-east-1")])]);
     (S_ "m5.xlarge", JObj [(S_ "vcpu", JInt 4)])].
Proof.
  assert (H : filter_instances
    [(S_ "m5.large", JObj [(S_ "vcpu", JInt 2); (S_ "prices", us_east_price);
                           (S_ "regions", JArr [JStr (S_ "us-east-1")])]);
     (S_ "m5.xlarge", JObj [(S_ "vcpu", JInt 4)])] 2 None
  = PyOk [(S_ "m5.large", JObj [(S_ "vcpu", JInt 2); (S_ "prices", us_east_price);
                                (S_ "regions", JArr [JStr (S_ "us-east-1")])], Dec 96 (-3))])
    by (vm_compute; reflexivity).
  split; [exact H|]. exact (proj1 (filter_instances_spec _ _ _ _ H)).
Defined.


(** X5: an allow-list that contains the name of every item filters
    exactly like no allow-list at all. *)
Theorem filter_instances_allowed_cover insts c l :
  (forall n d, In (n, d) insts -> In n l) ->
  filter_instances insts c (Some l) = filter_instances insts c None.
Proof.
  induction insts as [|[n d] rest IH]; intros Hl; [reflexivity|].
  assert (E : existsb (str_eqb n) l = true)
    by (apply existsb_str_eqb; apply (Hl n d); left; reflexivity).
  simpl. rewrite E. simpl. rewrite IH; [reflexivity|].
  intros n' d' Hin. apply (Hl n' d'). right. exact Hin.
Qed.

Lemma filter_instances_allowed_cover_witness :
  filter_instances [(S_ "m5.large", FinderFacts.m5_large)] 2 (Some [S_ "c5.large"; S_ "m5.large"])
  = filter_instances [(S_ "m5.large", FinderFacts.m5_large)] 2 None.
Proof.
  apply filter_instances_allowed_cover.
  intros n d [H|[]]. injection H as <- _. right. left. reflexivity.
Defined.


(** X6: [filter_instances] handles the items one at a time: on the
    concatenation of two item lists it returns the concatenation of the two
    results, and raises the first exception met, in order. *)
Theorem filter_instances_app a b c al :
  filter_instances (a ++ b) c al =
  (x <- filter_instances a c al ;; y <- filter_instances b c al ;; PyOk (x ++ y)).
Proof.
  induction a as [|[n d] rest IH].
  - simpl. destruct (filter_instances b c al); reflexivity.
  - simpl app. simpl. rewrite IH.
    destruct (match al with Some al0 => negb (existsb (str_eqb n) al0) | None => false end);
      [reflexivity|].
    destruct (get d _ JNull) as [v|e]; [|reflexivity].
    destruct (eq_int v c); simpl; [|reflexivity].
    destruct (get_linux_price_us_east_1 d) as [[p|]|e]; [|reflexivity|reflexivity].
    destruct (get d _ (JArr [])) as [rg|e]; [|reflexivity].
    destruct (contains rg _) as [[]|e]; simpl; [|reflexivity|reflexivity].
    destruct (filter_instances rest c al); [|reflexivity].
    destruct (filter_instances b c al); reflexivity.
Qed.

(** X1: [get_linux_price_us_east_1] raises only [AttributeError] (from
    [.get] on a non-dict) or [OverflowError] (from [float()] of an int
    beyond the range of a double), the errors its handler
    [except (KeyError, ValueError, TypeError)] lets through;
    [filter_instances] raises only those or [TypeError] (from [in] on a
    [regions] value that is not a container). *)
Theorem price_filter_raise_kinds (d : json) (insts : list (pystr * json)) (c : Z)
  (al : option (list pystr)) (e : exn) :
  (get_linux_price_us_east_1 d = PyRaise e -> e = AttributeError \/ e = OverflowError) /\
  (filter_instances insts c al = PyRaise e ->
     e = AttributeError \/ e = TypeError \/ e = OverflowError).
Proof. split; [apply price_raise_attr|apply filter_raise]. Qed.


Lemma price_filter_raise_kinds_witness :
  get_linux_price_us_east_1 (JObj [(S_ "prices", JNull)]) = PyRaise AttributeError /\
  filter_instances [(S_ "t3.small", JObj [(S_ "vcpu", JInt 2); (S_ "prices", us_east_price);
                                          (S_ "regions", JInt 0)])] 2 None
    = PyRaise TypeError /\
  (AttributeError = AttributeError \/ AttributeError = OverflowError) /\
  (TypeError = AttributeError \/ TypeError = TypeError \/ TypeError = OverflowError).
Proof.
  assert (H1 : get_linux_price_us_east_1 (JObj [(S_ "prices", JNull)]) = PyRaise AttributeError)
    by (vm_compute; reflexivity).
  assert (H2 : filter_instances [(S_ "t3.small", JObj [(S_ "vcpu", JInt 2);
                 (S_ "prices", us_east_price); (S_ "regions", JInt 0)])] 2 None
               = PyRaise TypeError) by (vm_compute; reflexivity).
  split; [exact H1|]. split; [exact H2|]. split.
  - exact (proj1 (price_filter_raise_kinds _ [] 0 None _) H1).
  - exact (proj2 (price_filter_raise_kinds JNull _ _ _ _) H2).
Defined.

End FinderExtra.

From Stdlib Require Import Permutation.

Module FinderIO.
Import Finder.

(** what [open(filename, 'r')] and reading it give: [FileNotFoundError],
    another [IOError] with its message [str(e)], or the decoded text *)
Inductive read_outcome : Type :=
| NotFound
| ReadFailed (msg : pystr)
| Contents (text : pystr).

(** a line printed to stdout, or to stderr ([file=sys.stderr]) *)
Inductive io : Type :=
| Out (msg : pystr)
| Err (msg : pystr).

(** a call that returns, or ends the process through [sys.exit(code)] *)
Inductive run (A : Type) : Type :=
| Ret (a : A)
| Exit (code : nat).
Arguments Ret {A} a.
Arguments Exit {A} code.

(** [str(n)] for an [int] *)
Fixpoint digits_rev (fuel n : nat) : pystr :=
  match fuel with
  | 0 => []
  | S f => ascii_of_nat (48 + n mod 10) :: (if n <? 10 then [] else digits_rev f (n / 10))
  end.
Definition str_of_nat (n : nat) : pystr := rev (digits_rev (S n) n).
Definition str_of_Z (z : Z) : pystr :=
  if (z <? 0)%Z then "-"%char :: str_of_nat (Z.to_nat (- z)) else str_of_nat (Z.to_nat z).

(** [s.add(x)] on a set of str kept as the list of its elements *)
Definition set_add (s : list pystr) (x : pystr) : list pystr :=
  if existsb (str_eqb x) s then s else s ++ [x].

(** [{line.strip() for line in f if line.strip()}] *)
Definition strip_set (text : pystr) : list pystr :=
  fold_left (fun acc line => if str_eqb (strip line) [] then acc else set_add acc (strip line))
    (readlines text) [].

(** [load_instance_list(filename)] *)
Definition load_instance_list (rd : pystr -> read_outcome) (filename : pystr)
  : list io * run (list pystr) :=
  match rd filename with
  | NotFound => ([Err (S_ "Error: File '" ++ filename ++ S_ "' not found.")], Exit 1)
  | ReadFailed msg =>
      ([Err (S_ "Error reading file '" ++ filename ++ S_ "': " ++ msg)], Exit 1)
  | Contents text =>
      let instances := strip_set text in
      ([Out (S_ "Loaded " ++ str_of_nat (List.length instances) ++ S_ " instances from "
             ++ filename)], Ret instances)
  end.

(** [format(s, '<n')] for a str [s] *)
Definition ljust (s : pystr) (n : nat) : pystr := s ++ repeat " "%char (n - List.length s).

(** [len(v)] *)
Definition py_len (v : json) : py nat :=
  match v with
  | JStr s => PyOk (List.length s)
  | JArr l => PyOk (List.length l)
  | JObj kvs => PyOk (List.length kvs)
  | _ => PyRaise TypeError
  end.

(** [processor[:27] + "..."]: only a str gives a str; a list cannot be
    added to a str and a dict cannot be sliced *)
Definition truncate (v : json) : py json :=
  match v with
  | JStr s => PyOk (JStr (firstn 27 s ++ S_ "..."))
  | _ => PyRaise TypeError
  end.

Section Display.
(** [sorted(filtered_instances, key=lambda x: x[2])] *)
Variable sort_by_price : list (pystr * json * pyfloat) -> list (pystr * json * pyfloat).
(** [format(v, spec)] for a JSON value (a str, int, float, ... ) *)
Variable format_spec : json -> pystr -> py pystr.
(** [format(price, '<11.4f')] *)
Variable format_price : pyfloat -> pystr.

(** one line of the table:
    [f"{instance_name:<15} {memory:<12} ${price:<11.4f} {processor}"] *)
Definition row_line (r : pystr * json * pyfloat) : py pystr :=
  let '(instance_name, instance_data, price) := r in
  memory <- get instance_data (S_ "memory") (JStr (S_ "N/A")) ;;
  processor0 <- get instance_data (S_ "physicalProcessor") (JStr (S_ "N/A")) ;;
  n <- py_len processor0 ;;
  processor <- (if 30 <? n then truncate processor0 else PyOk processor0) ;;
  mem_s <- format_spec memory (S_ "<12") ;;
  proc_s <- format_spec processor [] ;;
  PyOk (ljust instance_name 15 ++ S_ " " ++ mem_s ++ S_ " $" ++ format_price price
        ++ S_ " " ++ proc_s).

Fixpoint print_rows (rows : list (pystr * json * pyfloat)) : list io * py unit :=
  match rows with
  | [] => ([], PyOk tt)
  | r :: rs =>
      match row_line r with
      | PyOk line => let '(l, res) := print_rows rs in (Out line :: l, res)
      | PyRaise e => ([], PyRaise e)
      end
  end.

(** [l[:limit]] *)
Definition py_slice_upto {A : Type} (l : list A) (limit : Z) : list A :=
  if (0 <=? limit)%Z then firstn (Z.to_nat limit) l
  else firstn (List.length l - Z.to_nat (- limit)) l.

Definition header_lines : list io :=
  [Out (ljust (S_ "Instance Name") 15 ++ S_ " " ++ ljust (S_ "Memory") 12 ++ S_ " "
        ++ ljust (S_ "Price ($/hr)") 12 ++ S_ " " ++ S_ "Processor");
   Out (repeat "-"%char 70)].

Definition summary_line (shown : Z) (total_found : nat) : io :=
  Out (nl :: S_ "Showing " ++ str_of_Z shown ++ S_ " of " ++ str_of_nat total_found
       ++ S_ " instances found.").

(** [display_results(filtered_instances, limit)] *)
Definition display_results (filtered_instances : list (pystr * json * pyfloat)) (limit : Z)
  : list io * py unit :=
  match filtered_instances with
  | [] => ([Out (S_ "No instances found matching the criteria.")], PyOk tt)
  | _ :: _ =>
      let sorted_instances := sort_by_price filtered_instances in
      let '(rl, res) := print_rows (py_slice_upto sorted_instances limit) in
      match res with
      | PyRaise e => (header_lines ++ rl, PyRaise e)
      | PyOk _ =>
          let total_found := List.length sorted_instances in
          let shown := Z.min limit (Z.of_nat total_found) in
          (header_lines ++ rl ++ [summary_line shown total_found], PyOk tt)
      end
  end.

End Display.

(** what [requests.get(url)], [raise_for_status()] and [response.json()]
    give: a [RequestException] or a [JSONDecodeError] with its message, or
    the decoded value *)
Inductive fetch_outcome : Type :=
| RequestFailed (msg : pystr)
| JsonFailed (msg : pystr)
| Fetched (data : json).

(** [fetch_instance_data(url)] *)
Definition fetch_instance_data (fo : fetch_outcome) : list io * run json :=
  match fo with
  | RequestFailed msg => ([Err (S_ "Error fetching data: " ++ msg)], Exit 1)
  | JsonFailed msg => ([Err (S_ "Error parsing JSON data: " ++ msg)], Exit 1)
  | Fetched data => ([], Ret data)
  end.

(** the parsed command line *)
Record args : Type := mkArgs {
  cpu_count : Z;
  limit : Z;
  url : pystr;
  instances_file : option pystr }.

(** [main()] after [parser.parse_args()]: the printed lines and the exit
    status (an uncaught exception exits with status 1) *)
Definition main (rd : pystr -> read_outcome) (fetch : pystr -> fetch_outcome)
  sort_by_price format_spec format_price (a : args) : list io * nat :=
  let '(l1, r1) :=
    match instances_file a with
    | Some f =>
        if str_eqb f [] then ([], Ret None)
        else let '(l, r) := load_instance_list rd f in
             (l, match r with Ret s => Ret (Some s) | Exit c => Exit c end)
    | None => ([], Ret None)
    end in
  match r1 with
  | Exit c => (l1, c)
  | Ret allowed_instances =>
      let l2 := [Out (S_ "Fetching EC2 instance data...")] in
      let '(l3, r3) := fetch_instance_data (fetch (url a)) in
      match r3 with
      | Exit c => (l1 ++ l2 ++ l3, c)
      | Ret instances =>
          let filter_msg :=
            S_ "Filtering instances by " ++ str_of_Z (cpu_count a) ++ S_ " vCPUs"
            ++ match allowed_instances with
               | Some (_ :: _ as s) => S_ " (limited to " ++ str_of_nat (List.length s)
                                       ++ S_ " instances from file)"
               | _ => []
               end ++ S_ "..." in
          let l4 := l1 ++ l2 ++ l3 ++ [Out filter_msg] in
          match match instances with
                | JObj kvs => filter_instances kvs (cpu_count a) allowed_instances
                | _ => PyRaise AttributeError
                end with
          | PyRaise _ => (l4, 1)
          | PyOk filtered_instances =>
              let '(l5, r5) := display_results sort_by_price format_spec format_price
                                 filtered_instances (limit a) in
              (l4 ++ Out (S_ "Results sorted by Linux price in us-east-1 region:" ++ [nl]) :: l5,
               match r5 with PyOk _ => 0 | PyRaise _ => 1 end)
          end
      end
  end.

End FinderIO.

Module FinderIOFacts.
Import Finder FinderIO FinderExtra.

Lemma set_add_in (s : list pystr) x y : In y (set_add s x) <-> In y s \/ y = x.
Proof.
  unfold set_add. destruct (existsb (str_eqb x) s) eqn:E.
  - apply existsb_str_eqb in E. split; [auto|]. intros [H| ->]; auto.
  - rewrite in_app_iff. simpl. split; intros [H|H]; auto; destruct H; auto; contradiction.
Qed.

Lemma set_add_nodup (s : list pystr) x : NoDup s -> NoDup (set_add s x).
Proof.
  unfold set_add. destruct (existsb (str_eqb x) s) eqn:E; [auto|].
  intros H. apply (Permutation_NoDup (Permutation_cons_append s x)).
  constructor; [|exact H]. intros Hin. apply existsb_str_eqb in Hin. congruence.
Qed.

Lemma fold_strip (lines : list pystr) : forall acc, NoDup acc ->
  NoDup (fold_left (fun acc line => if str_eqb (strip line) [] then acc
                                    else set_add acc (strip line)) lines acc) /\
  (forall y, In y (fold_left (fun acc line => if str_eqb (strip line) [] then acc
                                    else set_add acc (strip line)) lines acc) <->
     In y acc \/ (y <> [] /\ exists raw, In raw lines /\ strip raw = y)).
Proof.
  induction lines as [|l lines IH]; intros acc Hd; simpl.
  - split; [exact Hd|]. intros y. split; [auto|]. intros [H|(_ & raw & Hr & _)]; [exact H|destruct Hr].
  - destruct (str_eqb (strip l) []) eqn:E.
    + apply str_eqb_eq in E. destruct (IH acc Hd) as [H1 H2]. split; [exact H1|].
      intros y. rewrite H2. split.
      * intros [H|(Hne & raw & Hr & Hs)]; [auto|right; split; [exact Hne|eauto]].
      * intros [H|(Hne & raw & [<-|Hr] & Hs)]; [auto|congruence|right; eauto].
    + destruct (IH (set_add acc (strip l)) (set_add_nodup _ _ Hd)) as [H1 H2].
      split; [exact H1|]. intros y. rewrite H2, set_add_in. split.
      * intros [[H| ->]|(Hne & raw & Hr & Hs)]; [auto| |right; split; [exact Hne|eauto]].
        right. split; [intros Z; rewrite Z in E; discriminate E|eauto].
      * intros [H|(Hne & raw & [<-|Hr] & Hs)]; [auto|subst; auto|right; eauto].
Qed.

Lemma strip_set_spec (text : pystr) :
  NoDup (strip_set text) /\
  (forall y, In y (strip_set text) <->
     y <> [] /\ exists raw, In raw (readlines text) /\ strip raw = y).
Proof.
  destruct (fold_strip (readlines text) [] (NoDup_nil _)) as [H1 H2].
  split; [exact H1|]. intros y. unfold strip_set. rewrite H2. simpl. tauto.
Qed.

(** X7: on a readable file, [load_instance_list] prints
    "Loaded <k> instances from <filename>" and returns a duplicate-free
    collection of [k] names: exactly the nonempty results of [strip()] on
    the lines of the file. *)
Theorem load_instance_list_contents (rd : pystr -> read_outcome) (filename text : pystr) :
  rd filename = Contents text ->
  exists names,
    load_instance_list rd filename =
      ([Out (S_ "Loaded " ++ str_of_nat (List.length names) ++ S_ " instances from "
             ++ filename)], Ret names) /\
    NoDup names /\
    (forall x, In x names <-> x <> [] /\ exists raw, In raw (readlines text) /\ strip raw = x).
Proof.
  intros H. exists (strip_set text). unfold load_instance_list. rewrite H.
  split; [reflexivity|]. apply strip_set_spec.
Qed.

Lemma load_instance_list_contents_witness :
  exists names,
    load_instance_list (fun _ => Contents (S_ " m5.large" ++ [nl] ++ [nl] ++ S_ "c5.large "
                                           ++ [nl] ++ S_ "m5.large"))
      (S_ "allowed.txt") =
      ([Out (S_ "Loaded " ++ str_of_nat (List.length names) ++ S_ " instances from "
             ++ S_ "allowed.txt")], Ret names) /\ NoDup names.
Proof.
  destruct (load_instance_list_contents
              (fun _ => Contents (S_ " m5.large" ++ [nl] ++ [nl] ++ S_ "c5.large "
                                  ++ [nl] ++ S_ "m5.large"))
              (S_ "allowed.txt")
              (S_ " m5.large" ++ [nl] ++ [nl] ++ S_ "c5.large " ++ [nl] ++ S_ "m5.large")
              eq_refl) as (names & H & Hn & _).
  exists names. split; [exact H|exact Hn].
Defined.


Lemma filter_empty_allow (kvs : list (pystr * json)) c :
  filter_instances kvs c (Some []) = PyOk [].
Proof. induction kvs as [|[n d] kvs IH]; [reflexivity|]. simpl. exact IH. Qed.

(** X8: an instances file that is given but holds only blank lines yields
    an empty allow-list, not "no allow-list": [main] reports 0 loaded
    instances, omits the "(limited to ...)" note, finds no instance at all
    and exits with status 0. *)
Theorem main_blank_instances_file rd fetch sort_by_price format_spec format_price (a : args) f text kvs :
  instances_file a = Some f -> f <> [] -> rd f = Contents text ->
  (forall raw, In raw (readlines text) -> strip raw = []) ->
  fetch (url a) = Fetched (JObj kvs) ->
  main rd fetch sort_by_price format_spec format_price a =
    ([Out (S_ "Loaded 0 instances from " ++ f);
      Out (S_ "Fetching EC2 instance data...");
      Out (S_ "Filtering instances by " ++ str_of_Z (cpu_count a) ++ S_ " vCPUs...");
      Out (S_ "Results sorted by Linux price in us-east-1 region:" ++ [nl]);
      Out (S_ "No instances found matching the criteria.")], 0).
Proof.
  intros Hf Hne Hrd Hblank Hfetch.
  assert (E : strip_set text = []).
  { destruct (strip_set text) as [|y ys] eqn:Es; [reflexivity|].
    assert (Hin : In y (strip_set text)) by (rewrite Es; left; reflexivity).
    apply (proj2 (strip_set_spec text) y) in Hin. destruct Hin as (Hy & raw & Hr & Hs). rewrite (Hblank raw Hr) in Hs. congruence. }
  unfold main. rewrite Hf. destruct f as [|c0 f']; [contradiction|]. simpl str_eqb.
  cbv iota. unfold load_instance_list. rewrite Hrd, E. cbv zeta iota beta.
  rewrite Hfetch. simpl fetch_instance_data. cbv iota beta zeta.
  rewrite filter_empty_allow. reflexivity.
Qed.

Lemma main_blank_instances_file_witness :
  main (fun _ => Contents ([nl] ++ S_ "  " ++ [nl]))
    (fun _ => Fetched (JObj [(S_ "m5.large", FinderFacts.m5_large)]))
    (fun l => l) (fun _ _ => PyOk []) (fun _ => [])
    (mkArgs 2 20 (S_ "https://example.org/ec2.json") (Some (S_ "allowed.txt"))) =
  ([Out (S_ "Loaded 0 instances from " ++ S_ "allowed.txt");
    Out (S_ "Fetching EC2 instance data...");
    Out (S_ "Filtering instances by " ++ str_of_Z 2 ++ S_ " vCPUs...");
    Out (S_ "Results sorted by Linux price in us-east-1 region:" ++ [nl]);
    Out (S_ "No instances found matching the criteria.")], 0).
Proof.
  apply (main_blank_instances_file _ _ _ _ _
           (mkArgs 2 20 (S_ "https://example.org/ec2.json") (Some (S_ "allowed.txt")))
           (S_ "allowed.txt") ([nl] ++ S_ "  " ++ [nl])
           [(S_ "m5.large", FinderFacts.m5_large)]).
  - reflexivity.
  - discriminate.
  - reflexivity.
  - intros raw Hr. vm_compute in Hr.
    destruct Hr as [<-|[<-|[]]]; vm_compute; reflexivity.
  - reflexivity.
Defined.


Lemma print_rows_ok format_spec format_price (rows : list (pystr * json * pyfloat)) :
  (forall r, In r rows -> exists line, row_line format_spec format_price r = PyOk line) ->
  exists lines, print_rows format_spec format_price rows = (map Out lines, PyOk tt) /\
    List.length lines = List.length rows.
Proof.
  induction rows as [|r rows IH]; intros H; [exists []; split; reflexivity|].
  destruct (H r (or_introl eq_refl)) as [line Hl].
  destruct IH as (lines & Hp & Hn); [intros; apply H; right; assumption|].
  exists (line :: lines). simpl. rewrite Hl, Hp. split; [reflexivity|simpl; lia].
Qed.

Lemma slice_length {A : Type} (l : list A) (k : Z) :
  Z.of_nat (List.length (py_slice_upto l k)) =
  if (0 <=? k)%Z then Z.min k (Z.of_nat (List.length l))
  else Z.max 0 (Z.of_nat (List.length l) + k).
Proof.
  unfold py_slice_upto. destruct (Z.leb_spec 0 k); rewrite length_firstn; lia.
Qed.

Lemma slice_incl {A : Type} (l : list A) (k : Z) x : In x (py_slice_upto l k) -> In x l.
Proof.
  unfold py_slice_upto. intros H.
  destruct (0 <=? k)%Z; [rewrite <- (firstn_skipn (Z.to_nat k) l)
                        |rewrite <- (firstn_skipn (List.length l - Z.to_nat (- k)) l)];
    apply in_or_app; left; exact H.
Qed.

(** X9: for a sort that permutes its input, [display_results] prints only
    "No instances found matching the criteria." on an empty list; on a
    nonempty list whose rows all format, it prints the two header lines,
    one row per instance of [sorted_instances[:limit]] (min(limit, n) rows
    for limit >= 0, max(0, n + limit) for a negative limit) and the summary
    "Showing min(limit, n) of n instances found.". *)
Theorem display_results_shape sort_by_price format_spec format_price filtered (limit : Z) :
  (forall l, Permutation (sort_by_price l) l) ->
  (filtered = [] ->
   display_results sort_by_price format_spec format_price filtered limit =
     ([Out (S_ "No instances found matching the criteria.")], PyOk tt)) /\
  (filtered <> [] ->
   (forall r, In r filtered -> exists line, row_line format_spec format_price r = PyOk line) ->
   exists lines,
     display_results sort_by_price format_spec format_price filtered limit =
       (header_lines ++ map Out lines ++
        [summary_line (Z.min limit (Z.of_nat (List.length filtered))) (List.length filtered)],
        PyOk tt) /\
     Z.of_nat (List.length lines) =
       if (0 <=? limit)%Z then Z.min limit (Z.of_nat (List.length filtered))
       else Z.max 0 (Z.of_nat (List.length filtered) + limit)).
Proof.
  intros Hperm. split; [intros ->; reflexivity|].
  intros Hne Hrows. destruct filtered as [|r0 rs] eqn:Ef; [contradiction|].
  rewrite <- Ef in *.
  destruct (print_rows_ok format_spec format_price
              (py_slice_upto (sort_by_price filtered) limit)) as (lines & Hp & Hn).
  { intros r Hr. apply Hrows. apply slice_incl in Hr.
    exact (Permutation_in _ (Hperm filtered) Hr). }
  exists lines. unfold display_results. rewrite Ef. rewrite <- Ef. rewrite Hp.
  rewrite (Permutation_length (Hperm filtered)). split; [reflexivity|].
  rewrite Hn, slice_length, (Permutation_length (Hperm filtered)). reflexivity.
Qed.

Lemma display_results_shape_witness :
  exists lines,
    display_results (fun l => l)
      (fun v _ => match v with JStr t => PyOk t | _ => PyOk [] end) (fun _ => S_ "0.0960")
      [(S_ "m5.large", FinderFacts.m5_large, Dec 96 (-3));
       (S_ "c5.large", FinderFacts.m5_large, Dec 85 (-3))] 1 =
      (header_lines ++ map Out lines ++ [summary_line (Z.min 1 2) 2], PyOk tt) /\
    Z.of_nat (List.length lines) = 1%Z.
Proof.
  destruct (display_results_shape (fun l => l)
              (fun v _ => match v with JStr t => PyOk t | _ => PyOk [] end)
              (fun _ => S_ "0.0960")
              [(S_ "m5.large", FinderFacts.m5_large, Dec 96 (-3));
               (S_ "c5.large", FinderFacts.m5_large, Dec 85 (-3))] 1
              (fun l => Permutation_refl l)) as [_ H].
  destruct H as (lines & H1 & H2).
  - discriminate.
  - intros r [<-|[<-|[]]]; eexists; vm_compute; reflexivity.
  - exists lines. split; [exact H1|exact H2].
Defined.


(** X10: in a row of [display_results], a [physicalProcessor] string
    longer than 30 characters is shown as its first 27 characters followed
    by "...", a shorter one as it is; a [physicalProcessor] that is an int
    makes [len()] raise [TypeError]. *)
Theorem row_line_processor format_spec format_price name kvs price :
  (forall t, format_spec (JStr t) [] = PyOk t) ->
  (forall s mem, lookup (S_ "physicalProcessor") kvs = Some (JStr s) ->
     format_spec (match lookup (S_ "memory") kvs with Some v => v | None => JStr (S_ "N/A") end)
       (S_ "<12") = PyOk mem ->
     row_line format_spec format_price (name, JObj kvs, price) =
       PyOk (ljust name 15 ++ S_ " " ++ mem ++ S_ " $" ++ format_price price ++ S_ " " ++
             (if 30 <? List.length s then firstn 27 s ++ S_ "..." else s))) /\
  (forall z, lookup (S_ "physicalProcessor") kvs = Some (JInt z) ->
     row_line format_spec format_price (name, JObj kvs, price) = PyRaise TypeError).
Proof.
  intros Hstr. split.
  - intros s mem Hp Hm. unfold row_line. rewrite !get_obj, Hp. cbv iota beta.
    unfold py_len. cbv iota beta. destruct (30 <? List.length s); simpl truncate; cbv iota beta;
      rewrite Hm; cbv iota beta; rewrite Hstr; reflexivity.
  - intros z Hp. unfold row_line. rewrite !get_obj, Hp. reflexivity.
Qed.

Lemma row_line_processor_witness :
  row_line (fun v _ => match v with JStr t => PyOk t | _ => PyOk [] end) (fun _ => S_ "0.0960")
    (S_ "m5.large", JObj [(S_ "physicalProcessor", JInt 7)], Dec 96 (-3)) = PyRaise TypeError.
Proof.
  destruct (row_line_processor (fun v _ => match v with JStr t => PyOk t | _ => PyOk [] end)
              (fun _ => S_ "0.0960") (S_ "m5.large") [(S_ "physicalProcessor", JInt 7)]
              (Dec 96 (-3)) (fun t => eq_refl)) as [_ H].
  apply (H 7%Z). reflexivity.
Defined.


End FinderIOFacts.

Module ResolverFacts.
Import Finder Resolver.

(** a [docker manifest inspect --verbose] entry for linux/arm64 with digest [h] *)
Definition arm64_entry (h : pystr) : json :=
  JObj [(S_ "Descriptor", JObj [(S_ "platform", JObj [(S_ "architecture", JStr (S_ "arm64"));
                                                      (S_ "os", JStr (S_ "linux"))])]);
        (S_ "Ref", JStr (S_ "ghcr.io/siderolabs/stagex/core-busybox@sha256:" ++ h))].

Lemma re_search_some (r : regex) (s : pystr) cs :
  re_search r s = Some cs -> exists j rest, re_match r (skipn j s) = Some (cs, rest).
Proof.
  induction s as [|c s IH]; simpl.
  - destruct (re_match r []) as [[cs' rest]|] eqn:E; intros H; [|discriminate H].
    inversion H; subst. exists 0, rest. exact E.
  - destruct (re_match r (c :: s)) as [[cs' rest]|] eqn:E; intros H.
    + inversion H; subst. exists 0, rest. exact E.
    + destruct (IH H) as (j & rest & Hj). exists (S j), rest. exact Hj.
Qed.

Lemma re_search_complete (r : regex) (s : pystr) j x :
  re_match r (skipn j s) = Some x -> exists cs, re_search r s = Some cs.
Proof.
  revert j; induction s as [|c s IH]; intros j H; simpl.
  - rewrite skipn_nil in H. rewrite H. destruct x; eauto.
  - destruct (re_match r (c :: s)) as [[cs' rest]|] eqn:E; [eauto|].
    destruct j as [|j]; [simpl in H; rewrite H in E; discriminate|].
    simpl in H. exact (IH j H).
Qed.

(** a pattern [w([a-f0-9]{64})] captures 64 lowercase hexadecimal characters *)
Lemma digest_group (w s : pystr) cs rest :
  re_match (lits w (RGroup 1 (RRep 64 is_hex_lower))) s = Some (cs, rest) ->
  UpdateFrame.hex64 (group 1 cs).
Proof.
  unfold re_match. rewrite Windows.mt_lits.
  destruct (startswith s w); [|discriminate].
  set (t := skipn (List.length w) s). clearbody t. cbn [mt].
  destruct (64 <=? run_len is_hex_lower t) eqn:Hr; [|discriminate].
  apply Nat.leb_le in Hr.
  destruct (MatchFacts.run_len_prefix _ _ _ Hr) as [Hf Hl].
  intros H.
  assert (Ec : cs = [(1, firstn 64 t)]).
  { apply (f_equal (option_map fst)) in H.
    rewrite length_skipn in H.
    replace (List.length t - (List.length t - 64)) with 64 in H by lia.
    cbn [option_map fst] in H. injection H as H. symmetry. exact H. }
  subst cs. change (group 1 [(1, ?v)]) with v.
  split; [rewrite length_firstn; lia|exact Hf].
Qed.

Lemma search_digest (w s : pystr) cs :
  re_search (lits w (RGroup 1 (RRep 64 is_hex_lower))) s = Some cs ->
  UpdateFrame.hex64 (group 1 cs).
Proof.
  intros H. destruct (re_search_some _ _ _ H) as (j & rest & Hj).
  exact (digest_group _ _ _ _ Hj).
Qed.

Lemma scan_manifest_hex (entries : list json) h :
  scan_manifest entries = PyOk (Some h) -> UpdateFrame.hex64 h.
Proof.
  induction entries as [|e entries IH]; simpl; [discriminate|].
  destruct (get e _ empty_obj) as [descriptor|]; [|discriminate].
  destruct (get descriptor _ empty_obj) as [platform|]; [|discriminate].
  destruct (get platform _ JNull) as [arch|]; [|discriminate].
  destruct (get platform _ JNull) as [os|]; [|discriminate].
  destruct (json_eq_str arch _ && json_eq_str os _); [|exact IH].
  destruct (get e _ (JStr [])) as [[]|]; try discriminate.
  destruct (re_search ref_re s) as [cs|] eqn:E; [|exact IH].
  intros H. inversion H; subst. exact (search_digest _ _ _ E).
Qed.

(** X11: a digest returned by either [get_arm64_hash] is the group of
    [([a-f0-9]{64})]: exactly 64 lowercase hexadecimal characters. *)
Theorem resolved_digest_hex64 (image_name : pystr) :
  (forall out h, snd (arm_get_arm64_hash image_name out) = PyOk (Some h) ->
     UpdateFrame.hex64 h) /\
  (forall page h, snd (x86_get_arm64_hash image_name page) = PyOk (Some h) ->
     UpdateFrame.hex64 h).
Proof.
  split.
  - intros [| |e0|[manifest_data|]] h; simpl; try discriminate.
    destruct (entries <- py_iter manifest_data ;; scan_manifest entries) as [[h'|]|e] eqn:E;
      simpl; try discriminate.
    intros H. inversion H; subst.
    destruct (py_iter manifest_data) as [entries|]; [|discriminate].
    exact (scan_manifest_hex _ _ E).
  - intros page h. unfold x86_get_arm64_hash.
    destruct (x86_url image_name) as [url|]; simpl; [|discriminate].
    destruct page as [|nodes]; simpl; [discriminate|].
    destruct (first_match arm_line_re nodes) as [m|]; simpl; [|discriminate].
    destruct (re_search sha_re m) as [cs|] eqn:E; simpl; [|discriminate].
    intros H. inversion H; subst. exact (search_digest _ _ _ E).
Qed.

Lemma resolved_digest_hex64_witness :
  UpdateFrame.hex64 (hexrun "a"%char) /\ UpdateFrame.hex64 (hexrun "b"%char).
Proof.
  destruct (resolved_digest_hex64 (S_ "core-busybox")) as [Ha Hx]. split.
  - apply (Ha (DockerOutput (Some (JArr [arm64_entry (hexrun "a"%char)])))).
    vm_compute. reflexivity.
  - apply (Hx (HttpPage [S_ "amd64"; S_ "linux/arm64 sha256:" ++ hexrun "b"%char])).
    vm_compute. reflexivity.
Defined.


Lemma split_dash_no_dash (s : pystr) : ~ In "-"%char s -> split_dash s = [s].
Proof.
  induction s as [|c s IH]; intros H; [reflexivity|]. simpl.
  destruct (Ascii.eqb_spec c "-"%char) as [->|Hc]; [exfalso; apply H; left; reflexivity|].
  rewrite IH; [reflexivity|]. intros Hin. apply H. right. exact Hin.
Qed.

Lemma split_dash_dash (s : pystr) : In "-"%char s -> exists a b, split_dash s = [a; b].
Proof.
  induction s as [|c s IH]; intros H; [destruct H|]. simpl.
  destruct (Ascii.eqb_spec c "-"%char) as [->|Hc]; [eauto|].
  destruct H as [->|H]; [contradiction|].
  destruct (IH H) as (a & b & ->). eauto.
Qed.

Lemma startswith_in (s w : pystr) c :
  startswith s w = true -> In c w -> In c s.
Proof.
  intros H Hin. rewrite (LineFacts.startswith_app _ _ H). apply in_or_app. left. exact Hin.
Qed.

Lemma x86_url_ok (image_name : pystr) :
  In "-"%char image_name -> exists url, x86_url image_name = PyOk url.
Proof.
  intros H. unfold x86_url.
  destruct (str_eqb image_name _); [eauto|].
  destruct (str_eqb image_name _); [eauto|].
  destruct (startswith image_name _); [eauto|].
  destruct (startswith image_name _); [eauto|].
  destruct (split_dash_dash _ H) as (a & b & ->). eauto.
Qed.

(** X12: in the package-index variant, an image name without "-" makes
    [get_arm64_hash] raise [ValueError] before printing anything
    ([kind, subpath = image_name.split("-", 1)] runs outside the [try]);
    a name with a "-" never makes it raise. *)
Theorem x86_name_without_dash (image_name : pystr) (page : page_outcome) :
  (~ In "-"%char image_name ->
   x86_get_arm64_hash image_name page = ([], PyRaise ValueError)) /\
  (In "-"%char image_name -> exists lg r, x86_get_arm64_hash image_name page = (lg, PyOk r)).
Proof.
  split.
  - intros H. unfold x86_get_arm64_hash, x86_url.
    assert (Hd : forall w, In "-"%char w -> startswith image_name w = false).
    { intros w Hw. destruct (startswith image_name w) eqn:E; [|reflexivity].
      exfalso. exact (H (startswith_in _ _ _ E Hw)). }
    assert (He : forall w, In "-"%char w -> str_eqb image_name w = false).
    { intros w Hw. destruct (str_eqb image_name w) eqn:E; [|reflexivity].
      apply str_eqb_eq in E. subst. contradiction. }
    rewrite !He by (simpl; tauto). rewrite !Hd by (simpl; tauto).
    rewrite (split_dash_no_dash _ H). reflexivity.
  - intros H. destruct (x86_url_ok _ H) as [url Hu]. unfold x86_get_arm64_hash. rewrite Hu.
    destruct page as [|nodes]; [eauto|].
    destruct (first_match arm_line_re nodes) as [m|]; [|eauto].
    destruct (re_search sha_re m); eauto.
Qed.

Lemma x86_name_without_dash_witness :
  x86_get_arm64_hash (S_ "busybox") (HttpPage []) = ([], PyRaise ValueError).
Proof.
  apply (proj1 (x86_name_without_dash (S_ "busybox") (HttpPage []))).
  simpl. intuition discriminate.
Defined.


Lemma first_match_some (r : regex) (nodes : list pystr) m :
  first_match r nodes = Some m -> exists cs, re_search r m = Some cs.
Proof.
  induction nodes as [|n ns IH]; simpl; [discriminate|].
  destruct (re_search r n) as [cs|] eqn:E; [intros H; inversion H; subst; eauto|exact IH].
Qed.

Lemma first_match_none (r : regex) (nodes : list pystr) :
  (forall n, In n nodes -> re_search r n = None) -> first_match r nodes = None.
Proof.
  induction nodes as [|n ns IH]; intros H; simpl; [reflexivity|].
  rewrite (H n (or_introl eq_refl)). apply IH. intros; apply H; right; assumption.
Qed.

Lemma first_match_found (r : regex) (nodes : list pystr) n :
  In n nodes -> re_search r n <> None -> exists m, first_match r nodes = Some m.
Proof.
  induction nodes as [|n' ns IH]; intros Hin Hs; [destruct Hin|]. simpl.
  destruct (re_search r n') eqn:E; [eauto|].
  destruct Hin as [->|Hin]; [contradiction|]. exact (IH Hin Hs).
Qed.

Lemma arm_line_sha (m : pystr) cs :
  re_search arm_line_re m = Some cs -> exists cs', re_search sha_re m = Some cs'.
Proof.
  intros H. destruct (re_search_some _ _ _ H) as (j & rest & Hj).
  change arm_line_re with (lits (S_ "linux/arm64 ") sha_re) in Hj.
  unfold re_match in Hj. rewrite Windows.mt_lits in Hj.
  destruct (startswith _ _); [|discriminate Hj].
  rewrite skipn_skipn in Hj.
  exact (re_search_complete _ _ _ _ Hj).
Qed.

(** X13: in the package-index variant, for a name with a "-", a page with
    some text node matching [linux/arm64 sha256:([a-f0-9]{64})] yields a
    digest, and a page with no such node prints "Fetching <url>..." and
    "Warning: no arm64 digest listed for <name>" and returns [None]. *)
Theorem x86_page_scan (image_name : pystr) (nodes : list pystr) :
  In "-"%char image_name ->
  ((exists n, In n nodes /\ re_search arm_line_re n <> None) ->
   exists lg h, x86_get_arm64_hash image_name (HttpPage nodes) = (lg, PyOk (Some h))) /\
  ((forall n, In n nodes -> re_search arm_line_re n = None) ->
   exists url, x86_url image_name = PyOk url /\
     x86_get_arm64_hash image_name (HttpPage nodes) =
       ([EPrint (S_ "Fetching " ++ url ++ S_ "...");
         EPrint (S_ "Warning: no arm64 digest listed for " ++ image_name)], PyOk None)).
Proof.
  intros Hd. destruct (x86_url_ok _ Hd) as [url Hu]. split.
  - intros (n & Hn & Hs). destruct (first_match_found _ _ _ Hn Hs) as [m Hm].
    destruct (first_match_some _ _ _ Hm) as [cs Hcs].
    destruct (arm_line_sha _ _ Hcs) as [cs' Hcs'].
    unfold x86_get_arm64_hash. rewrite Hu, Hm, Hcs'. eauto.
  - intros Hn. exists url. split; [exact Hu|].
    unfold x86_get_arm64_hash. rewrite Hu, (first_match_none _ _ Hn). reflexivity.
Qed.

Lemma x86_page_scan_witness :
  exists url, x86_url (S_ "core-busybox") = PyOk url /\
    x86_get_arm64_hash (S_ "core-busybox") (HttpPage [S_ "linux/amd64 only"]) =
      ([EPrint (S_ "Fetching " ++ url ++ S_ "...");
        EPrint (S_ "Warning: no arm64 digest listed for " ++ S_ "core-busybox")], PyOk None).
Proof.
  apply (proj2 (x86_page_scan (S_ "core-busybox") [S_ "linux/amd64 only"] ltac:(simpl; auto 10))).
  intros n [<-|[]]. vm_compute. reflexivity.
Defined.


(** a manifest entry the loop of the registry variant can read: an object
    whose [Descriptor] (when present) is an object whose [platform] (when
    present) is an object, and whose [Ref] (when present) is a string *)
Definition shaped_entry (e : json) : Prop :=
  exists kvs, e = JObj kvs /\
    (forall d, lookup (S_ "Descriptor") kvs = Some d ->
       exists dk, d = JObj dk /\
         forall p, lookup (S_ "platform") dk = Some p -> exists pk, p = JObj pk) /\
    (forall r, lookup (S_ "Ref") kvs = Some r -> exists s, r = JStr s).

Lemma scan_manifest_raise (entries : list json) e :
  scan_manifest entries = PyRaise e -> e = AttributeError \/ e = TypeError.
Proof.
  induction entries as [|en entries IH]; cbn [scan_manifest]; [discriminate|].
  destruct (get en _ empty_obj) as [descriptor|e1] eqn:G1;
    [|intros H; inversion H; subst; left; exact (FinderExtra.get_raise _ _ _ _ G1)].
  destruct (get descriptor _ empty_obj) as [platform|e1] eqn:G2;
    [|intros H; inversion H; subst; left; exact (FinderExtra.get_raise _ _ _ _ G2)].
  destruct (get platform (S_ "architecture") JNull) as [arch|e1] eqn:G3;
    [|intros H; inversion H; subst; left; exact (FinderExtra.get_raise _ _ _ _ G3)].
  destruct (get platform (S_ "os") JNull) as [os|e1] eqn:G4;
    [|intros H; inversion H; subst; left; exact (FinderExtra.get_raise _ _ _ _ G4)].
  destruct (json_eq_str arch _ && json_eq_str os _); [|exact IH].
  destruct (get en _ (JStr [])) as [r|e1] eqn:G5;
    [|intros H; inversion H; subst; left; exact (FinderExtra.get_raise _ _ _ _ G5)].
  destruct r; try (intros H; inversion H; subst; right; reflexivity).
  destruct (re_search ref_re s); [discriminate|exact IH].
Qed.

Lemma get_obj_some kvs k def :
  (exists v, lookup k kvs = Some v /\ get (JObj kvs) k def = PyOk v) \/
  (lookup k kvs = None /\ get (JObj kvs) k def = PyOk def).
Proof. unfold get. destruct (lookup k kvs); [left; eauto|right; auto]. Qed.

Lemma scan_manifest_shaped (entries : list json) :
  Forall shaped_entry entries -> exists r, scan_manifest entries = PyOk r.
Proof.
  induction entries as [|en entries IH]; intros Hs; [exists None; reflexivity|].
  apply Forall_cons_iff in Hs. destruct Hs as [(kvs & -> & Hdesc & Href) Hrest].
  cbn [scan_manifest].
  assert (Hd : exists dk, get (JObj kvs) (S_ "Descriptor") empty_obj = PyOk (JObj dk) /\
                 forall p, lookup (S_ "platform") dk = Some p -> exists pk, p = JObj pk).
  { destruct (get_obj_some kvs (S_ "Descriptor") empty_obj) as [(v & Hl & Hg)|(Hl & Hg)].
    - destruct (Hdesc v Hl) as (dk & -> & Hp). eauto.
    - exists []. split; [exact Hg|]. intros p Hp. discriminate Hp. }
  destruct Hd as (dk & Hg & Hp). rewrite Hg.
  assert (Hpl : exists pk, get (JObj dk) (S_ "platform") empty_obj = PyOk (JObj pk)).
  { destruct (get_obj_some dk (S_ "platform") empty_obj) as [(v & Hl & Hg')|(Hl & Hg')].
    - destruct (Hp v Hl) as (pk & ->). eauto.
    - exists []. exact Hg'. }
  destruct Hpl as (pk & Hg'). rewrite Hg'.
  rewrite !(FinderExtra.get_obj pk).
  destruct (json_eq_str _ _ && json_eq_str _ _); [|exact (IH Hrest)].
  assert (Hr : exists s, get (JObj kvs) (S_ "Ref") (JStr []) = PyOk (JStr s)).
  { destruct (get_obj_some kvs (S_ "Ref") (JStr [])) as [(v & Hl & Hg'')|(Hl & Hg'')].
    - destruct (Href v Hl) as (s & ->). eauto.
    - eauto. }
  destruct Hr as (s & Hr). rewrite Hr.
  destruct (re_search ref_re s); [eauto|exact (IH Hrest)].
Qed.

(** X14: the registry variant of [get_arm64_hash] raises only when
    docker is missing ([FileNotFoundError]), when [subprocess.run] or
    [json.loads] raises an exception other than the two it catches (which
    then propagates), or on a decoded manifest of an unexpected shape, with
    [AttributeError] or [TypeError]; on a JSON list of entries that are
    objects with object [Descriptor] and [platform] and a string [Ref]
    (when present) it never raises. *)
Theorem arm_raise_kinds (image_name : pystr) :
  (forall out e, snd (arm_get_arm64_hash image_name out) = PyRaise e ->
     (out = DockerMissing /\ e = FileNotFoundError) \/ out = DockerRaise e \/
     (exists m, out = DockerOutput (Some m) /\ (e = AttributeError \/ e = TypeError))) /\
  (forall entries, Forall shaped_entry entries ->
     exists lg r, arm_get_arm64_hash image_name (DockerOutput (Some (JArr entries))) =
                  (lg, PyOk r)).
Proof.
  split.
  - intros [| |e0|[manifest_data|]] e; simpl; try discriminate.
    + intros H; inversion H; auto.
    + intros H; inversion H; auto.
    + intros Hr. right. right. exists manifest_data. split; [reflexivity|].
      destruct (py_iter manifest_data) as [entries|e1] eqn:Ei.
      * destruct (scan_manifest entries) as [[h|]|e1] eqn:E; simpl in Hr; try discriminate.
        inversion Hr; subst. exact (scan_manifest_raise _ _ E).
      * simpl in Hr. inversion Hr; subst. right.
        destruct manifest_data; inversion Ei; reflexivity.
  - intros entries Hs. destruct (scan_manifest_shaped _ Hs) as [r Hr].
    unfold arm_get_arm64_hash. simpl py_iter. cbv iota beta. rewrite Hr.
    destruct r; eauto.
Qed.

Lemma arm_raise_kinds_witness :
  snd (arm_get_arm64_hash (S_ "core-busybox")
         (DockerOutput (Some (JObj [(S_ "Ref", JStr (S_ "x"))])))) = PyRaise AttributeError /\
  ((DockerOutput (Some (JObj [(S_ "Ref", JStr (S_ "x"))])) = DockerMissing /\
    AttributeError = FileNotFoundError) \/
   DockerOutput (Some (JObj [(S_ "Ref", JStr (S_ "x"))])) = DockerRaise AttributeError \/
   (exists m, DockerOutput (Some (JObj [(S_ "Ref", JStr (S_ "x"))])) = DockerOutput (Some m) /\
      (AttributeError = AttributeError \/ AttributeError = TypeError))) /\
  exists lg r, arm_get_arm64_hash (S_ "core-busybox")
                 (DockerOutput (Some (JArr [arm64_entry (hexrun "a"%char)]))) = (lg, PyOk r).
Proof.
  destruct (arm_raise_kinds (S_ "core-busybox")) as [H1 H2].
  assert (E : snd (arm_get_arm64_hash (S_ "core-busybox")
                     (DockerOutput (Some (JObj [(S_ "Ref", JStr (S_ "x"))]))))
              = PyRaise AttributeError) by (vm_compute; reflexivity).
  split; [exact E|]. split; [exact (H1 _ _ E)|].
  apply H2. constructor; [|constructor].
  exists [(S_ "Descriptor", JObj [(S_ "platform", JObj [(S_ "architecture", JStr (S_ "arm64"));
                                                       (S_ "os", JStr (S_ "linux"))])]);
          (S_ "Ref", JStr (S_ "ghcr.io/siderolabs/stagex/core-busybox@sha256:"
                           ++ hexrun "a"%char))].
  split; [reflexivity|]. split.
  - intros d Hd. vm_compute in Hd. injection Hd as <-.
    eexists. split; [reflexivity|]. intros p Hp. vm_compute in Hp. injection Hp as <-.
    eexists. reflexivity.
  - intros r Hr. vm_compute in Hr. injection Hr as <-. eexists. reflexivity.
Defined.


End ResolverFacts.

Module MainWrites.
Import Finder Resolver Main ResolverFacts.

(** a log of printed lines only *)
Definition only_prints (l : list effect) : Prop :=
  Forall (fun e => match e with EWrite _ _ => False | EPrint _ => True end) l.

Lemma arm_only_prints n out : only_prints (fst (arm_get_arm64_hash n out)).
Proof.
  unfold only_prints, arm_get_arm64_hash.
  destruct out as [| |e0|[manifest_data|]]; simpl; repeat constructor.
  destruct (entries <- py_iter manifest_data ;; scan_manifest entries) as [[h|]|e];
    simpl; repeat constructor.
Qed.

Lemma x86_only_prints n page : only_prints (fst (x86_get_arm64_hash n page)).
Proof.
  unfold only_prints, x86_get_arm64_hash.
  destruct (x86_url n) as [url|e]; simpl; [|constructor].
  destruct page as [|nodes]; simpl; [repeat constructor|].
  destruct (first_match arm_line_re nodes) as [m|]; simpl; [|repeat constructor].
  destruct (re_search sha_re m); simpl; repeat constructor.
Qed.

Lemma fetch_loop_prints resolve (images : list entry) :
  (forall n, only_prints (fst (resolve n))) ->
  forall upd failed, only_prints (fst (fetch_loop resolve images upd failed)).
Proof.
  unfold only_prints. intros Hr.
  induction images as [|[[n cur] line] images IH]; intros upd failed; simpl; [constructor|].
  specialize (Hr n). destruct (resolve n) as [rlog r]. simpl in Hr.
  destruct r as [[h|]|e].
  - destruct (negb (str_eqb h [])); [destruct (negb (str_eqb h cur))|].
    + destruct (fetch_loop resolve images (dict_set upd n h) failed) as [l res] eqn:E.
      simpl. specialize (IH (dict_set upd n h) failed). rewrite E in IH. simpl in IH.
      repeat (constructor; [exact I|]). apply Forall_app. split; [exact Hr|].
      constructor; [exact I|exact IH].
    + destruct (fetch_loop resolve images upd failed) as [l res] eqn:E.
      simpl. specialize (IH upd failed). rewrite E in IH. simpl in IH.
      repeat (constructor; [exact I|]). apply Forall_app. split; [exact Hr|].
      constructor; [exact I|exact IH].
    + destruct (fetch_loop resolve images upd (failed ++ [n])) as [l res] eqn:E.
      simpl. specialize (IH upd (failed ++ [n])). rewrite E in IH. simpl in IH.
      repeat (constructor; [exact I|]). apply Forall_app. split; [exact Hr|].
      constructor; [exact I|exact IH].
  - destruct (fetch_loop resolve images upd (failed ++ [n])) as [l res] eqn:E.
    simpl. specialize (IH upd (failed ++ [n])). rewrite E in IH. simpl in IH.
    repeat (constructor; [exact I|]). apply Forall_app. split; [exact Hr|].
    constructor; [exact I|exact IH].
  - simpl. repeat (constructor; [exact I|]). exact Hr.
Qed.

Lemma main_writes extract_re update_re resolve (fs : fsys) (path : pystr) :
  (forall n, only_prints (fst (resolve n))) ->
  forall p d, In (EWrite p d) (fst (main extract_re update_re resolve fs path)) ->
  (p = path ++ S_ ".backup" /\ fs path = Some d) \/
  (p = path /\ exists content upd, fs path = Some content /\
     d = apply_updates update_re upd content /\ d <> content).
Proof.
  intros Hr p d. unfold main.
  assert (Hp : forall l, only_prints l -> ~ In (EWrite p d) l).
  { intros l Hl Hin. unfold only_prints in Hl. rewrite Forall_forall in Hl.
    exact (Hl _ Hin). }
  destruct (fs path) as [content|] eqn:Hfs; [|simpl; intros [H|[]]; discriminate H].
  pose proof (fetch_loop_prints resolve (extract_images extract_re content) Hr [] [])
    as Hl.
  destruct (fetch_loop resolve (extract_images extract_re content) [] []) as [l r].
  simpl in Hl.
  assert (Hfr : forall f, only_prints (failure_report f)).
  { intros f. unfold only_prints, failure_report. constructor; [exact I|].
    rewrite Forall_map. apply Forall_forall. intros; exact I. }
  assert (Hu : forall updates ul ures,
     (match updates with
      | [] => ([EPrint (S_ "No updates needed.")], PyOk tt)
      | _ :: _ =>
          match update_containerfile update_re fs path updates with
          | PyOk effs => (EPrint (S_ "Updating images") :: effs, PyOk tt)
          | PyRaise e => ([EPrint (S_ "Updating images")], PyRaise e)
          end
      end) = (ul, ures) ->
     In (EWrite p d) ul ->
     (p = path ++ S_ ".backup" /\ Some content = Some d) \/
     (p = path /\ exists content' upd, Some content = Some content' /\
        d = apply_updates update_re upd content' /\ d <> content')).
  { intros updates ul ures E Hin. destruct updates as [|kv upd].
    - inversion E; subst. destruct Hin as [H|[]]; discriminate H.
    - unfold update_containerfile in E. rewrite Hfs in E. cbv zeta in E.
      remember (apply_updates update_re (kv :: upd) content) as c' eqn:Ec'.
      destruct (str_eqb c' content) eqn:Eq;
        cbn [negb] in E; inversion E; subst ul ures.
      + destruct Hin as [H|[H|[]]]; discriminate H.
      + destruct Hin as [H|[H|[H|[H|[H|[]]]]]]; try discriminate H.
        * inversion H; subst p d. left. auto.
        * inversion H; subst p d. right. split; [reflexivity|].
          exists content, (kv :: upd). split; [reflexivity|]. split; [exact Ec'|].
          intros Ec. rewrite Ec, str_eqb_refl in Eq. discriminate Eq. }
  destruct r as [[updates failed_images]|e].
  - destruct (match updates with
              | [] => ([EPrint (S_ "No updates needed.")], PyOk tt)
              | _ :: _ =>
                  match update_containerfile update_re fs path updates with
                  | PyOk effs => (EPrint (S_ "Updating images") :: effs, PyOk tt)
                  | PyRaise e => ([EPrint (S_ "Updating images")], PyRaise e)
                  end
              end) as [ul ures] eqn:E.
    assert (Hc : forall rest, only_prints rest ->
      In (EWrite p d) ([EPrint (S_ "Processing " ++ path ++ S_ "...")] ++
                       EPrint (S_ "Found some stagex images to update") :: l ++ ul ++ rest) ->
      (p = path ++ S_ ".backup" /\ Some content = Some d) \/
      (p = path /\ exists content' upd, Some content = Some content' /\
         d = apply_updates update_re upd content' /\ d <> content')).
    { intros rest Hrest Hin. simpl in Hin. destruct Hin as [H|[H|Hin]]; try discriminate H.
      apply in_app_or in Hin. destruct Hin as [Hin|Hin]; [exfalso; exact (Hp _ Hl Hin)|].
      apply in_app_or in Hin. destruct Hin as [Hin|Hin]; [exact (Hu _ _ _ E Hin)|].
      exfalso. exact (Hp _ Hrest Hin). }
    destruct ures as [u|e].
    + destruct failed_images as [|f fs'].
      * simpl fst. intros Hin. apply (Hc [EPrint (S_ "All images processed successfully!")]);
          [repeat constructor|exact Hin].
      * simpl fst. intros Hin. apply (Hc (failure_report (f :: fs'))); [apply Hfr|exact Hin].
    + simpl fst. intros Hin. apply (Hc []); [constructor|]. rewrite app_nil_r. exact Hin.
  - simpl fst. intros Hin. simpl in Hin. destruct Hin as [H|[H|Hin]]; try discriminate H.
    exfalso. exact (Hp _ Hl Hin).
Qed.

(** X15: with either variant's resolver, [main] writes only two files:
    [<path>.backup], with the content it read from [path], and [path]
    itself, with that content after a list of digest replacements, and only
    when this changes it. *)
Theorem main_writes_only_containerfile (fs : fsys) (path : pystr) (outs : pystr -> manifest_outcome)
  (pages : pystr -> page_outcome) (p d : pystr) :
  (In (EWrite p d) (fst (main Arm.extract_re Arm.update_re
                           (fun n => arm_get_arm64_hash n (outs n)) fs path)) ->
   (p = path ++ S_ ".backup" /\ fs path = Some d) \/
   (p = path /\ exists content upd, fs path = Some content /\
      d = apply_updates Arm.update_re upd content /\ d <> content)) /\
  (In (EWrite p d) (fst (main X86.extract_re X86.update_re
                           (fun n => x86_get_arm64_hash n (pages n)) fs path)) ->
   (p = path ++ S_ ".backup" /\ fs path = Some d) \/
   (p = path /\ exists content upd, fs path = Some content /\
      d = apply_updates X86.update_re upd content /\ d <> content)).
Proof.
  split; apply main_writes; intros n; [apply arm_only_prints|apply x86_only_prints].
Qed.

Lemma main_writes_only_containerfile_witness :
  In (EWrite (S_ "Containerfile" ++ S_ ".backup") sample_file)
     (fst (main Arm.extract_re Arm.update_re
             (fun n => arm_get_arm64_hash n
                         (DockerOutput (Some (JArr [arm64_entry (hexrun "1"%char)]))))
             (fun _ => Some sample_file) (S_ "Containerfile"))) /\
  ((S_ "Containerfile" ++ S_ ".backup" = S_ "Containerfile" ++ S_ ".backup" /\
    Some sample_file = Some sample_file) \/
   (S_ "Containerfile" ++ S_ ".backup" = S_ "Containerfile" /\
    exists content upd, Some sample_file = Some content /\
      sample_file = apply_updates Arm.update_re upd content /\ sample_file <> content)).
Proof.
  assert (H : In (EWrite (S_ "Containerfile" ++ S_ ".backup") sample_file)
     (fst (main Arm.extract_re Arm.update_re
             (fun n => arm_get_arm64_hash n
                         (DockerOutput (Some (JArr [arm64_entry (hexrun "1"%char)]))))
             (fun _ => Some sample_file) (S_ "Containerfile")))).
  { vm_compute. repeat (try (left; reflexivity); right). }
  split; [exact H|].
  exact (proj1 (main_writes_only_containerfile (fun _ => Some sample_file) (S_ "Containerfile")
           (fun _ => DockerOutput (Some (JArr [arm64_entry (hexrun "1"%char)])))
           (fun _ => HttpError) _ _) H).
Defined.


End MainWrites.
